(** * Context propagation of the pipeline utilities: model and properties

    A shallow embedding of
      - [pipeline/log_helper.py]        (the context store and its header codec),
      - [pipeline/pipeline_utils.py]    (the Pub/Sub callback wrapper and
                                         [SessionInformation.add_to_context]),
      - [pipeline/pubsub_utils.py]      (the attributes of a published message),
      - [pipeline/temporal_utils/context_propagator.py] (Temporal interceptors),
    together with the parts of the Python runtime these functions call
    ([str] methods, [re.match] on the two patterns, UTF-8, [base64], and
    the context variables of the units that share the singleton). *)

From Stdlib Require Import List Bool Arith NArith ZArith Lia String Ascii.
From Stdlib Require Import Zify ZifyN.
From Stdlib Require Import DecimalString.
From Stdlib Require Import Permutation.
Import ListNotations.

Set Implicit Arguments.

(* ================================================================== *)
(** * Python strings, bytes and exceptions *)
(* ================================================================== *)

Module Py.

(** A [str] is a sequence of Unicode code points; a [bytes] object is a
    sequence of numbers below 256. *)
Definition char := N.
Definition pystr := list N.
Definition bytes := list N.

(** String literals of the source, written as Rocq strings. *)
Definition lit (s : string) : pystr :=
  map N_of_ascii (list_ascii_of_string s).

(** The exceptions the modelled code can meet. *)
Inductive exn : Type :=
| UnicodeEncodeError
| UnicodeDecodeError
| BinasciiError
| AttributeError
| HandlerError (msg : pystr).

(** The outcome of a call: a value, or a raised exception. *)
Inductive result (A : Type) : Type :=
| Ok (a : A)
| Raise (e : exn).
Arguments Ok {A} a.
Arguments Raise {A} e.

Definition bind {A B} (r : result A) (f : A -> result B) : result B :=
  match r with
  | Ok a => f a
  | Raise e => Raise e
  end.

Notation "x <- r ;; k" := (bind r (fun x => k))
  (at level 61, r at next level, right associativity).

(** [==] on strings. *)
Fixpoint str_eqb (a b : pystr) : bool :=
  match a, b with
  | [], [] => true
  | x :: a', y :: b' => N.eqb x y && str_eqb a' b'
  | _, _ => false
  end.

(** [c.isspace()], the set shared by [str.strip] and the [\s] class of [re]
    on [str] patterns. *)
Definition isspace (c : char) : bool :=
  ((9 <=? c) && (c <=? 13) || (28 <=? c) && (c <=? 32)
   || (c =? 133) || (c =? 160) || (c =? 5760)
   || (8192 <=? c) && (c <=? 8202)
   || (c =? 8232) || (c =? 8233) || (c =? 8239) || (c =? 8287)
   || (c =? 12288))%N.

Fixpoint lstrip (s : pystr) : pystr :=
  match s with
  | c :: s' => if isspace c then lstrip s' else s
  | [] => []
  end.

Definition rstrip (s : pystr) : pystr := rev (lstrip (rev s)).

(** [s.strip()] *)
Definition strip (s : pystr) : pystr := rstrip (lstrip s).

(** [s.split("\n")]: always at least one piece. *)
Fixpoint split_lines (s : pystr) : list pystr :=
  match s with
  | [] => [[]]
  | c :: s' =>
      if (c =? 10)%N then [] :: split_lines s'
      else match split_lines s' with
           | l :: ls => (c :: l) :: ls
           | [] => [[c]]
           end
  end.

(** [sep.join(parts)] *)
Fixpoint join (sep : pystr) (parts : list pystr) : pystr :=
  match parts with
  | [] => []
  | [p] => p
  | p :: ps => p ++ sep ++ join sep ps
  end.

(** [s.startswith(p)], returning what follows the prefix. *)
Fixpoint strip_prefix (p s : pystr) : option pystr :=
  match p, s with
  | [], _ => Some s
  | x :: p', y :: s' => if N.eqb x y then strip_prefix p' s' else None
  | _ :: _, [] => None
  end.

Definition startswith (s p : pystr) : bool :=
  match strip_prefix p s with Some _ => true | None => false end.

(** Truthiness of a string. *)
Definition truthy (s : pystr) : bool :=
  match s with [] => false | _ => true end.

(** [s.encode("ascii")] *)
Fixpoint encode_ascii (s : pystr) : result bytes :=
  match s with
  | [] => Ok []
  | c :: s' =>
      if (c <? 128)%N then (r <- encode_ascii s' ;; Ok (c :: r))
      else Raise UnicodeEncodeError
  end.

(** ** Scalars stored as custom values

    [set_custom_info] takes [Any]; the store is used with scalars.  A float
    is carried with the text [repr] gives for it: floating point arithmetic
    is not modelled. *)
Inductive pyval : Type :=
| PyNone
| PyStr (s : pystr)
| PyInt (z : Z)
| PyBool (b : bool)
| PyFloat (repr : pystr).

(** [str(v)] *)
Definition py_str (v : pyval) : pystr :=
  match v with
  | PyNone => lit "None"
  | PyStr s => s
  | PyInt z => lit (NilZero.string_of_int (Z.to_int z))
  | PyBool true => lit "True"
  | PyBool false => lit "False"
  | PyFloat r => r
  end.

Definition is_none (v : pyval) : bool :=
  match v with PyNone => true | _ => false end.

(** ** Dictionaries

    A [dict] keeps its keys unique and in insertion order; assigning to a
    key that is present keeps the key's position. *)
Definition dict (V : Type) := list (pystr * V).

Fixpoint dict_get {V} (d : dict V) (k : pystr) : option V :=
  match d with
  | [] => None
  | (k', v) :: d' => if str_eqb k' k then Some v else dict_get d' k
  end.

(** [d[k] = v] *)
Fixpoint dict_set {V} (d : dict V) (k : pystr) (v : V) : dict V :=
  match d with
  | [] => [(k, v)]
  | (k', v') :: d' =>
      if str_eqb k' k then (k', v) :: d' else (k', v') :: dict_set d' k v
  end.

(** [d.update(other)] *)
Definition dict_update {V} (d other : dict V) : dict V :=
  fold_left (fun acc kv => dict_set acc (fst kv) (snd kv)) other d.

Definition dict_contains {V} (d : dict V) (k : pystr) : bool :=
  match dict_get d k with Some _ => true | None => false end.

Definition keys {V} (d : dict V) : list pystr := map fst d.

End Py.

Import Py.

(* ================================================================== *)
(** * UTF-8, as [str.encode("utf-8")] and [bytes.decode("utf-8")] *)
(* ================================================================== *)

Module Utf8.
Local Open Scope N_scope.

Definition is_surrogate (c : N) : bool := (0xD800 <=? c) && (c <=? 0xDFFF).

(** A continuation byte carrying six bits of [c], [k] sextets from the right. *)
Definition cont (c : N) (k : N) : N :=
  N.lor 0x80 (N.land (N.shiftr c (6 * k)) 0x3F).

Definition encode_char (c : N) : result bytes :=
  if c <? 0x80 then Ok [c]
  else if c <? 0x800 then Ok [N.lor 0xC0 (N.shiftr c 6); cont c 0]
  else if is_surrogate c then Raise UnicodeEncodeError
  else if c <? 0x10000 then
    Ok [N.lor 0xE0 (N.shiftr c 12); cont c 1; cont c 0]
  else if c <? 0x110000 then
    Ok [N.lor 0xF0 (N.shiftr c 18); cont c 2; cont c 1; cont c 0]
  else Raise UnicodeEncodeError.

Fixpoint encode (s : pystr) : result bytes :=
  match s with
  | [] => Ok []
  | c :: s' =>
      b <- encode_char c ;;
      r <- encode s' ;;
      Ok (b ++ r)
  end.

Definition is_cont (b : N) : bool := (0x80 <=? b) && (b <=? 0xBF).

Definition payload (b : N) : N := N.land b 0x3F.

(** The strict decoder: overlong forms, surrogates and values above
    U+10FFFF are errors, as are stray or missing continuation bytes. *)
Fixpoint decode (bs : bytes) : result pystr :=
  match bs with
  | [] => Ok []
  | b1 :: r1 =>
      if b1 <? 0x80 then (s <- decode r1 ;; Ok (b1 :: s))
      else if (0xC2 <=? b1) && (b1 <=? 0xDF) then
        match r1 with
        | b2 :: r2 =>
            if is_cont b2 then
              s <- decode r2 ;;
              Ok (N.lor (N.shiftl (N.land b1 0x1F) 6) (payload b2) :: s)
            else Raise UnicodeDecodeError
        | _ => Raise UnicodeDecodeError
        end
      else if (0xE0 <=? b1) && (b1 <=? 0xEF) then
        match r1 with
        | b2 :: b3 :: r3 =>
            let c := N.lor (N.shiftl (N.land b1 0x0F) 12)
                       (N.lor (N.shiftl (payload b2) 6) (payload b3)) in
            if is_cont b2 && is_cont b3 && (0x800 <=? c)
               && negb (is_surrogate c) then
              s <- decode r3 ;; Ok (c :: s)
            else Raise UnicodeDecodeError
        | _ => Raise UnicodeDecodeError
        end
      else if (0xF0 <=? b1) && (b1 <=? 0xF4) then
        match r1 with
        | b2 :: b3 :: b4 :: r4 =>
            let c := N.lor (N.shiftl (N.land b1 0x07) 18)
                       (N.lor (N.shiftl (payload b2) 12)
                          (N.lor (N.shiftl (payload b3) 6) (payload b4))) in
            if is_cont b2 && is_cont b3 && is_cont b4
               && (0x10000 <=? c) && (c <? 0x110000) then
              s <- decode r4 ;; Ok (c :: s)
            else Raise UnicodeDecodeError
        | _ => Raise UnicodeDecodeError
        end
      else Raise UnicodeDecodeError
  end.

End Utf8.

(* ================================================================== *)
(** * [base64.urlsafe_b64encode] and [base64.urlsafe_b64decode] *)
(* ================================================================== *)

Module Base64.
Local Open Scope N_scope.

(** The URL-safe alphabet: [A-Z a-z 0-9 - _]. *)
Definition table_b2a (i : N) : N :=
  if i <? 26 then 65 + i
  else if i <? 52 then 97 + (i - 26)
  else if i <? 62 then 48 + (i - 52)
  else if i =? 62 then 45
  else 95.

Definition BASE64_PAD : N := 61.

(** Three bytes give four characters; a tail of one or two bytes is padded
    with [=] to a full quad. *)
Fixpoint urlsafe_b64encode (bs : bytes) : bytes :=
  match bs with
  | [] => []
  | [b1] =>
      [table_b2a (N.shiftr b1 2);
       table_b2a (N.shiftl (N.land b1 3) 4);
       BASE64_PAD; BASE64_PAD]
  | [b1; b2] =>
      [table_b2a (N.shiftr b1 2);
       table_b2a (N.lor (N.shiftl (N.land b1 3) 4) (N.shiftr b2 4));
       table_b2a (N.shiftl (N.land b2 15) 2);
       BASE64_PAD]
  | b1 :: b2 :: b3 :: rest =>
      table_b2a (N.shiftr b1 2)
      :: table_b2a (N.lor (N.shiftl (N.land b1 3) 4) (N.shiftr b2 4))
      :: table_b2a (N.lor (N.shiftl (N.land b2 15) 2) (N.shiftr b3 6))
      :: table_b2a (N.land b3 63)
      :: urlsafe_b64encode rest
  end.

(** [s.translate(_urlsafe_decode_translation)]: [-] becomes [+], [_]
    becomes [/]. *)
Definition urlsafe_translate (c : N) : N :=
  if c =? 45 then 43 else if c =? 95 then 47 else c.

(** The standard decoding table; [None] for a byte outside the alphabet. *)
Definition table_a2b (c : N) : option N :=
  if (65 <=? c) && (c <=? 90) then Some (c - 65)
  else if (97 <=? c) && (c <=? 122) then Some (c - 97 + 26)
  else if (48 <=? c) && (c <=? 57) then Some (c - 48 + 52)
  else if c =? 43 then Some 62
  else if c =? 47 then Some 63
  else None.

(** The loop of [binascii.a2b_base64] without [strict_mode], which is what
    [b64decode(s)] calls with [validate=False]: bytes outside the alphabet
    are skipped, a complete pad sequence ends the input, and data that
    stops inside a quad is an error ("Incorrect padding"). *)
Fixpoint a2b_base64 (data : bytes) (quad_pos leftchar pads : N) (out : bytes)
  : result bytes :=
  match data with
  | [] => if quad_pos =? 0 then Ok out else Raise BinasciiError
  | this_ch :: data' =>
      if this_ch =? BASE64_PAD then
        if 2 <=? quad_pos then
          if 4 <=? quad_pos + (pads + 1) then Ok out
          else a2b_base64 data' quad_pos leftchar (pads + 1) out
        else a2b_base64 data' quad_pos leftchar pads out
      else
        match table_a2b this_ch with
        | None => a2b_base64 data' quad_pos leftchar pads out
        | Some v =>
            if quad_pos =? 0 then a2b_base64 data' 1 v 0 out
            else if quad_pos =? 1 then
              a2b_base64 data' 2 (N.land v 0x0f) 0
                (out ++ [N.land (N.lor (N.shiftl leftchar 2) (N.shiftr v 4)) 255])
            else if quad_pos =? 2 then
              a2b_base64 data' 3 (N.land v 0x03) 0
                (out ++ [N.land (N.lor (N.shiftl leftchar 4) (N.shiftr v 2)) 255])
            else
              a2b_base64 data' 0 0 0
                (out ++ [N.land (N.lor (N.shiftl leftchar 6) v) 255])
        end
  end.

Definition urlsafe_b64decode (s : bytes) : result bytes :=
  a2b_base64 (map urlsafe_translate s) 0 0 0 [].

(** The characters of the URL-safe alphabet. *)
Definition b64char (c : N) : bool :=
  (65 <=? c) && (c <=? 90) || (97 <=? c) && (c <=? 122)
  || (48 <=? c) && (c <=? 57) || (c =? 45) || (c =? 95).

(** A string of alphabet characters only. *)
Definition alphabet (s : bytes) : Prop := Forall (fun c => b64char c = true) s.

(** The number of [=] that end the encoding of [n] bytes. *)
Fixpoint pad_length (n : nat) : nat :=
  match n with
  | 0%nat => 0%nat
  | 1%nat => 2%nat
  | 2%nat => 1%nat
  | S (S (S n')) => pad_length n'
  end.

End Base64.

(* ================================================================== *)
(** * [re.match] for the constructs the two patterns use *)
(* ================================================================== *)

(** Backtracking matchers in continuation-passing style.  A matcher
    consumes a prefix of the subject and hands what it consumed and the
    rest to its continuation; when the continuation fails it tries its next
    alternative, in the order of [re]: longest first for a greedy
    quantifier, shortest first for a lazy one.  [re.match] anchors at the
    start of the subject only. *)
Module Re.
Local Open Scope N_scope.

Section Matchers.
Variable R : Type.

(** A literal piece of the pattern. *)
Fixpoint literal (p s : pystr) (k : pystr -> option R) : option R :=
  match p with
  | [] => k s
  | x :: p' =>
      match s with
      | y :: s' => if x =? y then literal p' s' k else None
      | [] => None
      end
  end.

(** [X*] for a character class [X]. *)
Fixpoint star_greedy (cls : char -> bool) (s : pystr)
         (k : pystr -> pystr -> option R) : option R :=
  match s with
  | c :: s' =>
      if cls c then
        match star_greedy cls s' (fun m rest => k (c :: m) rest) with
        | Some r => Some r
        | None => k [] s
        end
      else k [] s
  | [] => k [] []
  end.

(** [X+] *)
Definition plus_greedy (cls : char -> bool) (s : pystr)
           (k : pystr -> pystr -> option R) : option R :=
  match s with
  | c :: s' =>
      if cls c then star_greedy cls s' (fun m rest => k (c :: m) rest)
      else None
  | [] => None
  end.

(** [X*?] *)
Fixpoint star_lazy (cls : char -> bool) (s : pystr)
         (k : pystr -> pystr -> option R) : option R :=
  match k [] s with
  | Some r => Some r
  | None =>
      match s with
      | c :: s' =>
          if cls c then star_lazy cls s' (fun m rest => k (c :: m) rest)
          else None
      | [] => None
      end
  end.

(** [X+?] *)
Definition plus_lazy (cls : char -> bool) (s : pystr)
           (k : pystr -> pystr -> option R) : option R :=
  match s with
  | c :: s' =>
      if cls c then star_lazy cls s' (fun m rest => k (c :: m) rest)
      else None
  | [] => None
  end.
End Matchers.

(** Every character of [m] is in the class. *)
Definition all_in (cls : char -> bool) (m : pystr) : Prop :=
  Forall (fun c => cls c = true) m.

(** [[^x]] *)
Definition not_char (x : char) : char -> bool := fun c => negb (c =? x).

(** [.] without [DOTALL]: anything but a line feed. *)
Definition dot : char -> bool := fun c => negb (c =? 10).

(** [\s] *)
Definition space : char -> bool := isspace.

End Re.

(* ================================================================== *)
(** * [log_helper.py]: [OurRitualContext] *)
(* ================================================================== *)

Module LogHelper.
Local Open Scope N_scope.

(** The state behind the singleton: the values of [_topic_info_var] and
    [_custom_info_var] in the running unit; both default to [None]. *)
Record store : Type := {
  topic_info : option pystr;
  custom_info : option (dict pyval)
}.

Definition empty_store : store :=
  {| topic_info := None; custom_info := None |}.

Definition set_topic_info (st : store) (topic : option pystr) : store :=
  {| topic_info := topic; custom_info := custom_info st |}.

Definition set_custom_info (st : store) (key : pystr) (value : pyval) : store :=
  let current := match custom_info st with
                 | Some d => d
                 | None => []
                 end in
  {| topic_info := topic_info st;
     custom_info := Some (dict_set current key value) |}.

Definition ROOT : pystr := lit "ourritual/".
Definition TOPIC_KEY : pystr := lit "ourritual/topic/name".

(** The body of the loop of [to_list] over the custom entries. *)
Definition flatten (result : dict pystr) (kv : pystr * pyval) : dict pystr :=
  if is_none (snd kv) then result
  else dict_set result (ROOT ++ fst kv) (py_str (snd kv)).

(** [to_list]: the flattened, namespaced map. *)
Definition to_list (st : store) : dict pystr :=
  let result :=
    match topic_info st with
    | Some t => dict_set [] TOPIC_KEY t
    | None => []
    end in
  match custom_info st with
  | Some ci => fold_left flatten ci result
  | None => result
  end.

(** One rendered entry: the key, a colon and a space, then the value
    between double quotes, nothing escaped. *)
Definition render (kv : pystr * pystr) : pystr :=
  fst kv ++ lit ": " ++ [34] ++ snd kv ++ [34].

(** The text that [to_header] encodes. *)
Definition json_str (json_dict : dict pystr) : pystr :=
  join [10] (map render json_dict).

Definition to_header (st : store) : result pystr :=
  let json_dict := to_list st in
  match json_dict with
  | [] => Ok []
  | _ =>
      b <- Utf8.encode (json_str json_dict) ;;
      Ok (Base64.urlsafe_b64encode b)
  end.

(** [pattern_with_section]: the literal [ourritual/]; group 1, one or
    more characters other than the slash (47), greedy; a slash; group 2, one
    or more characters other than the line feed, lazy; a colon (58); any
    white space; a double quote (34); group 3, any number of characters
    other than the double quote, greedy; a double quote. *)
Definition pattern_with_section (line : pystr)
  : option (pystr * pystr * pystr) :=
  Re.literal ROOT line (fun r0 =>
  Re.plus_greedy (Re.not_char 47) r0 (fun g1 r1 =>
  Re.literal [47] r1 (fun r2 =>
  Re.plus_lazy Re.dot r2 (fun g2 r3 =>
  Re.literal [58] r3 (fun r4 =>
  Re.star_greedy Re.space r4 (fun _ r5 =>
  Re.literal [34] r5 (fun r6 =>
  Re.star_greedy (Re.not_char 34) r6 (fun g3 r7 =>
  Re.literal [34] r7 (fun _ =>
  Some (g1, g2, g3)))))))))).

(** [pattern_direct]: the literal [ourritual/]; group 1, one or more
    characters other than the colon, greedy; a colon; any white space; a
    double quote; group 2, any number of characters other than the double
    quote, greedy; a double quote. *)
Definition pattern_direct (line : pystr) : option (pystr * pystr) :=
  Re.literal ROOT line (fun r0 =>
  Re.plus_greedy (Re.not_char 58) r0 (fun g1 r1 =>
  Re.literal [58] r1 (fun r2 =>
  Re.star_greedy Re.space r2 (fun _ r3 =>
  Re.literal [34] r3 (fun r4 =>
  Re.star_greedy (Re.not_char 34) r4 (fun g2 r5 =>
  Re.literal [34] r5 (fun _ =>
  Some (g1, g2)))))))).

(** What the loop of [from_header] has collected so far. *)
Definition parsed : Type := (option pystr * dict pyval)%type.

(** The body of the loop over the decoded lines. *)
Definition parse_line (acc : parsed) (line0 : pystr) : parsed :=
  let line := strip line0 in
  if negb (truthy line) then acc
  else
    match pattern_with_section line with
    | Some (section, key_path, value) =>
        if str_eqb section (lit "topic") then
          if str_eqb key_path (lit "name") then (Some value, snd acc)
          else acc
        else acc
    | None =>
        match pattern_direct line with
        | Some (key, value) =>
            if negb (str_eqb key (lit "topic"))
            then (fst acc, dict_set (snd acc) key (PyStr value))
            else acc
        | None => acc
        end
    end.

(** The part of [from_header] that follows a successful decode. *)
Definition install (st : store) (decoded_str : pystr) : store :=
  let p := fold_left parse_line (split_lines decoded_str) (None, []) in
  let st1 :=
    match fst p with
    | Some topic_data => set_topic_info st (Some topic_data)
    | None => st
    end in
  match snd p with
  | [] => st1
  | custom_data =>
      {| topic_info := topic_info st1; custom_info := Some custom_data |}
  end.

(** The [try] block of [from_header]. *)
Definition decode_header (header : pystr) : result pystr :=
  header_bytes <- encode_ascii header ;;
  decoded_bytes <- Base64.urlsafe_b64decode header_bytes ;;
  Utf8.decode decoded_bytes.

Definition from_header (st : store) (header : pystr) : result store :=
  if negb (truthy header) || negb (truthy (strip header)) then Ok st
  else
    match decode_header header with
    | Raise _ => Ok st
    | Ok decoded_str => Ok (install st decoded_str)
    end.

(** ** The operations of the class that change the store

    [to_list], [to_header], [_get_extra] and the two properties only read
    it. *)
Inductive op : Type :=
| SetTopicInfo (topic : option pystr)
| SetCustomInfo (key : pystr) (value : pyval)
| FromHeader (header : pystr).

Definition run_op (st : store) (o : op) : result store :=
  match o with
  | SetTopicInfo topic => Ok (set_topic_info st topic)
  | SetCustomInfo key value => Ok (set_custom_info st key value)
  | FromHeader header => from_header st header
  end.

Fixpoint run_ops (st : store) (os : list op) : result store :=
  match os with
  | [] => Ok st
  | o :: os' => st' <- run_op st o ;; run_ops st' os'
  end.

(** A store is well formed when its custom map has unique keys, as every
    Python [dict] has. *)
Definition wf_store (st : store) : Prop :=
  match custom_info st with
  | Some ci => NoDup (keys ci)
  | None => True
  end.

(** A header with its trailing [=] characters taken off. *)
Fixpoint drop_pad (s : pystr) : pystr :=
  match s with
  | c :: s' => if c =? Base64.BASE64_PAD then drop_pad s' else s
  | [] => []
  end.

Definition remove_padding (header : pystr) : pystr :=
  rev (drop_pad (rev header)).

(** The custom map holds at least one entry. *)
Definition has_custom (st : store) : Prop :=
  exists e ci, custom_info st = Some (e :: ci).

(** No custom entry is keyed [topic/name], the path of the topic. *)
Definition topic_key_free (st : store) : Prop :=
  match custom_info st with
  | Some ci => ~ In (lit "topic/name") (keys ci)
  | None => True
  end.

(** [custom_info[key]] when there is a custom map and it has the key. *)
Definition custom_get (st : store) (key : pystr) : option pyval :=
  match custom_info st with
  | Some ci => dict_get ci key
  | None => None
  end.

(** A key with a first segment that is not empty and something after its
    first slash: what [pattern_with_section] takes for section and path. *)
Definition sectioned_key (key : pystr) : Prop :=
  exists s r, key = s ++ [47] ++ r
              /\ s <> [] /\ Re.all_in (Re.not_char 47) s /\ r <> [].

(** No line feed in a string. *)
Definition one_line (s : pystr) : Prop := Re.all_in Re.dot s.

(** The keys of the custom map, none when there is no map. *)
Definition custom_keys (st : store) : list pystr :=
  match custom_info st with
  | Some ci => keys ci
  | None => []
  end.

(** No key of a decoded custom map is a sectioned one. *)
Definition decoded_keys_ok (d : dict pyval) : Prop :=
  forall g, In g (keys d) -> ~ sectioned_key g.

End LogHelper.

(* ================================================================== *)
(** * [pipeline_utils.py]: the Pub/Sub callback wrapper *)
(* ================================================================== *)

Module PipelineUtils.
Import LogHelper.

(** A Pub/Sub message, as far as the wrapper reads it. *)
Record message : Type := {
  attributes : dict pystr;
  message_id : pystr
}.

(** What the wrapper does to the span it opens. *)
Inductive span_event : Type :=
| SpanStart
| SetStatusError (e : exn)
| RecordException (e : exn)
| SpanEnd.

Section Wrapper.
(** The attribute name, imported from the [const] module. *)
Variable OURRITUAL_CONTEXT_HEADER : pystr.

(** The result type of the wrapped handler. *)
Variable A : Type.

(** A handler runs in the unit's store, may change it, and returns or
    raises. *)
Definition handler : Type := message -> store -> result A * store.

(** The outcome of one wrapped call: what the caller gets, the store the
    worker is left with, and the span events. *)
Definition outcome : Type := (result A * store * list span_event)%type.

(** [wrapped_callback], the function [wrap_message_callback] returns;
    [tracer] tells whether [GlobalConfig().tracer] is set. *)
Definition wrap_message_callback (tracer : bool) (callback_func : handler)
           (msg : message) (st : store) : outcome :=
  let ritual_context :=
    match dict_get (attributes msg) OURRITUAL_CONTEXT_HEADER with
    | Some h => h
    | None => []
    end in
  let installed :=
    if truthy ritual_context then from_header st ritual_context
    else Ok st in
  match installed with
  | Raise e => (Raise e, st, [])
  | Ok st1 =>
      if tracer then
        match callback_func msg st1 with
        | (Ok r, st2) => (Ok r, st2, [SpanStart; SpanEnd])
        | (Raise e, st2) =>
            (Raise e, st2,
             [SpanStart; SetStatusError e; RecordException e; SpanEnd])
        end
      else
        match callback_func msg st1 with
        | (r, st2) => (r, st2, [])
        end
  end.

(** What the caller of the wrapper gets, and the store it leaves. *)
Definition returned (o : outcome) : result A := fst (fst o).
Definition store_left (o : outcome) : store := snd (fst o).

(** A worker handles its messages one after the other in the same
    store. *)
Fixpoint worker (tracer : bool) (callback_func : handler)
         (msgs : list message) (st : store) : list (result A) * store :=
  match msgs with
  | [] => ([], st)
  | m :: ms =>
      match wrap_message_callback tracer callback_func m st with
      | (r, st', _) =>
          let rest := worker tracer callback_func ms st' in
          (r :: fst rest, snd rest)
      end
  end.
End Wrapper.

End PipelineUtils.

(* ================================================================== *)
(** * [temporal_utils/context_propagator.py] *)
(* ================================================================== *)

Module ContextPropagator.
Import LogHelper.

Definition CONTEXT_HEADER_KEY : pystr := lit "ourritual-context".
Definition TEST_KEY : pystr := lit "ourritual/test".

(** One step of the loop of [_restore_context_from_dict]; the method has
    the same body in [ContextActivityInboundInterceptor] and in
    [ContextWorkflowInboundInterceptor]. *)
Definition restore_entry (ctx : store) (kv : pystr * pystr) : store :=
  let key := fst kv in
  let value := snd kv in
  if str_eqb key TOPIC_KEY then set_topic_info ctx (Some value)
  else if startswith key ROOT && negb (str_eqb key TEST_KEY) then
    let custom_key := skipn (List.length ROOT) key in
    set_custom_info ctx custom_key (PyStr value)
  else ctx.

(** The entries the loop installs as custom info. *)
Definition installable (key : pystr) : bool :=
  negb (str_eqb key TOPIC_KEY)
  && (startswith key ROOT && negb (str_eqb key TEST_KEY)).

Module ContextActivityInboundInterceptor.
Definition _restore_context_from_dict (st : store)
           (context_dict : dict pystr) : store :=
  fold_left restore_entry context_dict st.
End ContextActivityInboundInterceptor.

Module ContextWorkflowInboundInterceptor.
Definition _restore_context_from_dict (st : store)
           (context_dict : dict pystr) : store :=
  fold_left restore_entry context_dict st.
End ContextWorkflowInboundInterceptor.

Section Interceptors.
(** Temporal's [Payload] and the default payload converter are taken as
    given: [to_payloads] encodes the flattened map (it may raise),
    [from_payloads] gives back the decoded object, [None] when that is not
    a [dict]; [payload_truthy] is the truth value of a payload. *)
Variable Payload : Type.
Variable to_payloads : dict pystr -> result Payload.
Variable from_payloads : Payload -> result (option (dict pystr)).
Variable payload_truthy : Payload -> bool.

(** ** [ContextWorkflowOutboundInterceptor] *)

Definition _get_context_headers (st : store) : dict Payload :=
  match to_list st with
  | [] => []
  | context_dict =>
      match to_payloads context_dict with
      | Ok p => [(CONTEXT_HEADER_KEY, p)]
      | Raise _ => []
      end
  end.

Definition _merge_headers (st : store)
           (existing_headers : option (dict Payload)) : dict Payload :=
  let context_headers := _get_context_headers st in
  match existing_headers with
  | Some (kv :: existing) => dict_update (kv :: existing) context_headers
  | _ => context_headers
  end.

(** The input of an outbound call: its headers and everything else. *)
Record StartInput (Rest : Type) : Type := {
  headers : option (dict Payload);
  rest : Rest
}.

(** [dataclasses.replace(input, headers=h)] *)
Definition replace {Rest} (input : StartInput Rest) (h : dict Payload)
  : StartInput Rest :=
  {| headers := Some h; rest := rest input |}.

Section Outbound.
Variables Rest Handle : Type.
(** The next interceptor in the chain, [super()]. *)
Variable next : StartInput Rest -> Handle.

Definition start_activity (st : store) (input : StartInput Rest) : Handle :=
  let new_input := replace input (_merge_headers st (headers input)) in
  next new_input.

Definition start_local_activity (st : store) (input : StartInput Rest)
  : Handle :=
  let new_input := replace input (_merge_headers st (headers input)) in
  next new_input.

Definition start_child_workflow (st : store) (input : StartInput Rest)
  : Handle :=
  let new_input := replace input (_merge_headers st (headers input)) in
  next new_input.
End Outbound.

(** ** The inbound side

    What [execute_activity] and [execute_workflow] do to the store before
    they call the target; [restore] is the class's
    [_restore_context_from_dict]. *)
Definition restore_from_headers (restore : store -> dict pystr -> store)
           (st : store) (hs : option (dict Payload)) : store :=
  match hs with
  | Some (kv :: more) =>
      match dict_get (kv :: more) CONTEXT_HEADER_KEY with
      | Some header_payload =>
          if payload_truthy header_payload then
            match from_payloads header_payload with
            | Ok (Some (e :: context_dict)) => restore st (e :: context_dict)
            | _ => st
            end
          else st
      | None => st
      end
  | _ => st
  end.

Definition execute_activity_restore : store -> option (dict Payload) -> store :=
  restore_from_headers
    ContextActivityInboundInterceptor._restore_context_from_dict.

Definition execute_workflow_restore : store -> option (dict Payload) -> store :=
  restore_from_headers
    ContextWorkflowInboundInterceptor._restore_context_from_dict.
End Interceptors.

End ContextPropagator.

(* ================================================================== *)
(** * Concrete contexts and headers used below *)
(* ================================================================== *)

Module Examples.
Import LogHelper.

(** The context with topic [t1] and custom map [a -> 1, b -> 2]. *)
Definition ctx_t1 : store :=
  set_custom_info
    (set_custom_info (set_topic_info empty_store (Some (lit "t1")))
       (lit "a") (PyStr (lit "1")))
    (lit "b") (PyStr (lit "2")).

(** Its header, as CPython's [base64] gives it. *)
Definition header_t1 : pystr :=
  lit "b3Vycml0dWFsL3RvcGljL25hbWU6ICJ0MSIKb3Vycml0dWFsL2E6ICIxIgpvdXJyaXR1YWwvYjogIjIi".

Definition not_valid : pystr := lit "not-valid-base64!!!".

(** A topic and a custom entry keyed with the topic's own path. *)
Definition ctx_clash : store :=
  set_custom_info (set_topic_info empty_store (Some (lit "t")))
    (lit "topic/name") (PyStr (lit "x")).

(** The same custom entry with no topic set. *)
Definition ctx_clash_no_topic : store :=
  set_custom_info empty_store (lit "topic/name") (PyStr (lit "x")).

(** A store that holds one custom entry. *)
Definition ctx_a1 : store :=
  set_custom_info empty_store (lit "a") (PyStr (lit "1")).

(** ** Messages and handlers *)

Definition HEADER_NAME : pystr := lit "ourritual-context".

(** A message that carries the header of [ctx_t1], and one with no
    attributes. *)
Definition msg_t1 : PipelineUtils.message :=
  {| PipelineUtils.attributes := [(HEADER_NAME, header_t1)];
     PipelineUtils.message_id := lit "1" |}.

Definition msg_plain : PipelineUtils.message :=
  {| PipelineUtils.attributes := [];
     PipelineUtils.message_id := lit "2" |}.

(** A handler that reports the topic it sees, and one that raises. *)
Definition report_topic : PipelineUtils.handler (option pystr) :=
  fun _ st => (Ok (topic_info st), st).

Definition failing : PipelineUtils.handler (option pystr) :=
  fun _ st => (Raise (HandlerError (lit "boom")), st).

(** ** Outgoing headers

    Payloads are modelled by the maps they encode, the converter by the
    identity. *)
Definition old_payload : dict pystr := [(TOPIC_KEY, lit "old")].

Definition inherited : dict (dict pystr) :=
  [(ContextPropagator.CONTEXT_HEADER_KEY, old_payload);
   (lit "x-other", [])].

(** ** An inbound context dictionary that has the key [ourritual/test] *)
Definition inbound_dict : dict pystr :=
  [(TOPIC_KEY, lit "billing");
   (ContextPropagator.TEST_KEY, lit "1");
   (lit "ourritual/order_id", lit "42")].

(** A context with a topic only: its text has 26 bytes, so its header
    ends with one [=]. *)
Definition ctx_topic : store := set_topic_info empty_store (Some (lit "t1")).

Definition header_topic : pystr := lit "b3Vycml0dWFsL3RvcGljL25hbWU6ICJ0MSI=".

(** ** Custom keys with slashes *)

(** The keys [SessionInformation.add_to_context] writes for the session. *)
Definition ctx_session : store :=
  set_custom_info
    (set_custom_info empty_store (lit "ourritual/session/id") (PyInt 7))
    (lit "ourritual/session/expert/email") (PyStr (lit "e@x.org")).

(** A key that begins with a slash, and one that ends with its only
    slash. *)
Definition ctx_lead_slash : store :=
  set_custom_info empty_store (lit "/x") (PyStr (lit "v")).

Definition ctx_trail_slash : store :=
  set_custom_info empty_store (lit "a/") (PyStr (lit "v")).

End Examples.

(* ================================================================== *)
(** * The transport of a header: bytes and text *)
(* ================================================================== *)

Module Transport.
Local Open Scope N_scope.

(** Every element is a byte. *)
Definition is_bytes (bs : bytes) : Prop := Forall (fun b => b < 256) bs.

(** A code point that UTF-8 can carry: below U+110000 and no surrogate. *)
Definition scalar (c : N) : bool :=
  (c <? 0xD800) || (0xDFFF <? c) && (c <? 0x110000).

End Transport.

(* ================================================================== *)
(** * Contexts that survive the header *)
(* ================================================================== *)

Module Clean.
Import LogHelper.
Local Open Scope N_scope.

(** A key that the direct pattern gives back as it is: not empty, not the
    reserved [topic], and with no slash, colon or line feed. *)
Definition clean_key (k : pystr) : Prop :=
  k <> [] /\ k <> lit "topic"
  /\ Re.all_in (Re.not_char 47) k /\ Re.all_in (Re.not_char 58) k
  /\ one_line k.

(** A value that the patterns give back as it is: no double quote and no
    line feed. *)
Definition clean_value (v : pystr) : Prop :=
  Re.all_in (Re.not_char 34) v /\ one_line v.

(** The topic, and every custom entry that [to_list] emits, is clean. *)
Definition clean_store (st : store) : Prop :=
  (forall t, topic_info st = Some t -> clean_value t)
  /\ (forall ci k v, custom_info st = Some ci -> In (k, v) ci ->
        v <> PyNone -> clean_key k /\ clean_value (py_str v)).

(** The entries [to_list] emits for the custom map. *)
Definition emitted (ci : dict pyval) : dict pystr :=
  map (fun kv => (ROOT ++ fst kv, py_str (snd kv)))
      (filter (fun kv => negb (is_none (snd kv))) ci).

(** The topic entry of [to_list]. *)
Definition topic_entry (topic : option pystr) : dict pystr :=
  match topic with
  | Some t => [(TOPIC_KEY, t)]
  | None => []
  end.

(** The custom entries as a decode gives them: the [None] ones left out,
    the others as strings. *)
Definition stringified (ci : dict pyval) : dict pyval :=
  map (fun kv => (fst kv, PyStr (py_str (snd kv))))
      (filter (fun kv => negb (is_none (snd kv))) ci).

(** The store [tgt] after it has taken in the header of [st]: the topic of
    [st] when it has one, the stringified custom entries of [st] when there
    are any; what [st] does not provide is left as it was in [tgt]. *)
Definition decoded_from (st tgt : store) : store :=
  {| topic_info :=
       match topic_info st with
       | Some t => Some t
       | None => topic_info tgt
       end;
     custom_info :=
       match custom_info st with
       | Some ci =>
           match stringified ci with
           | [] => custom_info tgt
           | d => Some d
           end
       | None => custom_info tgt
       end |}.

(** How often a character occurs in a string. *)
Definition count (d : char) (l : pystr) : nat := count_occ N.eq_dec l d.

End Clean.

(* ================================================================== *)
(** * [log_helper.py]: [_get_extra] *)
(* ================================================================== *)

Module LogExtra.
Import LogHelper.

(** A value of the [extra] dictionary of a log record: the custom map that
    [_get_extra] puts under [custom], or anything else. *)
Inductive extra_val : Type :=
| ExtraCustom (custom : dict pyval)
| ExtraOther (v : pyval).

Definition _get_extra (st : store) (extra : option (dict extra_val))
  : dict extra_val :=
  let context_extra :=
    match custom_info st with
    | Some custom => dict_set [] (lit "custom") (ExtraCustom custom)
    | None => []
    end in
  match extra with
  | Some (e :: es) => dict_update context_extra (e :: es)
  | _ => context_extra
  end.

End LogExtra.

(* ================================================================== *)
(** * [context_propagator.py]: the header helpers and the client side *)
(* ================================================================== *)

Module ResultWrapper.
Import LogHelper.

Definition capture_context_header (st : store) : result pystr :=
  to_header st.

(** [restore_context_from_header] returns nothing; what it leaves is the
    store. *)
Definition restore_context_from_header (st : store) (header_value : pystr)
  : result store :=
  if truthy header_value then from_header st header_value else Ok st.

End ResultWrapper.

(** [ContextClientOutboundInterceptor]: the same two helpers as the
    workflow's outbound interceptor, and [start_workflow]. *)
Module ContextClientOutboundInterceptor.
Import LogHelper ContextPropagator.

Section Client.
Variable Payload : Type.
Variable to_payloads : dict pystr -> result Payload.

Definition _get_context_headers (st : store) : dict Payload :=
  match to_list st with
  | [] => []
  | context_dict =>
      match to_payloads context_dict with
      | Ok p => [(CONTEXT_HEADER_KEY, p)]
      | Raise _ => []
      end
  end.

Definition _merge_headers (st : store)
           (existing_headers : option (dict Payload)) : dict Payload :=
  let context_headers := _get_context_headers st in
  match existing_headers with
  | Some (kv :: existing) => dict_update (kv :: existing) context_headers
  | _ => context_headers
  end.

Variables Rest Handle : Type.
Variable next : StartInput Payload Rest -> Handle.

Definition start_workflow (st : store) (input : StartInput Payload Rest)
  : Handle :=
  let merged_headers := _merge_headers st (headers input) in
  let new_input := replace input merged_headers in
  next new_input.
End Client.

End ContextClientOutboundInterceptor.

(* ================================================================== *)
(** * [pubsub_utils.py]: the attributes of a published message *)
(* ================================================================== *)

Module PubSub.
Import LogHelper.

(** [GlobalConfig()] as far as [publish_message] reads it: whether
    [tracer] and [settings] are set.  Both are [None] in the class. *)
Record global_config : Type := {
  has_tracer : bool;
  has_settings : bool
}.

Section Publish.
(** The attribute name, imported from the [const] module. *)
Variable OURRITUAL_CONTEXT_HEADER : pystr.

(** OpenTelemetry's [inject], which writes the trace keys into the
    carrier it is given. *)
Variable inject : dict pystr -> dict pystr.

(** One run of the body of [publish_message]: the keyword arguments it
    hands to [publisher.publish], or what it raises before that.  The
    [with] statement has no guard: [GlobalConfig().tracer] is
    dereferenced first, then [GlobalConfig().settings] for the name of the
    span, and [None] has neither attribute.  The retry decorator runs the
    body again on an exception; the body gives the same outcome each
    time. *)
Definition publish_message (cfg : global_config) (st : store)
           (attributes : option (dict pystr)) : result (dict pystr) :=
  if negb (has_tracer cfg) then Raise AttributeError
  else if negb (has_settings cfg) then Raise AttributeError
  else
    let attributes0 :=
      match attributes with
      | None => []
      | Some a => a
      end in
    let attributes1 := inject attributes0 in
    header <- to_header st ;;
    Ok (dict_set attributes1 OURRITUAL_CONTEXT_HEADER header).
End Publish.

End PubSub.

(* ================================================================== *)
(** * [pipeline_utils.py]: [SessionInformation.add_to_context] *)
(* ================================================================== *)

Module Session.
Import LogHelper.
Local Open Scope N_scope.

(** The fields of the three models that [add_to_context] reads. *)
Record ExpertInformation : Type := {
  expert_id : option Z;
  expert_email : option pystr
}.

Record MemberInformation : Type := {
  member_id : option Z;
  member_email : option pystr
}.

Record SessionInformation : Type := {
  session_id : option pystr;
  expert : ExpertInformation;
  zoom_meeting_id : option pystr;
  member_information : list MemberInformation
}.

(** An [Optional[str]] and an [Optional[int]] as values. *)
Definition of_str (o : option pystr) : pyval :=
  match o with
  | Some s => PyStr s
  | None => PyNone
  end.

Definition of_int (o : option Z) : pyval :=
  match o with
  | Some z => PyInt z
  | None => PyNone
  end.

(** The f-string of the loop: [ourritual/members/], the position, a slash
    and the field. *)
Definition member_key (pos : nat) (field : pystr) : pystr :=
  lit "ourritual/members/" ++ py_str (PyInt (Z.of_nat pos)) ++ [47] ++ field.

(** The loop over [enumerate(self.member_information or [])], from
    position [pos] on. *)
Fixpoint add_members (pos : nat) (members : list MemberInformation)
         (st : store) : store :=
  match members with
  | [] => st
  | member :: members' =>
      let st1 :=
        set_custom_info st (member_key pos (lit "id"))
                        (of_int (member_id member)) in
      let st2 :=
        set_custom_info st1 (member_key pos (lit "email"))
                        (of_str (member_email member)) in
      add_members (S pos) members' st2
  end.

Definition add_to_context (self : SessionInformation) (st : store) : store :=
  let st1 :=
    set_custom_info st (lit "ourritual/session/id")
                    (of_str (session_id self)) in
  let st2 :=
    set_custom_info st1 (lit "ourritual/session/expert/id")
                    (of_int (expert_id (expert self))) in
  let st3 :=
    set_custom_info st2 (lit "ourritual/session/expert/email")
                    (of_str (expert_email (expert self))) in
  let st4 :=
    set_custom_info st3 (lit "ourritual/session/zoom_meeting_id")
                    (of_str (zoom_meeting_id self)) in
  add_members 0 (member_information self) st4.

(** No string field that [add_to_context] reads has a line feed. *)
Definition one_line_opt (o : option pystr) : Prop :=
  match o with
  | Some s => one_line s
  | None => True
  end.

Definition one_line_session (self : SessionInformation) : Prop :=
  one_line_opt (session_id self)
  /\ one_line_opt (expert_email (expert self))
  /\ one_line_opt (zoom_meeting_id self)
  /\ Forall (fun m => one_line_opt (member_email m)) (member_information self).

End Session.

(* ================================================================== *)
(** * What a header carries *)
(* ================================================================== *)

Module Carried.
Import LogHelper Clean.
Local Open Scope N_scope.

(** The key has a slash. *)
Definition has_slash (k : pystr) : bool := existsb (N.eqb 47) k.

(** A key [s/r] that the sectioned pattern takes and the loop of
    [from_header] then drops: the first segment is not empty, has no slash
    and is not [topic], the rest is not empty, and there is no line feed in
    the key. *)
Definition sectioned_away (k : pystr) : Prop :=
  exists s r, k = s ++ [47] ++ r
              /\ s <> [] /\ Re.all_in (Re.not_char 47) s /\ s <> lit "topic"
              /\ r <> [] /\ one_line s /\ one_line r.

(** Every entry that [to_list] emits is either clean or has a key that is
    sectioned away (its value may then hold double quotes), and the topic
    is clean. *)
Definition readable_store (st : store) : Prop :=
  (forall t, topic_info st = Some t -> clean_value t)
  /\ (forall ci k v, custom_info st = Some ci -> In (k, v) ci ->
        v <> PyNone ->
        (clean_key k /\ clean_value (py_str v))
        \/ (sectioned_away k /\ one_line (py_str v))).

(** The custom entries that come out of a decode: those with a value and
    with no slash in the key, as strings. *)
Definition carried (ci : dict pyval) : dict pyval :=
  map (fun kv => (fst kv, PyStr (py_str (snd kv))))
      (filter (fun kv => negb (is_none (snd kv)) && negb (has_slash (fst kv)))
              ci).

(** The store [tgt] after it has taken in the header of [st]. *)
Definition received (st tgt : store) : store :=
  {| topic_info :=
       match topic_info st with
       | Some t => Some t
       | None => topic_info tgt
       end;
     custom_info :=
       match custom_info st with
       | Some ci =>
           match carried ci with
           | [] => custom_info tgt
           | d => Some d
           end
       | None => custom_info tgt
       end |}.

(** A character of a header that the decoder passes over: an ASCII
    character that is neither [=] nor, once [-] and [_] are translated, in
    the standard alphabet. *)
Definition ignored (c : N) : bool :=
  (c <? 128) && negb (c =? Base64.BASE64_PAD)
  && match Base64.table_a2b (Base64.urlsafe_translate c) with
     | Some _ => false
     | None => true
     end.

(** A header without the characters the decoder passes over. *)
Definition significant (header : pystr) : pystr :=
  filter (fun c => negb (ignored c)) header.

(** The test at the head of [from_header]: the header is empty or white
    space only. *)
Definition blank (header : pystr) : bool :=
  negb (truthy header) || negb (truthy (strip header)).

(** The fields of [d] laid over those of [st]: a field that [d] has
    wins. *)
Definition overlay (d st : store) : store :=
  {| topic_info :=
       match topic_info d with
       | Some t => Some t
       | None => topic_info st
       end;
     custom_info :=
       match custom_info d with
       | Some c => Some c
       | None => custom_info st
       end |}.

(** The key [s/r] is read as the path of the topic: the section is
    [topic] and the lazy group of the sectioned pattern stops at [name],
    which it does when the rest is [name], or is [name:] followed by
    white space, if any, and a double quote. *)
Definition topic_path (s r : pystr) : Prop :=
  s = lit "topic"
  /\ (r = lit "name"
      \/ exists ws x, Re.all_in Re.space ws
                      /\ r = lit "name:" ++ ws ++ [34] ++ x).

(** An entry as the loop of [from_header] records it: a key that is not
    empty, is not [topic] and has no colon or line feed, bound to a string
    with no double quote and no line feed. *)
Definition decoded_entry (kv : pystr * pyval) : Prop :=
  fst kv <> [] /\ fst kv <> lit "topic"
  /\ Re.all_in (Re.not_char 58) (fst kv) /\ one_line (fst kv)
  /\ exists s, snd kv = PyStr s /\ clean_value s.

(** What the loop of [from_header] has collected is well formed. *)
Definition collected (acc : parsed) : Prop :=
  (forall t, fst acc = Some t -> clean_value t)
  /\ NoDup (keys (snd acc))
  /\ Forall decoded_entry (snd acc).

(** [st'] is well formed and readable, and its header carries what the
    header of [st] carries. *)
Definition keeps (st st' : store) : Prop :=
  wf_store st' /\ readable_store st'
  /\ forall tgt, received st' tgt = received st tgt.

End Carried.

(* ================================================================== *)
(** * A session, and a converter that is the identity *)
(* ================================================================== *)

Module DeliveryExamples.
Import LogHelper Session.

Definition session_7 : SessionInformation :=
  {| session_id := Some (lit "7");
     expert := {| expert_id := Some 3%Z;
                  expert_email := Some (lit "e@x.org") |};
     zoom_meeting_id := None;
     member_information :=
       [{| member_id := Some 11%Z; member_email := Some (lit "m@x.org") |}] |}.

(** Payloads as the maps they encode. *)
Definition id_to_payloads (d : dict pystr) : result (dict pystr) := Ok d.

Definition id_from_payloads (p : dict pystr)
  : result (option (dict pystr)) := Ok (Some p).

(** A converter that gives the entries back in another order. *)
Definition rev_from_payloads (p : dict pystr)
  : result (option (dict pystr)) := Ok (Some (rev p)).

Definition dict_truthy (p : dict pystr) : bool :=
  match p with
  | [] => false
  | _ => true
  end.

(** An [inject] that adds nothing. *)
Definition no_inject (carrier : dict pystr) : dict pystr := carrier.

(** A [GlobalConfig] with tracer and settings set. *)
Definition configured : PubSub.global_config :=
  {| PubSub.has_tracer := true; PubSub.has_settings := true |}.

End DeliveryExamples.

(* ================================================================== *)
(** * Units: the context variables behind the singleton *)
(* ================================================================== *)

Module Units.
Import LogHelper.

(** The dict objects of the interpreter are named by their place in the
    heap. *)
Definition addr : Type := nat.

(** The [Context] of one unit (a thread, an [asyncio] task) as far as the
    class reads it: the values of [_topic_info_var] and of
    [_custom_info_var], the second a reference to a dict object.  Both
    variables default to [None]. *)
Record bindings : Type := {
  topic_var : option pystr;
  custom_var : option addr
}.

Definition unbound : bindings := {| topic_var := None; custom_var := None |}.

(** The interpreter: the dict objects, and the context of every unit. *)
Record world : Type := {
  heap : list (dict pyval);
  contexts : list bindings
}.

Definition context_of (w : world) (u : nat) : bindings :=
  nth u (contexts w) unbound.

Definition deref (w : world) (a : addr) : dict pyval := nth a (heap w) [].

(** [l[n] = x] *)
Fixpoint assign {A : Type} (n : nat) (x : A) (l : list A) : list A :=
  match l, n with
  | [], _ => []
  | _ :: l', O => x :: l'
  | y :: l', S n' => y :: assign n' x l'
  end.

(** [var.set(value)] in the context of unit [u]. *)
Definition bind_topic (w : world) (u : nat) (topic : option pystr) : world :=
  {| heap := heap w;
     contexts :=
       assign u {| topic_var := topic;
                   custom_var := custom_var (context_of w u) |}
              (contexts w) |}.

Definition bind_custom (w : world) (u : nat) (a : addr) : world :=
  {| heap := heap w;
     contexts :=
       assign u {| topic_var := topic_var (context_of w u);
                   custom_var := Some a |}
              (contexts w) |}.

(** A new dict object. *)
Definition alloc (w : world) (d : dict pyval) : world * addr :=
  ({| heap := heap w ++ [d]; contexts := contexts w |}, List.length (heap w)).

(** [obj[key] = value] on the object at [a]. *)
Definition store_item (w : world) (a : addr) (key : pystr) (value : pyval)
  : world :=
  {| heap := assign a (dict_set (deref w a) key value) (heap w);
     contexts := contexts w |}.

(** What the properties [topic_info] and [custom_info] give in unit
    [u]. *)
Definition view (w : world) (u : nat) : store :=
  {| topic_info := topic_var (context_of w u);
     custom_info :=
       match custom_var (context_of w u) with
       | Some a => Some (deref w a)
       | None => None
       end |}.

Definition set_topic_info (w : world) (u : nat) (topic : option pystr)
  : world :=
  bind_topic w u topic.

(** [set_custom_info]: the dict the variable refers to is changed in
    place and bound again; a new dict is made only when the variable holds
    [None]. *)
Definition set_custom_info (w : world) (u : nat) (key : pystr)
           (value : pyval) : world :=
  match custom_var (context_of w u) with
  | None =>
      let (w1, current) := alloc w [] in
      bind_custom (store_item w1 current key value) u current
  | Some current =>
      bind_custom (store_item w current key value) u current
  end.

Definition to_list (w : world) (u : nat) : dict pystr :=
  LogHelper.to_list (view w u).

Definition to_header (w : world) (u : nat) : result pystr :=
  LogHelper.to_header (view w u).

(** The part of [from_header] that follows a successful decode:
    [custom_data] is a dict of its own. *)
Definition install (w : world) (u : nat) (decoded_str : pystr) : world :=
  let p := fold_left parse_line (split_lines decoded_str) (None, []) in
  let w1 :=
    match fst p with
    | Some topic_data => set_topic_info w u (Some topic_data)
    | None => w
    end in
  match snd p with
  | [] => w1
  | custom_data =>
      let (w2, a) := alloc w1 custom_data in
      bind_custom w2 u a
  end.

Definition from_header (w : world) (u : nat) (header : pystr)
  : result world :=
  if negb (truthy header) || negb (truthy (strip header)) then Ok w
  else
    match decode_header header with
    | Raise _ => Ok w
    | Ok decoded_str => Ok (install w u decoded_str)
    end.

(** A unit that starts with a copy of the context of [parent]: the
    bindings are copied, the objects are not.  This is how [asyncio]
    starts a task.  The new unit is the last one. *)
Definition spawn (w : world) (parent : nat) : world :=
  {| heap := heap w; contexts := contexts w ++ [context_of w parent] |}.

(** One operation of the class in unit [u], and a schedule: operations
    of several units one after the other, in any interleaving. *)
Definition run_op (w : world) (u : nat) (o : op) : result world :=
  match o with
  | SetTopicInfo topic => Ok (set_topic_info w u topic)
  | SetCustomInfo key value => Ok (set_custom_info w u key value)
  | FromHeader header => from_header w u header
  end.

Fixpoint run (w : world) (schedule : list (nat * op)) : result world :=
  match schedule with
  | [] => Ok w
  | (u, o) :: schedule' => w' <- run_op w u o ;; run w' schedule'
  end.

(** The operations of unit [u] in a schedule. *)
Definition ops_of (u : nat) (schedule : list (nat * op)) : list op :=
  map snd (filter (fun step => Nat.eqb (fst step) u) schedule).

(** Every reference of a context is to an object of the heap. *)
Definition wf_world (w : world) : Prop :=
  Forall (fun b => match custom_var b with
                   | Some a => (a < List.length (heap w))%nat
                   | None => True
                   end) (contexts w).

(** Two units do not refer to the same dict object. *)
Definition separate (w : world) (u u' : nat) : Prop :=
  forall a, custom_var (context_of w u) = Some a ->
            custom_var (context_of w u') <> Some a.

(** ** Two tasks started from a unit that has a custom map *)

Definition boot : world := {| heap := []; contexts := [unbound] |}.

Definition prepared : world :=
  set_custom_info boot 0 (lit "service") (PyStr (lit "x")).

(** Units 1 and 2. *)
Definition two_tasks : world := spawn (spawn prepared 0) 0.

Definition after_task1 : world :=
  set_custom_info two_tasks 1 (lit "a") (PyStr (lit "1")).

(** Then task 2 sets an entry of its own. *)
Definition after_both : world :=
  set_custom_info after_task1 2 (lit "b") (PyStr (lit "2")).

(** The same two tasks started from a unit with no custom map. *)
Definition two_fresh_tasks : world := spawn (spawn boot 0) 0.

(** The two tasks of [two_fresh_tasks] at work, interleaved. *)
Definition fresh_schedule : list (nat * op) :=
  [(1%nat, SetCustomInfo (lit "a") (PyStr (lit "1")));
   (2%nat, SetCustomInfo (lit "b") (PyStr (lit "2")));
   (1%nat, SetTopicInfo (Some (lit "t1")))].

Definition after_fresh : world :=
  set_topic_info
    (set_custom_info
       (set_custom_info two_fresh_tasks 1 (lit "a") (PyStr (lit "1")))
       2 (lit "b") (PyStr (lit "2")))
    1 (Some (lit "t1")).

End Units.

(* ================================================================== *)
(** * Facts about strings and dictionaries *)
(* ================================================================== *)

Module PyFacts.

Lemma str_eqb_eq (a b : pystr) : str_eqb a b = true <-> a = b.
Proof.
  revert b; induction a as [|x a IH]; intros [|y b]; simpl;
    try (split; congruence).
  rewrite andb_true_iff, N.eqb_eq, IH. split.
  - intros [-> ->]; reflexivity.
  - intros H; inversion H; auto.
Qed.

Lemma str_eqb_refl (a : pystr) : str_eqb a a = true.
Proof. apply str_eqb_eq; reflexivity. Qed.

Lemma str_eqb_neq (a b : pystr) : str_eqb a b = false <-> a <> b.
Proof.
  rewrite <- str_eqb_eq. destruct (str_eqb a b); split; congruence.
Qed.

Lemma str_eqb_sym (a b : pystr) : str_eqb a b = str_eqb b a.
Proof.
  destruct (str_eqb a b) eqn:E.
  - apply str_eqb_eq in E; subst; symmetry; apply str_eqb_refl.
  - symmetry; apply str_eqb_neq; apply str_eqb_neq in E; congruence.
Qed.

Section Dict.
Variable V : Type.
Implicit Types (d : dict V) (k : pystr) (v : V).

Lemma dict_get_set_same d k v : dict_get (dict_set d k v) k = Some v.
Proof.
  induction d as [|[k' v'] d IH]; simpl.
  - now rewrite str_eqb_refl.
  - destruct (str_eqb k' k) eqn:E; simpl; rewrite E; auto.
Qed.

Lemma dict_get_set_other d k k' v :
  k <> k' -> dict_get (dict_set d k v) k' = dict_get d k'.
Proof.
  intros Hne. induction d as [|[k0 v0] d IH]; simpl.
  - apply str_eqb_neq in Hne. now rewrite Hne.
  - destruct (str_eqb k0 k) eqn:E; simpl.
    + apply str_eqb_eq in E; subst k0.
      apply str_eqb_neq in Hne. now rewrite Hne.
    + destruct (str_eqb k0 k'); auto.
Qed.

Lemma dict_set_not_nil d k v : dict_set d k v <> [].
Proof. destruct d as [|[k' v'] d]; simpl; [|destruct (str_eqb k' k)]; discriminate. Qed.

Lemma dict_set_keys_In d k v k' :
  In k' (keys (dict_set d k v)) -> k' = k \/ In k' (keys d).
Proof.
  induction d as [|[k0 v0] d IH]; simpl.
  - intros [H|[]]; auto.
  - destruct (str_eqb k0 k); simpl; intros [H|H]; auto.
    destruct (IH H); auto.
Qed.

Lemma dict_set_NoDup d k v : NoDup (keys d) -> NoDup (keys (dict_set d k v)).
Proof.
  induction d as [|[k0 v0] d IH]; simpl; intros Hnd.
  - constructor; [intros []|constructor].
  - inversion Hnd as [|? ? Hnotin Hnd']; subst.
    destruct (str_eqb k0 k) eqn:E; simpl.
    + constructor; assumption.
    + constructor; [|now apply IH].
      intros Hin. apply dict_set_keys_In in Hin. destruct Hin as [->|Hin].
      * now rewrite str_eqb_refl in E.
      * contradiction.
Qed.

Lemma dict_get_In d k v : dict_get d k = Some v -> In (k, v) d.
Proof.
  induction d as [|[k' v'] d IH]; simpl; [discriminate|].
  destruct (str_eqb k' k) eqn:E.
  - apply str_eqb_eq in E; subst. intros [= ->]; auto.
  - auto.
Qed.

Lemma dict_get_None d k : dict_get d k = None <-> ~ In k (keys d).
Proof.
  induction d as [|[k' v'] d IH]; simpl.
  - tauto.
  - destruct (str_eqb k' k) eqn:E.
    + apply str_eqb_eq in E; subst. split; [discriminate | tauto].
    + apply str_eqb_neq in E. rewrite IH. tauto.
Qed.

Lemma In_dict_get d k v :
  NoDup (keys d) -> In (k, v) d -> dict_get d k = Some v.
Proof.
  induction d as [|[k' v'] d IH]; simpl; [tauto|].
  intros Hnd [H|H].
  - inversion H; subst. now rewrite str_eqb_refl.
  - inversion Hnd as [|? ? Hnotin Hnd']; subst.
    destruct (str_eqb k' k) eqn:E; auto.
    apply str_eqb_eq in E; subst k'.
    exfalso; apply Hnotin. change k with (fst (k, v)). now apply in_map.
Qed.
End Dict.

End PyFacts.

(* ================================================================== *)
(** * The header codec *)
(* ================================================================== *)

Module CodecFacts.
Import LogHelper Examples PyFacts.

(** C1 (round trip).  For the context with topic [t1] and custom map
    [a -> 1, b -> 2]: [to_header] gives the header CPython gives,
    [from_header] on a fresh context gives the context back, and encoding
    that again gives the same string. *)
Theorem round_trip_t1 :
  to_header ctx_t1 = Ok header_t1
  /\ from_header empty_store header_t1 = Ok ctx_t1
  /\ (h <- to_header ctx_t1 ;;
      st' <- from_header empty_store h ;;
      to_header st') = to_header ctx_t1.
Proof. repeat split; vm_compute; reflexivity. Qed.

Lemma from_header_blank (st : store) (header : pystr) :
  strip header = [] -> from_header st header = Ok st.
Proof.
  intros H. unfold from_header. rewrite H. simpl.
  now rewrite orb_true_r.
Qed.

Lemma from_header_decode_failure (st : store) (header : pystr) (e : exn) :
  decode_header header = Raise e -> from_header st header = Ok st.
Proof.
  intros H. unfold from_header. rewrite H.
  destruct (negb (truthy header) || negb (truthy (strip header))); reflexivity.
Qed.

Lemma from_header_returns (st : store) (header : pystr) :
  exists st', from_header st header = Ok st'.
Proof.
  unfold from_header.
  destruct (negb (truthy header) || negb (truthy (strip header))); eauto.
  destruct (decode_header header); eauto.
Qed.

(** C4 (decode is total and tolerant).  [from_header] returns on every
    input, whatever the store; on the empty string and on a blank one it
    returns the store as it was, and so does it when the base64 or the
    UTF-8 decoding raises: nothing of the input is recorded, and a fresh
    context stays empty.  The string [not-valid-base64!!!] is such an
    input: its sixteen alphabet characters decode to twelve bytes that are
    not UTF-8. *)
Theorem from_header_total :
  (forall st header, exists st', from_header st header = Ok st')
  /\ (forall st, from_header st [] = Ok st)
  /\ (forall st header, strip header = [] -> from_header st header = Ok st)
  /\ (forall st header e,
         decode_header header = Raise e -> from_header st header = Ok st)
  /\ decode_header not_valid = Raise UnicodeDecodeError
  /\ from_header empty_store not_valid = Ok empty_store.
Proof.
  split; [exact from_header_returns|].
  split; [reflexivity|].
  split; [exact from_header_blank|].
  split; [exact from_header_decode_failure|].
  split; vm_compute; reflexivity.
Qed.

(** A blank header and an undecodable one, on a store that holds data. *)
Lemma from_header_total_witness :
  from_header ctx_t1 (lit "   ") = Ok ctx_t1
  /\ from_header ctx_t1 not_valid = Ok ctx_t1.
Proof.
  split.
  - apply (proj1 (proj2 (proj2 from_header_total))). vm_compute. reflexivity.
  - apply (proj1 (proj2 (proj2 (proj2 from_header_total))))
      with (e := UnicodeDecodeError).
    vm_compute. reflexivity.
Defined.

(** ** Padding *)

Lemma list_ind3 (A : Type) (P : list A -> Prop) :
  P [] -> (forall a, P [a]) -> (forall a b, P [a; b]) ->
  (forall a b c l, P l -> P (a :: b :: c :: l)) ->
  forall l, P l.
Proof.
  intros H0 H1 H2 H3.
  fix IH 1.
  intros [|a [|b [|c l]]];
    [exact H0 | apply H1 | apply H2 | apply H3; apply IH].
Qed.

Lemma table_b2a_b64char (i : N) : Base64.b64char (Base64.table_b2a i) = true.
Proof.
  unfold Base64.b64char, Base64.table_b2a.
  destruct (N.ltb_spec i 26); [|destruct (N.ltb_spec i 52);
    [|destruct (N.ltb_spec i 62); [|destruct (N.eqb_spec i 62)]]].
  5: reflexivity.
  4: reflexivity.
  all: rewrite !orb_true_iff, !andb_true_iff, !N.leb_le; lia.
Qed.

Lemma b64char_facts (c : N) :
  Base64.b64char c = true ->
  (c =? Base64.BASE64_PAD)%N = false
  /\ (c <? 128)%N = true
  /\ isspace c = false
  /\ (Base64.urlsafe_translate c =? Base64.BASE64_PAD)%N = false
  /\ exists v, Base64.table_a2b (Base64.urlsafe_translate c) = Some v.
Proof.
  unfold Base64.b64char, Base64.BASE64_PAD.
  rewrite !orb_true_iff, !andb_true_iff, !N.leb_le, !N.eqb_eq.
  intros H.
  assert (Hc : (65 <= c <= 90 \/ 97 <= c <= 122 \/ 48 <= c <= 57
                \/ c = 45 \/ c = 95)%N) by tauto.
  clear H. repeat split.
  - apply N.eqb_neq; lia.
  - apply N.ltb_lt; lia.
  - unfold isspace.
    rewrite !orb_false_iff, !andb_false_iff, !N.leb_gt, !N.eqb_neq. lia.
  - unfold Base64.urlsafe_translate.
    destruct (N.eqb_spec c 45); [reflexivity|].
    destruct (N.eqb_spec c 95); [reflexivity|].
    apply N.eqb_neq; lia.
  - unfold Base64.urlsafe_translate, Base64.table_a2b.
    destruct (N.eqb_spec c 45); [subst; vm_compute; eauto|].
    destruct (N.eqb_spec c 95); [subst; vm_compute; eauto|].
    destruct (N.leb_spec 65 c); destruct (N.leb_spec c 90); cbn [andb]; eauto.
    all: destruct (N.leb_spec 97 c); destruct (N.leb_spec c 122); cbn [andb]; eauto.
    all: destruct (N.leb_spec 48 c); destruct (N.leb_spec c 57); cbn [andb]; eauto.
    all: lia.
Qed.

(** The encoding is a run of alphabet characters followed by the padding,
    a multiple of four characters in all. *)
Lemma urlsafe_b64encode_shape (bs : bytes) :
  exists body k,
    Base64.urlsafe_b64encode bs
    = body ++ repeat Base64.BASE64_PAD (Base64.pad_length (List.length bs))
    /\ Base64.alphabet body
    /\ (List.length body + Base64.pad_length (List.length bs) = 4 * k)%nat.
Proof.
  induction bs as [|b1|b1 b2|b1 b2 b3 bs IH] using list_ind3.
  - exists [], 0%nat. repeat split. constructor.
  - eexists [_; _], 1%nat. repeat split.
    repeat constructor; apply table_b2a_b64char.
  - eexists [_; _; _], 1%nat. repeat split.
    repeat constructor; apply table_b2a_b64char.
  - destruct IH as (body & k & Henc & Hal & Hlen).
    eexists (_ :: _ :: _ :: _ :: body), (S k).
    cbn [Base64.urlsafe_b64encode List.length Base64.pad_length].
    rewrite Henc. repeat split.
    + unfold Base64.alphabet in *.
      repeat constructor; try apply table_b2a_b64char. exact Hal.
    + cbn [List.length]. lia.
Qed.

Lemma drop_pad_repeat (n : nat) (s : pystr) :
  drop_pad (repeat Base64.BASE64_PAD n ++ s) = drop_pad s.
Proof. induction n; simpl; auto. Qed.

Lemma drop_pad_rev_alphabet (body : pystr) :
  Base64.alphabet body -> drop_pad (rev body) = rev body.
Proof.
  unfold Base64.alphabet.
  intros H. destruct body as [|c body] using rev_ind; [reflexivity|].
  rewrite rev_app_distr. cbn [rev app drop_pad].
  apply Forall_app in H. destruct H as [_ H]. inversion H; subst.
  apply b64char_facts in H2. destruct H2 as (Hp & _). rewrite Hp. reflexivity.
Qed.

Lemma remove_padding_shape (body : pystr) (n : nat) :
  Base64.alphabet body ->
  remove_padding (body ++ repeat Base64.BASE64_PAD n) = body.
Proof.
  intros H. unfold remove_padding.
  rewrite rev_app_distr, rev_repeat, drop_pad_repeat,
    drop_pad_rev_alphabet by exact H.
  apply rev_involutive.
Qed.

(** Data that stops inside a quad is refused. *)
Lemma a2b_base64_incomplete (data : bytes) :
  Base64.alphabet data ->
  forall (quad_pos leftchar pads : N) (out : bytes) (k r : nat),
    (quad_pos < 4)%N ->
    (N.to_nat quad_pos + List.length data = 4 * k + r)%nat ->
    (0 < r < 4)%nat ->
    Base64.a2b_base64 (map Base64.urlsafe_translate data)
      quad_pos leftchar pads out = Raise BinasciiError.
Proof.
  unfold Base64.alphabet.
  induction 1 as [|c data Hc Hal IH]; intros qp lc pads out k r Hqp Hlen Hr.
  - cbn [map Base64.a2b_base64]. cbn [List.length] in Hlen.
    destruct (N.eqb_spec qp 0); [lia | reflexivity].
  - cbn [map Base64.a2b_base64]. cbn [List.length] in Hlen.
    apply b64char_facts in Hc. destruct Hc as (_ & _ & _ & Ht & v & Hv). rewrite Ht, Hv.
    assert (Hcases : qp = 0%N \/ qp = 1%N \/ qp = 2%N \/ qp = 3%N) by lia.
    destruct Hcases as [-> | [-> | [-> | ->]]]; cbn [N.eqb Pos.eqb].
    + apply (IH _ _ _ _ k r); lia.
    + apply (IH _ _ _ _ k r); lia.
    + apply (IH _ _ _ _ k r); lia.
    + apply (IH _ _ _ _ (k - 1)%nat r); lia.
Qed.

Lemma encode_ascii_alphabet (s : pystr) : Base64.alphabet s -> encode_ascii s = Ok s.
Proof.
  unfold Base64.alphabet.
  induction 1 as [|c s Hc Hal IH]; [reflexivity|].
  cbn [encode_ascii]. apply b64char_facts in Hc.
  destruct Hc as (_ & Hlt & _). rewrite Hlt, IH. reflexivity.
Qed.

Lemma strip_alphabet_not_nil (c : N) (s : pystr) :
  Base64.alphabet (c :: s) -> strip (c :: s) <> [].
Proof.
  unfold Base64.alphabet. intros H. unfold strip, rstrip.
  assert (Hl : lstrip (c :: s) = c :: s).
  { inversion H; subst. apply b64char_facts in H2.
    destruct H2 as (_ & _ & Hs & _). cbn [lstrip]. now rewrite Hs. }
  rewrite Hl.
  destruct (c :: s) as [|x l] eqn:E using rev_ind; [discriminate|].
  rewrite rev_app_distr. cbn [rev app lstrip].
  apply Forall_app in H. destruct H as [_ H]. inversion H; subst.
  apply b64char_facts in H2. destruct H2 as (_ & _ & Hs & _). rewrite Hs.
  intros Hnil. apply (f_equal (@List.length N)) in Hnil.
  rewrite length_rev in Hnil. cbn [List.length] in Hnil. discriminate.
Qed.

Lemma pad_length_le (n : nat) : (Base64.pad_length n <= 2)%nat.
Proof.
  assert (H : (Base64.pad_length n <= 2
               /\ Base64.pad_length (S n) <= 2
               /\ Base64.pad_length (S (S n)) <= 2)%nat).
  { induction n as [|n (H0 & H1 & H2)]; cbn [Base64.pad_length]; auto. }
  apply H.
Qed.

(** A header cut short of its padding does not decode. *)
Lemma from_header_unpadded (tgt : store) (body : pystr) (n k : nat) :
  Base64.alphabet body ->
  (0 < n)%nat -> (n <= 2)%nat -> (List.length body + n = 4 * k)%nat ->
  decode_header body = Raise BinasciiError
  /\ from_header tgt body = Ok tgt.
Proof.
  intros Hal Hn0 Hn2 Hlen.
  assert (Hd : decode_header body = Raise BinasciiError).
  { unfold decode_header. rewrite encode_ascii_alphabet by exact Hal.
    cbn [bind]. unfold Base64.urlsafe_b64decode.
    assert (Hraise : Base64.a2b_base64 (map Base64.urlsafe_translate body)
                       0 0 0 [] = Raise BinasciiError).
    { apply a2b_base64_incomplete with (k := (k - 1)%nat) (r := (4 - n)%nat);
        [exact Hal | lia | change (N.to_nat 0) with 0%nat; lia | lia]. }
    rewrite Hraise. reflexivity. }
  split; [exact Hd|]. now apply from_header_decode_failure with (e := BinasciiError).
Qed.

(** C5, as the code has it.  Decoding needs the padding.  Let [header] be
    what [to_header] gives for a context.  When the header ends with [=]
    characters and they are removed, [from_header] fails to decode what is
    left (the data stops inside a quad) and returns the target context
    unchanged, whatever it is; the header has such characters exactly when
    the length of the UTF-8 text is not a multiple of three.  So the header
    without its padding leaves the same store as the header with it in two
    cases only: there was no padding to remove, or the padded header itself
    leaves the target as it was. *)
Theorem padding_is_required (st tgt : store) (header : pystr) :
  to_header st = Ok header ->
  (remove_padding header <> header ->
   decode_header (remove_padding header) = Raise BinasciiError
   /\ from_header tgt (remove_padding header) = Ok tgt)
  /\ (from_header tgt (remove_padding header) = from_header tgt header
      <-> remove_padding header = header \/ from_header tgt header = Ok tgt)
  /\ (exists text, Utf8.encode (json_str (to_list st)) = Ok text
        /\ (remove_padding header <> header
            <-> Base64.pad_length (List.length text) <> 0%nat)).
Proof.
  intros Hh.
  assert (Hshape : exists text body k,
             Utf8.encode (json_str (to_list st)) = Ok text
             /\ header = body ++ repeat Base64.BASE64_PAD
                                   (Base64.pad_length (List.length text))
             /\ Base64.alphabet body
             /\ (List.length body + Base64.pad_length (List.length text)
                 = 4 * k)%nat).
  { unfold to_header in Hh. destruct (to_list st) as [|e d] eqn:E.
    - injection Hh as <-. exists [], [], 0%nat. repeat split. constructor.
    - destruct (Utf8.encode (json_str (e :: d))) as [text|ex]; [|discriminate].
      injection Hh as <-.
      destruct (urlsafe_b64encode_shape text) as (body & k & H1 & H2 & H3).
      exists text, body, k. auto. }
  destruct Hshape as (text & body & k & Htext & -> & Hal & Hlen).
  rewrite remove_padding_shape by exact Hal.
  pose proof (pad_length_le (List.length text)) as Hle.
  assert (Hiff : body <> body ++ repeat Base64.BASE64_PAD
                                  (Base64.pad_length (List.length text))
                 <-> Base64.pad_length (List.length text) <> 0%nat).
  { split.
    - intros Hne Hz. apply Hne. rewrite Hz. cbn [repeat]. now rewrite app_nil_r.
    - intros Hnz Heq. apply (f_equal (@List.length N)) in Heq.
      rewrite length_app, repeat_length in Heq. lia. }
  split; [|split].
  - intros Hne. apply Hiff in Hne.
    apply from_header_unpadded
      with (n := Base64.pad_length (List.length text)) (k := k); auto; lia.
  - destruct (list_eq_dec N.eq_dec body
                (body ++ repeat Base64.BASE64_PAD
                                (Base64.pad_length (List.length text))))
      as [Heq|Hne].
    + split; [intros _; left; exact Heq|].
      intros _. now rewrite <- Heq.
    + assert (Hu : from_header tgt body = Ok tgt).
      { apply Hiff in Hne.
        apply (@from_header_unpadded tgt body
                 (Base64.pad_length (List.length text)) k); auto; lia. }
      split.
      * intros H. right. rewrite <- H. exact Hu.
      * intros [Heq|Hok]; [contradiction|]. now rewrite Hok.
  - exists text. split; [exact Htext | exact Hiff].
Qed.

(** The header of the topic-only context, with its [=] removed. *)
Lemma padding_is_required_witness :
  from_header ctx_t1 (remove_padding header_topic) = Ok ctx_t1.
Proof.
  assert (H : to_header ctx_topic = Ok header_topic) by (vm_compute; reflexivity).
  apply (proj1 (padding_is_required ctx_topic ctx_t1 H)).
  vm_compute. discriminate.
Defined.

(** C5 as stated fails on the context that has the topic [t1] only: its
    header ends with one [=]; with the padding it decodes to the context,
    without it [from_header] gives the empty context. *)
Lemma unpadded_header_is_rejected :
  to_list ctx_topic <> []
  /\ to_header ctx_topic = Ok header_topic
  /\ remove_padding header_topic = lit "b3Vycml0dWFsL3RvcGljL25hbWU6ICJ0MSI"
  /\ from_header empty_store header_topic = Ok ctx_topic
  /\ from_header empty_store (remove_padding header_topic) = Ok empty_store
  /\ ctx_topic <> empty_store.
Proof.
  repeat split; try (vm_compute; reflexivity); vm_compute; discriminate.
Qed.

End CodecFacts.

(* ================================================================== *)
(** * The context store *)
(* ================================================================== *)

Module StoreFacts.
Import LogHelper Examples PyFacts.

Lemma is_none_false (v : pyval) : v <> PyNone <-> is_none v = false.
Proof. destruct v; simpl; split; congruence. Qed.

Lemma flatten_get_other (ci : dict pyval) (res : dict pystr) (key : pystr) :
  (forall k v, In (k, v) ci -> is_none v = false -> ROOT ++ k <> key) ->
  dict_get (fold_left flatten ci res) key = dict_get res key.
Proof.
  revert res; induction ci as [|[k0 v0] ci IH]; intros res H; auto.
  cbn [fold_left].
  rewrite IH by (intros k v Hin; apply H; right; exact Hin).
  unfold flatten; cbn [fst snd].
  destruct (is_none v0) eqn:E; auto.
  apply dict_get_set_other. apply (H k0 v0); [left; reflexivity | exact E].
Qed.

Lemma flatten_get_in (ci : dict pyval) (res : dict pystr) k v :
  NoDup (keys ci) -> In (k, v) ci -> is_none v = false ->
  dict_get (fold_left flatten ci res) (ROOT ++ k) = Some (py_str v).
Proof.
  revert res; induction ci as [|[k0 v0] ci IH]; intros res Hnd Hin Hv;
    [destruct Hin|].
  inversion Hnd as [|? ? Hnotin Hnd']; subst.
  cbn [fold_left].
  destruct Hin as [Heq|Hin].
  - inversion Heq; subst k0 v0.
    unfold flatten at 2; cbn [fst snd]. rewrite Hv.
    rewrite flatten_get_other.
    + apply dict_get_set_same.
    + intros k' v' Hin' _ Heq'. apply app_inv_head in Heq'. subst k'.
      apply Hnotin. change k with (fst (k, v')). now apply in_map.
  - now apply IH.
Qed.

Lemma flatten_get_inv (ci : dict pyval) (res : dict pystr) key s :
  dict_get (fold_left flatten ci res) key = Some s ->
  dict_get res key = Some s
  \/ exists k v, In (k, v) ci /\ is_none v = false
                 /\ key = ROOT ++ k /\ s = py_str v.
Proof.
  revert res; induction ci as [|[k0 v0] ci IH]; intros res H; auto.
  cbn [fold_left] in H.
  apply IH in H. destruct H as [H|(k & v & Hin & Hv & -> & ->)].
  - unfold flatten in H; cbn [fst snd] in H.
    destruct (is_none v0) eqn:E; auto.
    destruct (list_eq_dec N.eq_dec (ROOT ++ k0) key) as [<-|Hne].
    + rewrite dict_get_set_same in H. injection H as <-.
      right; exists k0, v0; repeat split; auto. left; reflexivity.
    + rewrite dict_get_set_other in H by exact Hne. auto.
  - right; exists k, v; repeat split; auto. right; exact Hin.
Qed.

Lemma TOPIC_KEY_path : TOPIC_KEY = ROOT ++ lit "topic/name".
Proof. reflexivity. Qed.

(** C6, as the code has it ([to_list] postcondition).  For a store whose
    custom map has no entry keyed [topic/name]: the flattened map binds
    [ourritual/topic/name] to the topic exactly when the topic is set; it
    binds [ourritual/k] to [str(v)] for every custom entry [(k, v)] whose
    value is not [None]; it has no entry for a custom entry whose value is
    [None]; and it has no other entry.  [str(123)] is the text [123]; a
    float is carried with its [repr], so [45.67] gives [45.67]. *)
Theorem to_list_post (st : store) :
  wf_store st -> topic_key_free st ->
  dict_get (to_list st) TOPIC_KEY = topic_info st
  /\ (forall ci k v, custom_info st = Some ci -> In (k, v) ci -> v <> PyNone ->
        dict_get (to_list st) (ROOT ++ k) = Some (py_str v))
  /\ (forall ci k, custom_info st = Some ci -> In (k, PyNone) ci ->
        dict_get (to_list st) (ROOT ++ k) = None)
  /\ (forall key s, dict_get (to_list st) key = Some s ->
        (key = TOPIC_KEY /\ topic_info st = Some s)
        \/ exists ci k v, custom_info st = Some ci /\ In (k, v) ci
                          /\ v <> PyNone /\ key = ROOT ++ k /\ s = py_str v)
  /\ py_str (PyInt 123) = lit "123"
  /\ py_str (PyFloat (lit "45.67")) = lit "45.67".
Proof.
  intros Hwf Hfree. unfold wf_store, topic_key_free in *.
  destruct st as [topic custom]; cbn [custom_info topic_info] in *.
  assert (Hres : forall key,
             dict_get (match topic with
                       | Some t => dict_set [] TOPIC_KEY t
                       | None => []
                       end) key
             = if str_eqb TOPIC_KEY key then topic else None).
  { intros key. destruct topic; [reflexivity|]. now destruct (str_eqb _ _). }
  unfold to_list; cbn [topic_info custom_info].
  split; [|split; [|split; [|split; [|split]]]]; try reflexivity.
  - destruct custom as [ci|].
    + rewrite flatten_get_other.
      * rewrite Hres, str_eqb_refl; reflexivity.
      * intros k v Hin _ Heq. rewrite TOPIC_KEY_path in Heq.
        apply app_inv_head in Heq; subst k.
        apply Hfree. change (lit "topic/name") with (fst (lit "topic/name", v)).
        now apply in_map.
    + rewrite Hres, str_eqb_refl; reflexivity.
  - intros ci k v [= ->] Hin Hv.
    apply flatten_get_in; auto. now apply is_none_false.
  - intros ci k [= ->] Hin.
    rewrite flatten_get_other.
    + rewrite Hres. destruct (str_eqb TOPIC_KEY (ROOT ++ k)) eqn:E; auto.
      apply str_eqb_eq in E. rewrite TOPIC_KEY_path in E.
      apply app_inv_head in E; subst k.
      exfalso; apply Hfree.
      change (lit "topic/name") with (fst (lit "topic/name", PyNone)).
      now apply in_map.
    + intros k' v' Hin' Hv' Heq. apply app_inv_head in Heq; subst k'.
      assert (dict_get ci k = Some v') as G1 by now apply In_dict_get.
      assert (dict_get ci k = Some PyNone) as G2 by now apply In_dict_get.
      rewrite G1 in G2; injection G2 as ->. discriminate.
  - intros key s H.
    destruct custom as [ci|].
    + apply flatten_get_inv in H.
      destruct H as [H|(k & v & Hin & Hv & -> & ->)].
      * rewrite Hres in H. destruct (str_eqb TOPIC_KEY key) eqn:E; [|discriminate].
        apply str_eqb_eq in E; subst key. left; auto.
      * right; exists ci, k, v. repeat split; auto. now apply is_none_false.
    + rewrite Hres in H. destruct (str_eqb TOPIC_KEY key) eqn:E; [|discriminate].
      apply str_eqb_eq in E; subst key. left; auto.
Qed.

(** The postcondition on the context of the round-trip example. *)
Lemma to_list_post_witness :
  dict_get (to_list ctx_t1) TOPIC_KEY = Some (lit "t1")
  /\ dict_get (to_list ctx_t1) (ROOT ++ lit "a") = Some (lit "1").
Proof.
  assert (Hwf : wf_store ctx_t1).
  { cbv. repeat constructor; cbv; intuition discriminate. }
  assert (Hfree : topic_key_free ctx_t1).
  { cbv. intuition discriminate. }
  split.
  - exact (proj1 (to_list_post ctx_t1 Hwf Hfree)).
  - apply (proj1 (proj2 (to_list_post ctx_t1 Hwf Hfree))) with (ci := [(lit "a", PyStr (lit "1")); (lit "b", PyStr (lit "2"))]) (v := PyStr (lit "1")).
    + reflexivity.
    + left; reflexivity.
    + discriminate.
Defined.

(** C6 as stated fails when a custom entry is keyed [topic/name]: its
    value takes the place of the topic, and with no topic set the map still
    has the topic's key. *)
Lemma to_list_topic_clash :
  topic_info ctx_clash = Some (lit "t")
  /\ dict_get (to_list ctx_clash) TOPIC_KEY = Some (lit "x")
  /\ topic_info ctx_clash_no_topic = None
  /\ dict_get (to_list ctx_clash_no_topic) TOPIC_KEY = Some (lit "x").
Proof. repeat split. Qed.

Lemma run_op_keeps_custom (st st' : store) (o : op) :
  has_custom st -> run_op st o = Ok st' -> has_custom st'.
Proof.
  intros (e & ci & Hc). destruct o as [topic|key value|header]; simpl.
  - intros [= <-]. exists e, ci. exact Hc.
  - intros [= <-]. unfold set_custom_info, has_custom; simpl. rewrite Hc.
    destruct (dict_set (e :: ci) key value) as [|e' ci'] eqn:E.
    + now apply dict_set_not_nil in E.
    + eauto.
  - unfold from_header.
    destruct (negb (truthy header) || negb (truthy (strip header))).
    + intros [= <-]. exists e, ci. exact Hc.
    + destruct (decode_header header) as [decoded_str|ex].
      * intros [= <-]. unfold install.
        destruct (snd (fold_left parse_line (split_lines decoded_str) (None, [])))
          as [|e' custom_data].
        -- destruct (fst (fold_left parse_line (split_lines decoded_str) (None, [])));
             exists e, ci; exact Hc.
        -- exists e', custom_data. reflexivity.
      * intros [= <-]. exists e, ci. exact Hc.
Qed.

Lemma run_ops_keeps_custom (os : list op) (st st' : store) :
  has_custom st -> run_ops st os = Ok st' -> has_custom st'.
Proof.
  revert st; induction os as [|o os IH]; intros st Hc; simpl.
  - intros [= <-]; exact Hc.
  - destruct (run_op st o) as [st1|ex] eqn:E; simpl; [|discriminate].
    apply IH. eapply run_op_keeps_custom; eauto.
Qed.

(** C7, as the code has it.  The class has no [clear]: [set_topic_info(None)]
    makes the topic absent and leaves the custom map alone, which gives the
    empty store, with an empty [to_list], only when there was no custom
    map; and no sequence of the operations that change the store
    ([set_topic_info], [set_custom_info], [from_header]) empties a custom
    map that holds an entry. *)
Theorem no_clear_operation (st : store) :
  topic_info (set_topic_info st None) = None
  /\ custom_info (set_topic_info st None) = custom_info st
  /\ (custom_info st = None ->
      set_topic_info st None = empty_store
      /\ to_list (set_topic_info st None) = [])
  /\ (forall os st',
         has_custom st -> run_ops st os = Ok st' -> has_custom st').
Proof.
  repeat split.
  - unfold set_topic_info, empty_store. now rewrite H.
  - unfold to_list; simpl. now rewrite H.
  - intros os st'. apply run_ops_keeps_custom.
Qed.

(** The custom entry of [ctx_a1] outlives a reset of the topic followed by
    a decode of a blank header. *)
Lemma no_clear_operation_witness :
  has_custom ctx_a1
  /\ has_custom (set_topic_info ctx_a1 None).
Proof.
  assert (H : has_custom ctx_a1) by (eexists; eexists; reflexivity).
  split; [exact H|].
  apply (proj2 (proj2 (proj2 (no_clear_operation ctx_a1)))
           [SetTopicInfo None; FromHeader (lit " ")]); [exact H|].
  vm_compute. reflexivity.
Defined.

(** C7 as stated fails: on the store that holds the custom entry
    [a -> 1], whatever operation is run, the custom map still holds an
    entry afterwards, so none of them is a [clear]. *)
Lemma clear_is_missing :
  custom_info ctx_a1 = Some [(lit "a", PyStr (lit "1"))]
  /\ (forall o st', run_op ctx_a1 o = Ok st' -> has_custom st')
  /\ (forall o st', run_op ctx_a1 o = Ok st' ->
        custom_info st' <> None /\ custom_info st' <> Some []).
Proof.
  assert (H : has_custom ctx_a1) by (eexists; eexists; reflexivity).
  split; [reflexivity|]. split.
  - intros o st'. now apply run_op_keeps_custom.
  - intros o st' Hr.
    destruct (run_op_keeps_custom o H Hr) as (e & ci & ->).
    split; discriminate.
Qed.

End StoreFacts.

(* ================================================================== *)
(** * The message-consumer hook *)
(* ================================================================== *)

Module WrapperFacts.
Import LogHelper PipelineUtils Examples PyFacts.

Section Wrapper.
Variable OURRITUAL_CONTEXT_HEADER : pystr.
Variable A : Type.
Variable tracer : bool.
Variable callback_func : handler A.

(** The store in which the handler is started. *)
Lemma wrapper_installs (msg : message) (st : store) :
  exists st1,
    (match dict_get (attributes msg) OURRITUAL_CONTEXT_HEADER with
     | Some (c :: h) => from_header st (c :: h)
     | _ => Ok st
     end) = Ok st1
    /\ returned (wrap_message_callback OURRITUAL_CONTEXT_HEADER tracer
                  callback_func msg st) = fst (callback_func msg st1)
    /\ store_left (wrap_message_callback OURRITUAL_CONTEXT_HEADER tracer
                    callback_func msg st) = snd (callback_func msg st1).
Proof.
  unfold returned, store_left, wrap_message_callback.
  destruct (dict_get (attributes msg) OURRITUAL_CONTEXT_HEADER) as [[|c h]|];
    cbn [truthy].
  1, 3: exists st; split; [reflexivity|];
    destruct tracer; destruct (callback_func msg st) as [[r|e] st2]; auto.
  destruct (CodecFacts.from_header_returns st (c :: h)) as [st1 H].
  rewrite H. exists st1; split; [reflexivity|].
  destruct tracer; destruct (callback_func msg st1) as [[r|e] st2]; auto.
Qed.

End Wrapper.


End WrapperFacts.

(* ================================================================== *)
(** * The workflow-engine interceptors *)
(* ================================================================== *)

Module PropagatorFacts.
Import LogHelper ContextPropagator Examples PyFacts.

(** ** Outbound: merging the snapshot into the outgoing headers *)

Lemma dict_set_keys {V} (d : dict V) (k : pystr) (v : V) :
  dict_contains d k = true -> keys (dict_set d k v) = keys d.
Proof.
  unfold dict_contains.
  induction d as [|[k' v'] d IH]; simpl; [discriminate|].
  destruct (str_eqb k' k); simpl; [reflexivity|].
  intros H. now rewrite IH.
Qed.

Section Outbound.
Variable Payload : Type.
Variable to_payloads : dict pystr -> result Payload.

Lemma get_context_headers_cases (st : store) :
  (exists p, to_list st <> [] /\ to_payloads (to_list st) = Ok p
             /\ _get_context_headers to_payloads st = [(CONTEXT_HEADER_KEY, p)])
  \/ ((to_list st = [] \/ exists e, to_payloads (to_list st) = Raise e)
      /\ _get_context_headers to_payloads st = []).
Proof.
  unfold _get_context_headers.
  destruct (to_list st) as [|kv d] eqn:E; [right; auto|].
  destruct (to_payloads (kv :: d)) as [p|e] eqn:Ep.
  - left; exists p. repeat split; auto. discriminate.
  - right; split; eauto.
Qed.

(** The merge when the outgoing headers already hold the context key.
    When the caller's context flattens to a map that is not empty and the
    converter encodes it, the merged headers bind the key to that fresh
    payload, every other key keeps its value and the keys keep their
    order.  When the caller's context is empty, or the converter raises,
    nothing is merged: the headers, the inherited context payload
    included, go on as they came.  [start_activity],
    [start_local_activity] and [start_child_workflow] all pass the merged
    headers, with the rest of the input untouched, to the next
    interceptor. *)
Theorem merge_latest_wins (st : store) (existing : dict Payload)
        (old : Payload) :
  dict_get existing CONTEXT_HEADER_KEY = Some old ->
  (forall p, to_list st <> [] -> to_payloads (to_list st) = Ok p ->
       dict_get (_merge_headers to_payloads st (Some existing))
         CONTEXT_HEADER_KEY = Some p
       /\ (forall k, k <> CONTEXT_HEADER_KEY ->
             dict_get (_merge_headers to_payloads st (Some existing)) k
             = dict_get existing k)
       /\ keys (_merge_headers to_payloads st (Some existing))
          = keys existing)
  /\ (to_list st = [] ->
      _merge_headers to_payloads st (Some existing) = existing)
  /\ (forall e, to_payloads (to_list st) = Raise e ->
      _merge_headers to_payloads st (Some existing) = existing)
  /\ (forall (Rest Handle : Type) (next : StartInput Payload Rest -> Handle)
             (input : StartInput Payload Rest),
         headers input = Some existing ->
         let new_input :=
           {| headers := Some (_merge_headers to_payloads st (Some existing));
              rest := rest input |} in
         start_activity to_payloads next st input = next new_input
         /\ start_local_activity to_payloads next st input = next new_input
         /\ start_child_workflow to_payloads next st input = next new_input).
Proof.
  intros Hold.
  destruct existing as [|kv0 existing0] eqn:Eex; [discriminate|].
  rewrite <- Eex in *.
  assert (Hm : _merge_headers to_payloads st (Some existing)
               = dict_update existing (_get_context_headers to_payloads st)).
  { rewrite Eex; reflexivity. }
  rewrite Hm.
  split; [|split; [|split]].
  - intros p Hne Hp.
    unfold _get_context_headers. destruct (to_list st) as [|e d]; [congruence|].
    rewrite Hp. cbn [dict_update fold_left fst snd].
    split; [apply dict_get_set_same|]. split.
    + intros k Hk. apply dict_get_set_other. congruence.
    + apply dict_set_keys. unfold dict_contains. now rewrite Hold.
  - intros Hnil. unfold _get_context_headers. now rewrite Hnil.
  - intros e He. unfold _get_context_headers.
    destruct (to_list st); [reflexivity|]. now rewrite He.
  - intros Rest Handle next input Hin new_input.
    unfold start_activity, start_local_activity, start_child_workflow,
      replace.
    rewrite Hin, Hm. repeat split.
Qed.
End Outbound.

(** The inherited headers merged with the snapshot of [ctx_t1]. *)
Lemma merge_latest_wins_witness :
  dict_get (_merge_headers (fun d => Ok d) ctx_t1 (Some inherited))
    CONTEXT_HEADER_KEY = Some (to_list ctx_t1)
  /\ keys (_merge_headers (fun d => Ok d) ctx_t1 (Some inherited))
     = keys inherited.
Proof.
  assert (H : dict_get inherited CONTEXT_HEADER_KEY = Some old_payload)
    by reflexivity.
  assert (Hne : to_list ctx_t1 <> []) by (vm_compute; discriminate).
  pose proof (proj1 (merge_latest_wins (fun d => Ok d) ctx_t1 inherited H)
                (to_list ctx_t1) Hne eq_refl) as (H1 & _ & H3).
  split; [exact H1 | exact H3].
Defined.

(** C8.  The code where the claim fails: the caller's context is empty
    and the outgoing headers hold an inherited context payload.
    [_get_context_headers] returns no header for an empty context, so the
    merge overrides nothing, although the docstring of [_merge_headers]
    says that it always uses the latest context and overrides any existing
    context header: the three calls pass on headers that still bind the
    context key to the inherited payload, which is not the snapshot of the
    caller's current context. *)
Lemma merge_keeps_stale_header :
  to_list empty_store = []
  /\ _merge_headers (fun d => Ok d) empty_store (Some inherited) = inherited
  /\ dict_get (_merge_headers (fun d => Ok d) empty_store (Some inherited))
       CONTEXT_HEADER_KEY = Some old_payload
  /\ old_payload <> to_list empty_store
  /\ start_activity (fun d => Ok d) (fun i => headers i) empty_store
       {| headers := Some inherited; rest := tt |} = Some inherited
  /\ start_local_activity (fun d => Ok d) (fun i => headers i) empty_store
       {| headers := Some inherited; rest := tt |} = Some inherited
  /\ start_child_workflow (fun d => Ok d) (fun i => headers i) empty_store
       {| headers := Some inherited; rest := tt |} = Some inherited.
Proof. repeat split. vm_compute; discriminate. Qed.

(** ** Inbound: restoring the context from the decoded dictionary *)

Lemma strip_prefix_app (p s r : pystr) :
  strip_prefix p s = Some r -> s = p ++ r.
Proof.
  revert s; induction p as [|x p IH]; intros [|y s]; simpl;
    try discriminate; try (intros [= ->]; reflexivity).
  destruct (N.eqb_spec x y); [subst|discriminate].
  intros H. now rewrite (IH _ H).
Qed.

Lemma startswith_skipn (key p : pystr) :
  startswith key p = true -> key = p ++ skipn (List.length p) key.
Proof.
  unfold startswith. destruct (strip_prefix p key) as [r|] eqn:E;
    [|discriminate].
  intros _. apply strip_prefix_app in E. subst key.
  now rewrite skipn_app, Nat.sub_diag, skipn_all.
Qed.

Lemma custom_get_set_custom_info (st : store) (k c : pystr) (v : pyval) :
  custom_get (set_custom_info st k v) c
  = if str_eqb k c then Some v else custom_get st c.
Proof.
  unfold custom_get, set_custom_info; cbn [custom_info].
  destruct (str_eqb k c) eqn:E.
  - apply str_eqb_eq in E; subst. apply dict_get_set_same.
  - apply str_eqb_neq in E. rewrite dict_get_set_other by exact E.
    destruct (custom_info st); reflexivity.
Qed.

Lemma restore_entry_custom_get (st : store) (k v c : pystr) :
  custom_get (restore_entry st (k, v)) c
  = if installable k && str_eqb (skipn (List.length ROOT) k) c
    then Some (PyStr v) else custom_get st c.
Proof.
  unfold restore_entry, installable; cbn [fst snd].
  destruct (str_eqb k TOPIC_KEY); [reflexivity|].
  destruct (startswith k ROOT && negb (str_eqb k TEST_KEY)); [|reflexivity].
  apply custom_get_set_custom_info.
Qed.

Lemma restore_entry_topic (st : store) (k v : pystr) :
  topic_info (restore_entry st (k, v))
  = if str_eqb k TOPIC_KEY then Some v else topic_info st.
Proof.
  unfold restore_entry; cbn [fst snd].
  destruct (str_eqb k TOPIC_KEY); [reflexivity|].
  destruct (startswith k ROOT && negb (str_eqb k TEST_KEY)); reflexivity.
Qed.

Lemma restore_custom_get_other (d : dict pystr) (st : store) (c : pystr) :
  (forall k v, In (k, v) d -> installable k = true ->
               skipn (List.length ROOT) k <> c) ->
  custom_get (fold_left restore_entry d st) c = custom_get st c.
Proof.
  revert st; induction d as [|[k v] d IH]; intros st H; [reflexivity|].
  cbn [fold_left].
  rewrite IH by (intros k' v' Hin; apply (H k' v'); right; exact Hin).
  rewrite restore_entry_custom_get.
  destruct (installable k) eqn:Ei; [|reflexivity].
  pose proof (H k v (or_introl eq_refl) Ei) as Hne.
  apply str_eqb_neq in Hne. now rewrite Hne.
Qed.

Lemma installable_path (k : pystr) :
  installable k = true -> k = ROOT ++ skipn (List.length ROOT) k.
Proof.
  unfold installable. rewrite !andb_true_iff. intros (_ & H & _).
  now apply startswith_skipn.
Qed.

Lemma restore_custom_get_in (d : dict pystr) (st : store) (k v : pystr) :
  NoDup (keys d) -> In (k, v) d -> installable k = true ->
  custom_get (fold_left restore_entry d st) (skipn (List.length ROOT) k)
  = Some (PyStr v).
Proof.
  revert st; induction d as [|[k0 v0] d IH]; intros st Hnd Hin Hi;
    [destruct Hin|].
  inversion Hnd as [|? ? Hnotin Hnd']; subst. cbn [fold_left].
  destruct Hin as [Heq|Hin]; [|now apply IH].
  inversion Heq; subst k0 v0.
  rewrite restore_custom_get_other.
  - rewrite restore_entry_custom_get, Hi, str_eqb_refl. reflexivity.
  - intros k' v' Hin' Hi' Heq'. apply Hnotin.
    apply installable_path in Hi, Hi'. rewrite Heq' in Hi'.
    rewrite <- Hi in Hi'. subst k'.
    change k with (fst (k, v')). now apply in_map.
Qed.

Lemma restore_topic_other (d : dict pystr) (st : store) :
  ~ In TOPIC_KEY (keys d) ->
  topic_info (fold_left restore_entry d st) = topic_info st.
Proof.
  revert st; induction d as [|[k v] d IH]; intros st H; [reflexivity|].
  cbn [fold_left]. rewrite IH by (intros Hin; apply H; right; exact Hin).
  rewrite restore_entry_topic.
  destruct (str_eqb k TOPIC_KEY) eqn:E; [|reflexivity].
  apply str_eqb_eq in E. exfalso; apply H; left; exact E.
Qed.

Lemma restore_topic_in (d : dict pystr) (st : store) (t : pystr) :
  NoDup (keys d) -> In (TOPIC_KEY, t) d ->
  topic_info (fold_left restore_entry d st) = Some t.
Proof.
  revert st; induction d as [|[k0 v0] d IH]; intros st Hnd Hin;
    [destruct Hin|].
  inversion Hnd as [|? ? Hnotin Hnd']; subst. cbn [fold_left].
  destruct Hin as [Heq|Hin]; [|now apply IH].
  inversion Heq; subst k0 v0.
  rewrite restore_topic_other by exact Hnotin.
  now rewrite restore_entry_topic, str_eqb_refl.
Qed.

(** C10 (the key [ourritual/test] is dropped on restore).  For a decoded
    context dictionary that has the key [ourritual/test], in the activity
    interceptor and in the workflow interceptor alike: the restore never
    writes the custom key [test], so a store that had none has none
    afterwards; every other entry whose key starts with [ourritual/], the
    topic's apart, is installed as custom info under the rest of its key;
    the entry [ourritual/topic/name] becomes the topic.  The producer does
    transmit the key: [to_list] of a store whose custom key [test] holds a
    value has [ourritual/test]. *)
Theorem restore_drops_test_key (st : store) (context_dict : dict pystr) :
  NoDup (keys context_dict) ->
  dict_contains context_dict TEST_KEY = true ->
  let restored :=
    ContextActivityInboundInterceptor._restore_context_from_dict
      st context_dict in
  ContextWorkflowInboundInterceptor._restore_context_from_dict st context_dict
  = restored
  /\ custom_get restored (lit "test") = custom_get st (lit "test")
  /\ (custom_get st (lit "test") = None ->
      custom_get restored (lit "test") = None)
  /\ (forall k v, In (k, v) context_dict ->
        startswith k ROOT = true -> k <> TOPIC_KEY -> k <> TEST_KEY ->
        custom_get restored (skipn (List.length ROOT) k) = Some (PyStr v))
  /\ (forall t, In (TOPIC_KEY, t) context_dict ->
        topic_info restored = Some t)
  /\ (forall st0 v, wf_store st0 -> v <> PyNone ->
        dict_get (to_list (set_custom_info st0 (lit "test") v)) TEST_KEY
        = Some (py_str v)).
Proof.
  intros Hnd Hhas restored. subst restored.
  unfold ContextWorkflowInboundInterceptor._restore_context_from_dict,
    ContextActivityInboundInterceptor._restore_context_from_dict.
  assert (Htest : custom_get (fold_left restore_entry context_dict st) (lit "test")
                  = custom_get st (lit "test")).
  { apply restore_custom_get_other. intros k v _ Hi Heq.
    pose proof (installable_path k Hi) as Hk. rewrite Heq in Hk.
    unfold installable in Hi. rewrite !andb_true_iff, !negb_true_iff in Hi.
    destruct Hi as (_ & _ & Hi). apply str_eqb_neq in Hi. now apply Hi. }
  split; [reflexivity|]. split; [exact Htest|].
  split; [intros H; now rewrite Htest|].
  split; [|split].
  - intros k v Hin Hs Hk1 Hk2. apply restore_custom_get_in; auto.
    unfold installable. rewrite Hs.
    apply str_eqb_neq in Hk1, Hk2. now rewrite Hk1, Hk2.
  - intros t Hin. now apply restore_topic_in.
  - intros st0 v Hwf Hv. unfold to_list.
    set (res := match topic_info _ with Some t => _ | None => _ end).
    cbn [custom_info set_custom_info].
    change TEST_KEY with (ROOT ++ lit "test").
    apply StoreFacts.flatten_get_in.
    + apply dict_set_NoDup. unfold wf_store in Hwf.
      destruct (custom_info st0); [exact Hwf | constructor].
    + apply dict_get_In, dict_get_set_same.
    + now apply StoreFacts.is_none_false.
Qed.

(** The restore of [inbound_dict] into an empty store. *)
Lemma restore_drops_test_key_witness :
  custom_get
    (ContextActivityInboundInterceptor._restore_context_from_dict
       empty_store inbound_dict) (lit "test") = None
  /\ custom_get
       (ContextActivityInboundInterceptor._restore_context_from_dict
          empty_store inbound_dict) (lit "order_id") = Some (PyStr (lit "42")).
Proof.
  assert (Hnd : NoDup (keys inbound_dict)).
  { cbv. repeat constructor; cbv; intuition discriminate. }
  assert (Hhas : dict_contains inbound_dict TEST_KEY = true) by reflexivity.
  pose proof (restore_drops_test_key empty_store inbound_dict Hnd Hhas)
    as (_ & _ & H1 & H2 & _).
  split.
  - apply H1. reflexivity.
  - apply (H2 (lit "ourritual/order_id") (lit "42")).
    + right; right; left; reflexivity.
    + reflexivity.
    + cbv; discriminate.
    + cbv; discriminate.
Defined.

End PropagatorFacts.

(* ================================================================== *)
(** * The matchers and the line parser *)
(* ================================================================== *)

Module ParseFacts.
Import LogHelper Examples PyFacts.
Local Open Scope N_scope.

(** ** Soundness and completeness of the matchers

    A matcher that returns did so through its continuation, on a split of
    the subject; and when some split makes the continuation succeed, the
    matcher succeeds (on that split or on one it tries before). *)
Section Matchers.
Variable R : Type.
Implicit Types (k : pystr -> pystr -> option R) (cls : char -> bool).

Lemma literal_app (p rest : pystr) (k1 : pystr -> option R) :
  Re.literal p (p ++ rest) k1 = k1 rest.
Proof.
  induction p as [|x p IH]; [reflexivity|].
  cbn [app Re.literal]. now rewrite N.eqb_refl.
Qed.

Lemma literal_inv (p s : pystr) (k1 : pystr -> option R) (x : R) :
  Re.literal p s k1 = Some x ->
  exists rest, s = p ++ rest /\ k1 rest = Some x.
Proof.
  revert s; induction p as [|c p IH]; intros s H.
  - exists s; auto.
  - destruct s as [|y s]; [discriminate|]. cbn [Re.literal] in H.
    destruct (N.eqb_spec c y); [subst y|discriminate].
    destruct (IH _ H) as (rest & -> & Hk). exists rest; auto.
Qed.

Lemma star_greedy_cons cls (c : char) (s : pystr) k :
  Re.star_greedy cls (c :: s) k
  = if cls c then
      match Re.star_greedy cls s (fun m rest => k (c :: m) rest) with
      | Some r => Some r
      | None => k [] (c :: s)
      end
    else k [] (c :: s).
Proof. reflexivity. Qed.

Lemma star_lazy_unfold cls (s : pystr) k :
  Re.star_lazy cls s k
  = match k [] s with
    | Some r => Some r
    | None =>
        match s with
        | c :: s' =>
            if cls c then Re.star_lazy cls s' (fun m rest => k (c :: m) rest)
            else None
        | [] => None
        end
    end.
Proof. destruct s; reflexivity. Qed.

Lemma star_greedy_inv cls (s : pystr) k (x : R) :
  Re.star_greedy cls s k = Some x ->
  exists m rest, s = m ++ rest /\ Re.all_in cls m /\ k m rest = Some x.
Proof.
  unfold Re.all_in.
  revert k; induction s as [|c s IH]; intros k H; cbn [Re.star_greedy] in H.
  - exists [], []. repeat split; auto; try constructor.
  - destruct (cls c) eqn:Ec.
    + destruct (Re.star_greedy cls s (fun m rest => k (c :: m) rest))
        as [r|] eqn:E.
      * injection H as ->. apply IH in E.
        destruct E as (m & rest & -> & Hm & Hk).
        exists (c :: m), rest. repeat split; auto; try (constructor; auto).
      * exists [], (c :: s). repeat split; auto; try constructor.
    + exists [], (c :: s). repeat split; auto; try constructor.
Qed.

Lemma star_greedy_complete cls (m rest : pystr) k :
  Re.all_in cls m -> k m rest <> None ->
  Re.star_greedy cls (m ++ rest) k <> None.
Proof.
  unfold Re.all_in.
  intros Hm; revert k; induction Hm as [|c m Hc Hm IH]; intros k Hk.
  - cbn [app]. destruct rest as [|c s]; cbn [Re.star_greedy]; auto.
    destruct (cls c); auto.
    destruct (Re.star_greedy cls s (fun m rest => k (c :: m) rest));
      [discriminate | auto].
  - cbn [app]. rewrite star_greedy_cons, Hc.
    specialize (IH (fun m rest => k (c :: m) rest) Hk).
    match type of IH with
    | ?g <> None => destruct g; [discriminate | contradiction]
    end.
Qed.

Lemma plus_greedy_inv cls (s : pystr) k (x : R) :
  Re.plus_greedy cls s k = Some x ->
  exists m rest, s = m ++ rest /\ m <> [] /\ Re.all_in cls m
                 /\ k m rest = Some x.
Proof.
  unfold Re.all_in, Re.plus_greedy. destruct s as [|c s]; [discriminate|].
  destruct (cls c) eqn:Ec; [|discriminate].
  intros H. apply star_greedy_inv in H.
  destruct H as (m & rest & -> & Hm & Hk).
  exists (c :: m), rest. repeat split; auto; try discriminate.
Qed.

Lemma plus_greedy_complete cls (m rest : pystr) k :
  m <> [] -> Re.all_in cls m -> k m rest <> None ->
  Re.plus_greedy cls (m ++ rest) k <> None.
Proof.
  unfold Re.all_in.
  intros Hne Hm Hk. destruct Hm as [|c m Hc Hm]; [contradiction|].
  cbn [app Re.plus_greedy]. rewrite Hc.
  now apply star_greedy_complete.
Qed.

Lemma star_lazy_inv cls (s : pystr) k (x : R) :
  Re.star_lazy cls s k = Some x ->
  exists m rest, s = m ++ rest /\ Re.all_in cls m /\ k m rest = Some x.
Proof.
  unfold Re.all_in.
  revert k; induction s as [|c s IH]; intros k H; cbn [Re.star_lazy] in H.
  - destruct (k [] []) eqn:E; [|discriminate].
    exists [], []. repeat split; auto; try constructor; try congruence.
  - destruct (k [] (c :: s)) eqn:E.
    + exists [], (c :: s). repeat split; auto; try constructor; try congruence.
    + destruct (cls c) eqn:Ec; [|discriminate].
      apply IH in H. destruct H as (m & rest & -> & Hm & Hk).
      exists (c :: m), rest. repeat split; auto; try (constructor; auto).
Qed.

Lemma star_lazy_complete cls (m rest : pystr) k :
  Re.all_in cls m -> k m rest <> None ->
  Re.star_lazy cls (m ++ rest) k <> None.
Proof.
  unfold Re.all_in.
  intros Hm; revert k; induction Hm as [|c m Hc Hm IH]; intros k Hk.
  - cbn [app]. rewrite star_lazy_unfold.
    destruct (k [] rest) eqn:E; [discriminate|].
    exfalso; apply Hk; exact E.
  - cbn [app]. rewrite star_lazy_unfold.
    match goal with
    | |- match ?g with _ => _ end <> None => destruct g; [discriminate|]
    end.
    rewrite Hc. now apply IH.
Qed.

Lemma plus_lazy_inv cls (s : pystr) k (x : R) :
  Re.plus_lazy cls s k = Some x ->
  exists m rest, s = m ++ rest /\ m <> [] /\ Re.all_in cls m
                 /\ k m rest = Some x.
Proof.
  unfold Re.all_in, Re.plus_lazy. destruct s as [|c s]; [discriminate|].
  destruct (cls c) eqn:Ec; [|discriminate].
  intros H. apply star_lazy_inv in H.
  destruct H as (m & rest & -> & Hm & Hk).
  exists (c :: m), rest. repeat split; auto; try discriminate.
Qed.

Lemma plus_lazy_complete cls (m rest : pystr) k :
  m <> [] -> Re.all_in cls m -> k m rest <> None ->
  Re.plus_lazy cls (m ++ rest) k <> None.
Proof.
  unfold Re.all_in.
  intros Hne Hm Hk. destruct Hm as [|c m Hc Hm]; [contradiction|].
  cbn [app Re.plus_lazy]. rewrite Hc.
  now apply star_lazy_complete.
Qed.
End Matchers.

(** ** The two patterns *)

Lemma pattern_direct_inv (line g v : pystr) :
  pattern_direct line = Some (g, v) ->
  exists ws tail,
    line = ROOT ++ g ++ [58] ++ ws ++ [34] ++ v ++ [34] ++ tail
    /\ g <> [] /\ Re.all_in (Re.not_char 58) g
    /\ Re.all_in Re.space ws /\ Re.all_in (Re.not_char 34) v.
Proof.
  unfold pattern_direct. intros H.
  apply literal_inv in H. destruct H as (r0 & -> & H).
  apply plus_greedy_inv in H. destruct H as (g1 & r1 & -> & Hg1 & Hc1 & H).
  apply literal_inv in H. destruct H as (r2 & -> & H).
  apply star_greedy_inv in H. destruct H as (ws & r3 & -> & Hws & H).
  apply literal_inv in H. destruct H as (r4 & -> & H).
  apply star_greedy_inv in H. destruct H as (g2 & r5 & -> & Hg2 & H).
  apply literal_inv in H. destruct H as (tail & -> & H).
  injection H as -> ->. exists ws, tail. repeat split; auto.
Qed.

Lemma pattern_with_section_inv (line g1 g2 g3 : pystr) :
  pattern_with_section line = Some (g1, g2, g3) ->
  exists ws tail,
    line = ROOT ++ g1 ++ [47] ++ g2 ++ [58] ++ ws ++ [34] ++ g3 ++ [34] ++ tail
    /\ g1 <> [] /\ Re.all_in (Re.not_char 47) g1
    /\ g2 <> [] /\ Re.all_in Re.dot g2
    /\ Re.all_in Re.space ws /\ Re.all_in (Re.not_char 34) g3.
Proof.
  unfold pattern_with_section. intros H.
  apply literal_inv in H. destruct H as (r0 & -> & H).
  apply plus_greedy_inv in H. destruct H as (s & r1 & -> & Hs & Hcs & H).
  apply literal_inv in H. destruct H as (r2 & -> & H).
  apply plus_lazy_inv in H. destruct H as (r & r3 & -> & Hr & Hcr & H).
  apply literal_inv in H. destruct H as (r4 & -> & H).
  apply star_greedy_inv in H. destruct H as (ws & r5 & -> & Hws & H).
  apply literal_inv in H. destruct H as (r6 & -> & H).
  apply star_greedy_inv in H. destruct H as (v & r7 & -> & Hv & H).
  apply literal_inv in H. destruct H as (tail & -> & H).
  injection H as -> -> ->. exists ws, tail. repeat split; auto.
Qed.

Lemma pattern_with_section_complete (s r ws v tail : pystr) :
  s <> [] -> Re.all_in (Re.not_char 47) s ->
  r <> [] -> Re.all_in Re.dot r ->
  Re.all_in Re.space ws -> Re.all_in (Re.not_char 34) v ->
  pattern_with_section
    (ROOT ++ s ++ [47] ++ r ++ [58] ++ ws ++ [34] ++ v ++ [34] ++ tail)
  <> None.
Proof.
  intros Hs Hcs Hr Hcr Hws Hv. unfold pattern_with_section.
  rewrite literal_app.
  apply plus_greedy_complete; auto. rewrite literal_app.
  apply plus_lazy_complete; auto. rewrite literal_app.
  apply star_greedy_complete; auto. rewrite literal_app.
  apply star_greedy_complete; auto. rewrite literal_app.
  discriminate.
Qed.

(** The first segment of a path is determined by the path. *)
Lemma first_segment_unique (s1 s2 x y : pystr) :
  s1 ++ [47] ++ x = s2 ++ [47] ++ y ->
  Re.all_in (Re.not_char 47) s1 -> Re.all_in (Re.not_char 47) s2 ->
  s1 = s2.
Proof.
  unfold Re.all_in, Re.not_char.
  revert s2; induction s1 as [|a s1 IH]; intros [|b s2] Heq H1 H2;
    cbn [app] in Heq.
  - reflexivity.
  - injection Heq as <- _. inversion H2; subst. discriminate.
  - injection Heq as -> _. inversion H1; subst. discriminate.
  - injection Heq as -> Heq. inversion H1; inversion H2; subst.
    f_equal. eapply IH; eauto.
Qed.

(** A value followed by the closing quote, cut at its first quote. *)
Lemma split_at_quote (v : pystr) :
  exists v1 tail, v ++ [34] = v1 ++ [34] ++ tail
                  /\ Re.all_in (Re.not_char 34) v1.
Proof.
  unfold Re.all_in, Re.not_char.
  induction v as [|c v (v1 & tail & Heq & Hv1)].
  - exists [], []. split; [reflexivity | constructor].
  - destruct (N.eqb_spec c 34) as [->|Hc].
    + exists [], (v ++ [34]). split; [reflexivity | constructor].
    + exists (c :: v1), tail. cbn [app]. rewrite Heq. split; [reflexivity|].
      constructor; [|exact Hv1]. apply negb_true_iff. now apply N.eqb_neq.
Qed.

(** ** Lines *)

Lemma strip_ends (a z : N) (m : pystr) :
  isspace a = false -> isspace z = false ->
  strip (a :: m ++ [z]) = a :: m ++ [z].
Proof.
  intros Ha Hz. unfold strip, rstrip. cbn [lstrip]. rewrite Ha.
  change (a :: m ++ [z]) with ((a :: m) ++ [z]).
  rewrite rev_app_distr. cbn [rev app lstrip]. rewrite Hz.
  change (z :: rev m ++ [a]) with (rev [z] ++ rev (a :: m)).
  rewrite <- rev_app_distr. apply rev_involutive.
Qed.

Lemma lstrip_all_in (cls : char -> bool) (s : pystr) :
  Re.all_in cls s -> Re.all_in cls (lstrip s).
Proof.
  unfold Re.all_in. induction 1 as [|c s Hc Hs IH]; cbn [lstrip].
  - constructor.
  - destruct (isspace c); [exact IH | constructor; assumption].
Qed.

Lemma strip_all_in (cls : char -> bool) (s : pystr) :
  Re.all_in cls s -> Re.all_in cls (strip s).
Proof.
  intros H. unfold strip, rstrip.
  apply lstrip_all_in in H. unfold Re.all_in in *.
  apply Forall_rev. apply (lstrip_all_in (cls := cls)). unfold Re.all_in.
  now apply Forall_rev.
Qed.

Lemma split_lines_one_line (s l : pystr) :
  In l (split_lines s) -> one_line l.
Proof.
  unfold one_line, Re.all_in, Re.dot.
  revert l; induction s as [|c s IH]; intros l; cbn [split_lines].
  - intros [<-|[]]. constructor.
  - destruct (N.eqb_spec c 10) as [->|Hc].
    + intros [<-|Hin]; [constructor | now apply IH].
    + destruct (split_lines s) as [|l0 ls] eqn:E.
      * intros [<-|[]]. repeat constructor.
        apply negb_true_iff. now apply N.eqb_neq.
      * intros [<-|Hin].
        -- constructor; [apply negb_true_iff; now apply N.eqb_neq|].
           apply IH. left; reflexivity.
        -- apply IH. right; exact Hin.
Qed.

(** ** What the loop records *)

Lemma direct_not_sectioned (line g v : pystr) :
  one_line line ->
  pattern_with_section line = None ->
  pattern_direct line = Some (g, v) ->
  ~ sectioned_key g.
Proof.
  intros Hline Hnone Hdir (s & r & -> & Hs & Hcs & Hr).
  apply pattern_direct_inv in Hdir.
  destruct Hdir as (ws & tail & -> & _ & _ & Hws & Hv).
  assert (Hcr : Re.all_in Re.dot r).
  { unfold one_line, Re.all_in in *.
    apply Forall_app in Hline. destruct Hline as [_ Hline].
    apply Forall_app in Hline. destruct Hline as [Hline _].
    apply Forall_app in Hline. destruct Hline as [_ Hline].
    apply Forall_app in Hline. destruct Hline as [_ Hline].
    exact Hline. }
  revert Hnone. rewrite <- !app_assoc.
  now apply pattern_with_section_complete.
Qed.

Lemma parse_line_keeps (acc : parsed) (line0 : pystr) :
  one_line line0 -> decoded_keys_ok (snd acc) ->
  decoded_keys_ok (snd (parse_line acc line0)).
Proof.
  intros Hline Hok. unfold parse_line.
  apply (strip_all_in (cls := Re.dot)) in Hline.
  destruct (negb (truthy (strip line0))); [exact Hok|].
  destruct (pattern_with_section (strip line0)) as [[[section key_path] value]|]
    eqn:Es.
  - destruct (str_eqb section (lit "topic")); [|exact Hok].
    destruct (str_eqb key_path (lit "name")); exact Hok.
  - destruct (pattern_direct (strip line0)) as [[key value]|] eqn:Ed;
      [|exact Hok].
    destruct (negb (str_eqb key (lit "topic"))); [|exact Hok].
    cbn [snd fst]. intros g Hin.
    apply dict_set_keys_In in Hin. destruct Hin as [->|Hin].
    + eapply direct_not_sectioned; eauto.
    + now apply Hok.
Qed.

Lemma parse_lines_keep (lines : list pystr) (acc : parsed) :
  (forall l, In l lines -> one_line l) -> decoded_keys_ok (snd acc) ->
  decoded_keys_ok (snd (fold_left parse_line lines acc)).
Proof.
  revert acc; induction lines as [|l lines IH]; intros acc Hl Hok;
    cbn [fold_left]; [exact Hok|].
  apply IH.
  - intros l' Hin. apply Hl. right; exact Hin.
  - apply parse_line_keeps; [apply Hl; left; reflexivity | exact Hok].
Qed.

Lemma install_keys (st : store) (decoded_str g : pystr) :
  In g (custom_keys (install st decoded_str)) ->
  In g (custom_keys st) \/ ~ sectioned_key g.
Proof.
  unfold install.
  pose proof (@parse_lines_keep (split_lines decoded_str) (None, [])
                (split_lines_one_line decoded_str)) as Hok.
  assert (Hnil : decoded_keys_ok (snd (@pair (option pystr) (dict pyval) None [])))
    by (intros g' []).
  specialize (Hok Hnil).
  destruct (fold_left parse_line (split_lines decoded_str) (None, []))
    as [topic_data custom_data].
  cbn [fst snd] in *.
  destruct custom_data as [|e custom_data].
  - destruct topic_data; unfold custom_keys; cbn [custom_info set_topic_info];
      auto.
  - unfold custom_keys; cbn [custom_info]. intros Hin. right. now apply Hok.
Qed.

Lemma from_header_keys (tgt st' : store) (header g : pystr) :
  from_header tgt header = Ok st' ->
  In g (custom_keys st') -> In g (custom_keys tgt) \/ ~ sectioned_key g.
Proof.
  unfold from_header.
  destruct (negb (truthy header) || negb (truthy (strip header)));
    [intros [= <-]; auto|].
  destruct (decode_header header) as [decoded_str|e]; intros [= <-]; auto.
  apply install_keys.
Qed.

(** ** Sectioned keys *)

Lemma render_shape (key v : pystr) :
  exists v1 tail,
    render (ROOT ++ key, v)
    = ROOT ++ key ++ [58] ++ [32] ++ [34] ++ v1 ++ [34] ++ tail
    /\ Re.all_in (Re.not_char 34) v1.
Proof.
  destruct (split_at_quote v) as (v1 & tail & Heq & Hv1).
  exists v1, tail. split; [|exact Hv1].
  unfold render; cbn [fst snd].
  change (lit ": ") with [58; 32]. rewrite <- !app_assoc.
  cbn [app] in *. now rewrite Heq.
Qed.

Lemma render_strip (key v : pystr) :
  strip (render (ROOT ++ key, v)) = render (ROOT ++ key, v).
Proof.
  assert (H : render (ROOT ++ key, v)
              = 111 :: ((lit "urritual/" ++ key) ++ lit ": " ++ [34] ++ v)
                    ++ [34]).
  { unfold render; cbn [fst snd].
    change ROOT with (111 :: lit "urritual/").
    rewrite <- !app_comm_cons. f_equal.
    rewrite <- !app_assoc. reflexivity. }
  rewrite H. apply strip_ends; reflexivity.
Qed.

Lemma to_list_In (st : store) (ci : dict pyval) (k : pystr) (val : pyval) :
  wf_store st -> custom_info st = Some ci -> In (k, val) ci ->
  val <> PyNone -> In (ROOT ++ k, py_str val) (to_list st).
Proof.
  intros Hwf Hci Hin Hval. apply dict_get_In.
  unfold wf_store in Hwf. unfold to_list. rewrite Hci in *.
  apply StoreFacts.flatten_get_in; auto. now apply StoreFacts.is_none_false.
Qed.

(** C9 as stated fails.  A key that begins with a slash and a key whose
    only slash is its last character fall to the direct pattern and come
    back from [from_header] with their slash; the key [topic/name] is
    decoded as the topic; and the session keys are lost, as the claim
    says. *)
Lemma slash_keys_that_survive :
  (h <- to_header ctx_lead_slash ;; from_header empty_store h)
  = Ok ctx_lead_slash
  /\ custom_keys ctx_lead_slash = [lit "/x"]
  /\ (h <- to_header ctx_trail_slash ;; from_header empty_store h)
     = Ok ctx_trail_slash
  /\ custom_keys ctx_trail_slash = [lit "a/"]
  /\ (h <- to_header ctx_clash_no_topic ;; from_header empty_store h)
     = Ok (set_topic_info empty_store (Some (lit "x")))
  /\ (h <- to_header ctx_session ;; from_header empty_store h)
     = Ok empty_store.
Proof. repeat split; vm_compute; reflexivity. Qed.

End ParseFacts.

(* ================================================================== *)
(** * Transport round trips: base64 and UTF-8 *)
(* ================================================================== *)

Module TransportFacts.
Import LogHelper Transport PyFacts.
Local Open Scope N_scope.

(** ** Bit operations as arithmetic *)

Ltac Zify.zify_post_hook ::= Z.to_euclidean_division_equations.

Lemma lor_shiftl_add (x y k : N) :
  y < 2 ^ k -> N.lor (N.shiftl x k) y = x * 2 ^ k + y.
Proof.
  intros Hy.
  assert (H0 : N.land (N.shiftl x k) y = 0).
  { apply N.bits_inj. intros n. rewrite N.land_spec, N.bits_0.
    destruct (N.lt_ge_cases n k) as [Hn|Hn].
    - now rewrite N.shiftl_spec_low.
    - rewrite <- (N.mod_small y (2 ^ k)) by exact Hy.
      rewrite N.mod_pow2_bits_high by exact Hn. apply andb_false_r. }
  rewrite <- N.lxor_lor by exact H0.
  rewrite <- N.add_nocarry_lxor by exact H0.
  now rewrite N.shiftl_mul_pow2.
Qed.

Ltac pow2 :=
  repeat match goal with
         | |- context [2 ^ ?k] =>
             let v := eval vm_compute in (2 ^ k) in change (2 ^ k) with v
         | H : context [2 ^ ?k] |- _ =>
             let v := eval vm_compute in (2 ^ k) in change (2 ^ k) with v in H
         end.

Ltac masks :=
  change 3 with (N.ones 2) in *; change 7 with (N.ones 3) in *;
  change 15 with (N.ones 4) in *; change 31 with (N.ones 5) in *;
  change 63 with (N.ones 6) in *; change 255 with (N.ones 8) in *;
  rewrite ?N.land_ones, ?N.shiftr_div_pow2 in *.

Ltac byte_arith :=
  masks;
  repeat match goal with
         | |- context [N.lor (N.shiftl ?x ?k) ?y] =>
             rewrite (@lor_shiftl_add x y k)
               by (rewrite ?N.shiftl_mul_pow2; pow2; lia)
         end;
  rewrite ?N.shiftl_mul_pow2; pow2; lia.

(** ** Base64 *)

Lemma sextet1 (b1 : N) : b1 < 256 -> N.shiftr b1 2 < 64.
Proof. intros; byte_arith. Qed.
Lemma sextet2 (b1 b2 : N) : b2 < 256 ->
  N.lor (N.shiftl (N.land b1 3) 4) (N.shiftr b2 4) < 64.
Proof. intros; byte_arith. Qed.
Lemma sextet3 (b2 b3 : N) : b3 < 256 ->
  N.lor (N.shiftl (N.land b2 15) 2) (N.shiftr b3 6) < 64.
Proof. intros; byte_arith. Qed.
Lemma sextet4 (b3 : N) : b3 < 256 -> N.land b3 63 < 64.
Proof. intros; byte_arith. Qed.
Lemma byte1 (b1 b2 : N) : b1 < 256 -> b2 < 256 ->
  N.land (N.lor (N.shiftl (N.shiftr b1 2) 2)
            (N.shiftr (N.lor (N.shiftl (N.land b1 3) 4) (N.shiftr b2 4)) 4))
    255 = b1.
Proof. intros; byte_arith. Qed.
Lemma byte2 (b1 b2 b3 : N) : b1 < 256 -> b2 < 256 -> b3 < 256 ->
  N.land (N.lor (N.shiftl (N.land (N.lor (N.shiftl (N.land b1 3) 4)
                                     (N.shiftr b2 4)) 15) 4)
            (N.shiftr (N.lor (N.shiftl (N.land b2 15) 2) (N.shiftr b3 6)) 2))
    255 = b2.
Proof. intros; byte_arith. Qed.
Lemma byte3 (b2 b3 : N) : b2 < 256 -> b3 < 256 ->
  N.land (N.lor (N.shiftl (N.land (N.lor (N.shiftl (N.land b2 15) 2)
                                     (N.shiftr b3 6)) 3) 6)
            (N.land b3 63))
    255 = b3.
Proof. intros; byte_arith. Qed.

Lemma tail1 (b1 : N) : b1 < 256 ->
  N.shiftl (N.land b1 3) 4 < 64
  /\ N.land (N.lor (N.shiftl (N.shiftr b1 2) 2) (N.shiftr (N.shiftl (N.land b1 3) 4) 4)) 255 = b1.
Proof. intros; split; byte_arith. Qed.

Lemma tail2 (b1 b2 : N) : b1 < 256 -> b2 < 256 ->
  N.shiftl (N.land b2 15) 2 < 64
  /\ N.land (N.lor (N.shiftl (N.land (N.lor (N.shiftl (N.land b1 3) 4) (N.shiftr b2 4)) 15) 4)
   (N.shiftr (N.shiftl (N.land b2 15) 2) 2)) 255 = b2.
Proof. intros; split; byte_arith. Qed.

Lemma table_round_trip (v : N) :
  v < 64 ->
  (Base64.urlsafe_translate (Base64.table_b2a v) =? Base64.BASE64_PAD) = false
  /\ Base64.table_a2b (Base64.urlsafe_translate (Base64.table_b2a v)) = Some v.
Proof.
  intros Hv. unfold Base64.table_b2a.
  destruct (N.ltb_spec v 26); [|destruct (N.ltb_spec v 52);
    [|destruct (N.ltb_spec v 62); [|destruct (N.eqb_spec v 62)]]].
  4: subst; split; reflexivity.
  4: assert (v = 63) by lia; subst; split; reflexivity.
  all: unfold Base64.urlsafe_translate, Base64.BASE64_PAD.
  all: match goal with
       | |- context [?c =? 45] => destruct (N.eqb_spec c 45); [lia|]
       end.
  all: match goal with
       | |- context [?c =? 95] => destruct (N.eqb_spec c 95); [lia|]
       end.
  all: split; [apply N.eqb_neq; lia|].
  all: unfold Base64.table_a2b.
  - destruct (N.leb_spec 65 (65 + v)); [|lia].
    destruct (N.leb_spec (65 + v) 90); [|lia]. cbn [andb]. f_equal; lia.
  - destruct (N.leb_spec 65 (97 + (v - 26))); [|lia].
    destruct (N.leb_spec (97 + (v - 26)) 90); [lia|]. cbn [andb].
    destruct (N.leb_spec 97 (97 + (v - 26))); [|lia].
    destruct (N.leb_spec (97 + (v - 26)) 122); [|lia]. cbn [andb]. f_equal; lia.
  - destruct (N.leb_spec 65 (48 + (v - 52))); [lia|]. cbn [andb].
    destruct (N.leb_spec 97 (48 + (v - 52))); [lia|]. cbn [andb].
    destruct (N.leb_spec 48 (48 + (v - 52))); [|lia].
    destruct (N.leb_spec (48 + (v - 52)) 57); [|lia]. cbn [andb]. f_equal; lia.
Qed.

Ltac decode_char H :=
  let Hp := fresh in let Ht := fresh in
  destruct (@table_round_trip _ H) as [Hp Ht];
  rewrite Hp, Ht; clear Hp Ht.

Lemma a2b_base64_encode (bs : bytes) :
  is_bytes bs ->
  forall (leftchar pads : N) (out : bytes),
    Base64.a2b_base64 (map Base64.urlsafe_translate (Base64.urlsafe_b64encode bs))
      0 leftchar pads out = Ok (out ++ bs).
Proof.
  unfold is_bytes.
  induction bs as [|b1|b1 b2|b1 b2 b3 bs IH] using CodecFacts.list_ind3;
    intros Hb lc pads out.
  - cbn. now rewrite app_nil_r.
  - inversion Hb as [|? ? H1 _]; subst.
    cbn [Base64.urlsafe_b64encode map Base64.a2b_base64].
    decode_char (@sextet1 b1 H1). cbn [N.eqb].
    destruct (@tail1 b1 H1) as [Hv Hb1].
    decode_char Hv. cbn [N.eqb Pos.eqb]. rewrite Hb1. reflexivity.
  - inversion Hb as [|? ? H1 Hb']; subst. inversion Hb' as [|? ? H2 _]; subst.
    cbn [Base64.urlsafe_b64encode map Base64.a2b_base64].
    decode_char (@sextet1 b1 H1). cbn [N.eqb].
    decode_char (@sextet2 b1 b2 H2). cbn [N.eqb Pos.eqb]. rewrite (@byte1 b1 b2 H1 H2).
    destruct (@tail2 b1 b2 H1 H2) as [Hv Hb2].
    decode_char Hv. cbn [N.eqb Pos.eqb]. rewrite Hb2.
    rewrite <- app_assoc. reflexivity.
  - inversion Hb as [|? ? H1 Hb']; subst. inversion Hb' as [|? ? H2 Hb'']; subst.
    inversion Hb'' as [|? ? H3 Hbs]; subst.
    cbn [Base64.urlsafe_b64encode map Base64.a2b_base64].
    decode_char (@sextet1 b1 H1). cbn [N.eqb].
    decode_char (@sextet2 b1 b2 H2). cbn [N.eqb Pos.eqb]. rewrite (@byte1 b1 b2 H1 H2).
    decode_char (@sextet3 b2 b3 H3). cbn [N.eqb Pos.eqb]. rewrite (@byte2 b1 b2 b3 H1 H2 H3).
    decode_char (@sextet4 b3 H3). cbn [N.eqb Pos.eqb]. rewrite (@byte3 b2 b3 H2 H3).
    rewrite IH by exact Hbs. rewrite <- !app_assoc. reflexivity.
Qed.

(** ** UTF-8 *)
Lemma lor_lead (hi k x : N) : x < 2 ^ k -> N.lor (hi * 2 ^ k) x = hi * 2 ^ k + x.
Proof.
  intros H. rewrite <- (@lor_shiftl_add hi x k H).
  now rewrite N.shiftl_mul_pow2.
Qed.

Ltac leads :=
  repeat match goal with
         | |- context [N.lor 128 ?x] =>
             change (N.lor 128 x) with (N.lor (2 * 2 ^ 6) x);
             rewrite (@lor_lead 2 6 x) by (pow2; lia)
         | |- context [N.lor 192 ?x] =>
             change (N.lor 192 x) with (N.lor (3 * 2 ^ 6) x);
             rewrite (@lor_lead 3 6 x) by (pow2; lia)
         | |- context [N.lor 224 ?x] =>
             change (N.lor 224 x) with (N.lor (14 * 2 ^ 4) x);
             rewrite (@lor_lead 14 4 x) by (pow2; lia)
         | |- context [N.lor 240 ?x] =>
             change (N.lor 240 x) with (N.lor (30 * 2 ^ 3) x);
             rewrite (@lor_lead 30 3 x) by (pow2; lia)
         end.

Ltac utf_arith :=
  unfold Utf8.cont, Utf8.payload;
  change (6 * 0) with 0; change (6 * 1) with 6; change (6 * 2) with 12;
  rewrite ?N.shiftr_0_r;
  masks; leads;
  repeat match goal with
         | |- context [N.lor (N.shiftl ?x ?k) ?y] =>
             rewrite (@lor_shiftl_add x y k)
               by (rewrite ?N.shiftl_mul_pow2; pow2; lia)
         end;
  rewrite ?N.shiftl_mul_pow2; pow2; lia.

Lemma two_byte (c : N) :
  128 <= c -> c < 2048 ->
  let b1 := N.lor 192 (N.shiftr c 6) in
  let b2 := Utf8.cont c 0 in
  194 <= b1 /\ b1 <= 223 /\ 128 <= b2 /\ b2 <= 191
  /\ N.lor (N.shiftl (N.land b1 31) 6) (Utf8.payload b2) = c.
Proof.
  intros Hlo Hhi b1 b2. subst b1 b2.
  repeat split; utf_arith.
Qed.

Lemma three_byte (c : N) :
  2048 <= c -> c < 65536 ->
  let b1 := N.lor 224 (N.shiftr c 12) in
  let b2 := Utf8.cont c 1 in
  let b3 := Utf8.cont c 0 in
  224 <= b1 /\ b1 <= 239 /\ 128 <= b2 /\ b2 <= 191 /\ 128 <= b3 /\ b3 <= 191
  /\ N.lor (N.shiftl (N.land b1 15) 12)
       (N.lor (N.shiftl (Utf8.payload b2) 6) (Utf8.payload b3)) = c.
Proof.
  intros Hlo Hhi b1 b2 b3. subst b1 b2 b3.
  repeat split; utf_arith.
Qed.

Lemma four_byte (c : N) :
  65536 <= c -> c < 1114112 ->
  let b1 := N.lor 240 (N.shiftr c 18) in
  let b2 := Utf8.cont c 2 in
  let b3 := Utf8.cont c 1 in
  let b4 := Utf8.cont c 0 in
  240 <= b1 /\ b1 <= 244 /\ 128 <= b2 /\ b2 <= 191 /\ 128 <= b3 /\ b3 <= 191
  /\ 128 <= b4 /\ b4 <= 191
  /\ N.lor (N.shiftl (N.land b1 7) 18)
       (N.lor (N.shiftl (Utf8.payload b2) 12)
          (N.lor (N.shiftl (Utf8.payload b3) 6) (Utf8.payload b4))) = c.
Proof.
  intros Hlo Hhi b1 b2 b3 b4. subst b1 b2 b3 b4.
  repeat split; utf_arith.
Qed.

Lemma decode_cons (b1 : N) (r1 : bytes) :
  Utf8.decode (b1 :: r1) =
  if b1 <? 0x80 then (s <- Utf8.decode r1 ;; Ok (b1 :: s))
  else if (0xC2 <=? b1) && (b1 <=? 0xDF) then
    match r1 with
    | b2 :: r2 =>
        if Utf8.is_cont b2 then
          s <- Utf8.decode r2 ;;
          Ok (N.lor (N.shiftl (N.land b1 0x1F) 6) (Utf8.payload b2) :: s)
        else Raise UnicodeDecodeError
    | _ => Raise UnicodeDecodeError
    end
  else if (0xE0 <=? b1) && (b1 <=? 0xEF) then
    match r1 with
    | b2 :: b3 :: r3 =>
        let c := N.lor (N.shiftl (N.land b1 0x0F) 12)
                   (N.lor (N.shiftl (Utf8.payload b2) 6) (Utf8.payload b3)) in
        if Utf8.is_cont b2 && Utf8.is_cont b3 && (0x800 <=? c)
           && negb (Utf8.is_surrogate c) then
          s <- Utf8.decode r3 ;; Ok (c :: s)
        else Raise UnicodeDecodeError
    | _ => Raise UnicodeDecodeError
    end
  else if (0xF0 <=? b1) && (b1 <=? 0xF4) then
    match r1 with
    | b2 :: b3 :: b4 :: r4 =>
        let c := N.lor (N.shiftl (N.land b1 0x07) 18)
                   (N.lor (N.shiftl (Utf8.payload b2) 12)
                      (N.lor (N.shiftl (Utf8.payload b3) 6) (Utf8.payload b4))) in
        if Utf8.is_cont b2 && Utf8.is_cont b3 && Utf8.is_cont b4
           && (0x10000 <=? c) && (c <? 0x110000) then
          s <- Utf8.decode r4 ;; Ok (c :: s)
        else Raise UnicodeDecodeError
    | _ => Raise UnicodeDecodeError
    end
  else Raise UnicodeDecodeError.
Proof. reflexivity. Qed.

Lemma is_cont_true (b : N) : 128 <= b -> b <= 191 -> Utf8.is_cont b = true.
Proof.
  intros. unfold Utf8.is_cont. apply andb_true_iff.
  split; apply N.leb_le; assumption.
Qed.

Lemma between_true (lo hi b : N) : lo <= b -> b <= hi -> (lo <=? b) && (b <=? hi) = true.
Proof. intros. apply andb_true_iff. split; apply N.leb_le; assumption. Qed.

Lemma between_false (lo hi b : N) : hi < b -> (lo <=? b) && (b <=? hi) = false.
Proof. intros. apply andb_false_iff. right. apply N.leb_gt. assumption. Qed.

Lemma Ok_inj (A : Type) (a b : A) : Ok a = Ok b -> a = b.
Proof. now intros [= ->]. Qed.

Lemma encode_char_decode (c : N) (bs : bytes) :
  Utf8.encode_char c = Ok bs ->
  is_bytes bs
  /\ forall rest, Utf8.decode (bs ++ rest) = (s <- Utf8.decode rest ;; Ok (c :: s)).
Proof.
  unfold Utf8.encode_char, is_bytes.
  destruct (N.ltb_spec c 0x80) as [H1|H1].
  { intros Heq; apply Ok_inj in Heq; subst bs. split; [repeat (apply Forall_cons; [lia|]); apply Forall_nil|].
    intros rest. cbn [app]. rewrite decode_cons.
    destruct (N.ltb_spec c 128); [reflexivity | lia]. }
  destruct (N.ltb_spec c 0x800) as [H2|H2].
  { intros Heq; apply Ok_inj in Heq; subst bs.
    destruct (@two_byte c H1 H2) as (L1 & L2 & L3 & L4 & Hc).
    set (b1 := N.lor 192 (N.shiftr c 6)) in *.
    set (b2 := Utf8.cont c 0) in *.
    split; [repeat (apply Forall_cons; [lia|]); apply Forall_nil|].
    intros rest. cbn [app]. rewrite decode_cons.
    destruct (N.ltb_spec b1 128); [lia|].
    rewrite (@between_true 194 223 b1) by assumption.
    rewrite (@is_cont_true b2) by assumption.
    rewrite Hc. reflexivity. }
  destruct (Utf8.is_surrogate c) eqn:Hs; [discriminate|].
  destruct (N.ltb_spec c 0x10000) as [H3|H3].
  { intros Heq; apply Ok_inj in Heq; subst bs.
    destruct (@three_byte c H2 H3) as (L1 & L2 & L3 & L4 & L5 & L6 & Hc).
    set (b1 := N.lor 224 (N.shiftr c 12)) in *.
    set (b2 := Utf8.cont c 1) in *.
    set (b3 := Utf8.cont c 0) in *.
    split; [repeat (apply Forall_cons; [lia|]); apply Forall_nil|].
    intros rest. cbn [app]. rewrite decode_cons.
    destruct (N.ltb_spec b1 128); [lia|].
    rewrite (@between_false 194 223 b1) by lia.
    rewrite (@between_true 224 239 b1) by assumption.
    cbv zeta. rewrite Hc.
    rewrite (@is_cont_true b2), (@is_cont_true b3) by assumption.
    rewrite Hs. destruct (N.leb_spec 2048 c); [reflexivity | lia]. }
  destruct (N.ltb_spec c 0x110000) as [H4|H4]; [|discriminate].
  intros Heq; apply Ok_inj in Heq; subst bs.
  destruct (@four_byte c H3 H4) as (L1 & L2 & L3 & L4 & L5 & L6 & L7 & L8 & Hc).
  set (b1 := N.lor 240 (N.shiftr c 18)) in *.
  set (b2 := Utf8.cont c 2) in *.
  set (b3 := Utf8.cont c 1) in *.
  set (b4 := Utf8.cont c 0) in *.
  split; [repeat (apply Forall_cons; [lia|]); apply Forall_nil|].
  intros rest. cbn [app]. rewrite decode_cons.
  destruct (N.ltb_spec b1 128); [lia|].
  rewrite (@between_false 194 223 b1) by lia.
  rewrite (@between_false 224 239 b1) by lia.
  rewrite (@between_true 240 244 b1) by assumption.
  cbv zeta. rewrite Hc.
  rewrite (@is_cont_true b2), (@is_cont_true b3), (@is_cont_true b4) by assumption.
  destruct (N.leb_spec 65536 c); [|lia].
  destruct (N.ltb_spec c 1114112); [reflexivity | lia].
Qed.

Lemma encode_decode (s : pystr) (bs : bytes) :
  Utf8.encode s = Ok bs -> is_bytes bs /\ Utf8.decode bs = Ok s.
Proof.
  revert bs; induction s as [|c s IH]; intros bs; cbn [Utf8.encode].
  - intros [= <-]. split; [constructor | reflexivity].
  - destruct (Utf8.encode_char c) as [b|e] eqn:Ec; [|discriminate]. cbn [bind].
    destruct (Utf8.encode s) as [r|e] eqn:Es; [|discriminate]. cbn [bind].
    intros [= <-].
    destruct (@encode_char_decode c b Ec) as [Hb Hd].
    destruct (IH r eq_refl) as [Hr Hdr].
    split; [apply Forall_app; split; assumption|].
    rewrite Hd, Hdr. reflexivity.
Qed.

End TransportFacts.

(* ================================================================== *)
(** * The header as transport: what [from_header] decodes *)
(* ================================================================== *)

Module HeaderFacts.
Import LogHelper Transport PyFacts TransportFacts.
Local Open Scope N_scope.

Lemma encode_ascii_below (s : pystr) :
  Forall (fun c => c < 128) s -> encode_ascii s = Ok s.
Proof.
  induction 1 as [|c s Hc Hs IH]; [reflexivity|].
  cbn [encode_ascii]. destruct (N.ltb_spec c 128); [|lia].
  rewrite IH. reflexivity.
Qed.

Lemma urlsafe_b64encode_ascii (bs : bytes) :
  Forall (fun c => c < 128) (Base64.urlsafe_b64encode bs).
Proof.
  destruct (CodecFacts.urlsafe_b64encode_shape bs) as (body & k & -> & Hal & _).
  apply Forall_app. split.
  - unfold Base64.alphabet in Hal. eapply Forall_impl; [|exact Hal].
    intros c Hc. apply CodecFacts.b64char_facts in Hc.
    destruct Hc as (_ & Hlt & _). now apply N.ltb_lt.
  - apply Forall_forall. intros c Hc. apply repeat_spec in Hc. subst c.
    reflexivity.
Qed.

(** The bytes of a header decode to the bytes that were encoded. *)
Lemma urlsafe_b64decode_encode (bs : bytes) :
  is_bytes bs ->
  Base64.urlsafe_b64decode (Base64.urlsafe_b64encode bs) = Ok bs.
Proof.
  intros H. unfold Base64.urlsafe_b64decode.
  now rewrite (@a2b_base64_encode bs H 0 0 []).
Qed.

Lemma lstrip_nil (s : pystr) : lstrip s = [] -> Forall (fun c => isspace c = true) s.
Proof.
  induction s as [|c s IH]; cbn [lstrip]; [constructor|].
  destruct (isspace c) eqn:E; [|discriminate].
  intros H. constructor; auto.
Qed.

Lemma lstrip_head (s : pystr) :
  lstrip s = [] \/ exists c r, lstrip s = c :: r /\ isspace c = false.
Proof.
  induction s as [|c s IH]; cbn [lstrip]; [left; reflexivity|].
  destruct (isspace c) eqn:E; [exact IH|].
  right; exists c, s; auto.
Qed.

Lemma strip_nil (s : pystr) : strip s = [] -> Forall (fun c => isspace c = true) s.
Proof.
  unfold strip, rstrip. intros H.
  apply (f_equal (@rev N)) in H. rewrite rev_involutive in H. cbn [rev] in H.
  apply lstrip_nil in H. apply Forall_rev in H. rewrite rev_involutive in H.
  destruct (lstrip_head s) as [E|(c & r & E & Hc)].
  - now apply lstrip_nil.
  - rewrite E in H. inversion H; subst. congruence.
Qed.

Lemma encode_not_nil (s : pystr) (bs : bytes) :
  s <> [] -> Utf8.encode s = Ok bs -> bs <> [].
Proof.
  destruct s as [|c s]; [congruence|]. intros _. cbn [Utf8.encode].
  destruct (Utf8.encode_char c) as [b|e] eqn:Ec; [|discriminate]. cbn [bind].
  destruct (Utf8.encode s) as [r|e]; [|discriminate]. cbn [bind].
  intros H; apply Ok_inj in H; subst bs.
  unfold Utf8.encode_char in Ec.
  destruct (c <? 128); [apply Ok_inj in Ec; subst; discriminate|].
  destruct (c <? 2048); [apply Ok_inj in Ec; subst; discriminate|].
  destruct (Utf8.is_surrogate c); [discriminate|].
  destruct (c <? 65536); [apply Ok_inj in Ec; subst; discriminate|].
  destruct (c <? 1114112); [apply Ok_inj in Ec; subst; discriminate|discriminate].
Qed.

Lemma json_str_not_nil (e : pystr * pystr) (d : dict pystr) :
  json_str (e :: d) <> [].
Proof.
  unfold json_str. cbn [map join].
  assert (H : render e <> []).
  { unfold render. destruct (fst e); discriminate. }
  destruct (map render d); [exact H|].
  destruct (render e); [contradiction | discriminate].
Qed.

Lemma urlsafe_b64encode_head (b : N) (bs : bytes) :
  exists c r, Base64.urlsafe_b64encode (b :: bs) = c :: r
              /\ Base64.b64char c = true.
Proof.
  destruct bs as [|b2 [|b3 bs]]; cbn [Base64.urlsafe_b64encode];
    eexists; eexists; (split; [reflexivity | apply CodecFacts.table_b2a_b64char]).
Qed.

(** What [to_header] gives is decoded by the [try] block of [from_header]
    to the text that was encoded, and [from_header] goes on to parse it. *)
Lemma header_transport (st tgt : store) (header : pystr) :
  to_list st <> [] ->
  to_header st = Ok header ->
  decode_header header = Ok (json_str (to_list st))
  /\ from_header tgt header = Ok (install tgt (json_str (to_list st))).
Proof.
  intros Hne Hh. unfold to_header in Hh.
  destruct (to_list st) as [|e d] eqn:El; [congruence|].
  destruct (Utf8.encode (json_str (e :: d))) as [b|ex] eqn:Eb; [|discriminate].
  cbn [bind] in Hh. apply Ok_inj in Hh. subst header.
  destruct (@encode_decode _ _ Eb) as [Hbytes Hdec].
  assert (Hd : decode_header (Base64.urlsafe_b64encode b)
               = Ok (json_str (e :: d))).
  { unfold decode_header.
    rewrite (encode_ascii_below (urlsafe_b64encode_ascii b)). cbn [bind].
    rewrite (urlsafe_b64decode_encode Hbytes). cbn [bind]. exact Hdec. }
  split; [exact Hd|].
  unfold from_header. rewrite Hd.
  assert (Hb : b <> []).
  { eapply encode_not_nil; [|exact Eb]. apply json_str_not_nil. }
  destruct b as [|b0 b]; [congruence|].
  destruct (urlsafe_b64encode_head b0 b) as (c & r & Hcr & Hc).
  rewrite Hcr. cbn [truthy negb orb].
  destruct (strip (c :: r)) as [|x y] eqn:Es; [|reflexivity].
  apply strip_nil in Es. inversion Es; subst.
  apply CodecFacts.b64char_facts in Hc. destruct Hc as (_ & _ & Hsp & _).
  congruence.
Qed.

End HeaderFacts.

(* ================================================================== *)
(** * The patterns on the lines [to_header] writes *)
(* ================================================================== *)

Module LineFacts.
Import LogHelper Transport PyFacts Clean ParseFacts.
Local Open Scope N_scope.

(** ** Splitting at the first character outside a class *)

Lemma split_unique (cls : char -> bool) (d : char) (m1 m2 x y : pystr) :
  cls d = false -> Re.all_in cls m1 -> Re.all_in cls m2 ->
  m1 ++ d :: x = m2 ++ d :: y -> m1 = m2 /\ x = y.
Proof.
  unfold Re.all_in. intros Hd.
  revert m2; induction m1 as [|a m1 IH]; intros [|b m2] H1 H2 Heq;
    cbn [app] in Heq.
  - injection Heq as ->. auto.
  - injection Heq as <- _. inversion H2; subst. congruence.
  - injection Heq as -> _. inversion H1; subst. congruence.
  - injection Heq as -> Heq. inversion H1; inversion H2; subst.
    destruct (IH m2 H4 H8 Heq) as [-> ->]. auto.
Qed.

Lemma first_outside (cls : char -> bool) (l : pystr) :
  Re.all_in cls l
  \/ exists l1 c l2, l = l1 ++ c :: l2 /\ Re.all_in cls l1 /\ cls c = false.
Proof.
  unfold Re.all_in. induction l as [|a l IH]; [left; constructor|].
  destruct (cls a) eqn:Ea.
  - destruct IH as [IH|(l1 & c & l2 & -> & H1 & Hc)].
    + left; constructor; assumption.
    + right; exists (a :: l1), c, l2. repeat split; auto.
  - right; exists [], a, l. repeat split; auto.
Qed.

Lemma count_app (d : char) (l1 l2 : pystr) :
  count d (l1 ++ l2) = (count d l1 + count d l2)%nat.
Proof. apply count_occ_app. Qed.

Lemma count_cons_same (d : char) (l : pystr) : count d (d :: l) = S (count d l).
Proof. unfold count. now rewrite count_occ_cons_eq. Qed.

Lemma count_zero (d : char) (l : pystr) :
  count d l = 0%nat <-> Re.all_in (Re.not_char d) l.
Proof.
  unfold count, Re.all_in, Re.not_char. induction l as [|a l IH].
  - split; [constructor | reflexivity].
  - cbn [count_occ]. destruct (N.eq_dec a d) as [->|Hne].
    + split; [discriminate|]. intros H; inversion H; subst.
      rewrite N.eqb_refl in H2. discriminate.
    + rewrite IH. split.
      * intros H; constructor; [|exact H].
        apply negb_true_iff. now apply N.eqb_neq.
      * intros H; now inversion H.
Qed.

Lemma all_in_app (cls : char -> bool) (l1 l2 : pystr) :
  Re.all_in cls (l1 ++ l2) <-> Re.all_in cls l1 /\ Re.all_in cls l2.
Proof. apply Forall_app. Qed.

(** ** The rendered lines *)

Lemma render_exact (k v : pystr) :
  render (ROOT ++ k, v) = ROOT ++ k ++ 58 :: 32 :: 34 :: v ++ [34].
Proof.
  unfold render; cbn [fst snd]. change (lit ": ") with [58; 32].
  rewrite <- !app_assoc. reflexivity.
Qed.

Lemma pattern_direct_complete (k ws v tail : pystr) :
  k <> [] -> Re.all_in (Re.not_char 58) k ->
  Re.all_in Re.space ws -> Re.all_in (Re.not_char 34) v ->
  pattern_direct (ROOT ++ k ++ [58] ++ ws ++ [34] ++ v ++ [34] ++ tail)
  <> None.
Proof.
  intros Hk Hck Hws Hv. unfold pattern_direct.
  rewrite literal_app.
  apply plus_greedy_complete; auto. rewrite literal_app.
  apply star_greedy_complete; auto. rewrite literal_app.
  apply star_greedy_complete; auto. rewrite literal_app.
  discriminate.
Qed.

Lemma space_32 : Re.all_in Re.space [32].
Proof. repeat constructor. Qed.

(** A clean entry is read back by the direct pattern as it was written. *)
Lemma direct_clean (k v : pystr) :
  clean_key k -> clean_value v ->
  pattern_direct (render (ROOT ++ k, v)) = Some (k, v).
Proof.
  intros (Hk & _ & _ & Hcolon & _) (Hquote & _).
  rewrite render_exact.
  destruct (pattern_direct (ROOT ++ k ++ 58 :: 32 :: 34 :: v ++ [34]))
    as [[g g2]|] eqn:E.
  - pose proof (@pattern_direct_inv _ _ _ E)
      as (ws & tail & Hline & _ & Hg & Hws & Hg2).
    apply app_inv_head in Hline.
    apply (@split_unique (Re.not_char 58) 58) in Hline; auto.
    destruct Hline as [<- Hline].
    change (32 :: 34 :: v ++ [34]) with ([32] ++ 34 :: v ++ [34]) in Hline.
    apply (@split_unique Re.space 34) in Hline; auto using space_32.
    destruct Hline as [_ Hline].
    apply (@split_unique (Re.not_char 34) 34) in Hline; auto.
    destruct Hline as [<- _]. reflexivity.
  - exfalso. revert E.
    apply (@pattern_direct_complete k [32] v []); auto using space_32.
Qed.

Lemma no_second_quote (v a b : pystr) :
  Re.all_in (Re.not_char 34) v -> v ++ [34] = a ++ 34 :: b -> b = [].
Proof.
  intros Hv Heq.
  assert (Hc : count 34 (v ++ [34]) = count 34 (a ++ 34 :: b)) by now rewrite Heq.
  rewrite !count_app, !count_cons_same in Hc.
  apply count_zero in Hv. rewrite Hv in Hc. cbn in Hc.
  destruct b as [|c b]; [reflexivity|]. exfalso.
  assert (Hlen : List.length (v ++ [34]) = List.length (a ++ 34 :: c :: b))
    by now rewrite Heq.
  assert (Ha : count 34 a = 0%nat) by lia.
  apply count_zero in Ha. apply count_zero in Hv.
  change (v ++ [34]) with (v ++ 34 :: []) in Heq.
  apply (@split_unique (Re.not_char 34) 34) in Heq; auto.
  destruct Heq as [_ Heq]. discriminate.
Qed.

(** The sectioned pattern does not match the line of a clean entry. *)
Lemma sectioned_none (k v : pystr) :
  clean_key k -> clean_value v ->
  pattern_with_section (render (ROOT ++ k, v)) = None.
Proof.
  intros (_ & _ & Hslash & _ & _) (Hquote & _).
  rewrite render_exact.
  destruct (pattern_with_section (ROOT ++ k ++ 58 :: 32 :: 34 :: v ++ [34]))
    as [[[g1 g2] g3]|] eqn:E; [|reflexivity].
  exfalso.
  pose proof (@pattern_with_section_inv _ _ _ _ E)
    as (ws & tail & Hline & _ & Hg1 & _).
  apply app_inv_head in Hline.
  destruct (first_outside (Re.not_char 47) v)
    as [Hv|(v1 & c & v2 & -> & Hv1 & Hc)].
  - assert (Hall : Re.all_in (Re.not_char 47) (k ++ 58 :: 32 :: 34 :: v ++ [34])).
    { apply all_in_app; split; [exact Hslash|].
      repeat (apply Forall_cons; [reflexivity|]).
      apply all_in_app; split; [exact Hv | repeat constructor]. }
    rewrite Hline in Hall. apply all_in_app in Hall. destruct Hall as [_ Hall].
    inversion Hall; subst. discriminate.
  - unfold Re.not_char in Hc. apply negb_false_iff, N.eqb_eq in Hc. subst c.
    replace (k ++ 58 :: 32 :: 34 :: (v1 ++ 47 :: v2) ++ [34])
      with ((k ++ 58 :: 32 :: 34 :: v1) ++ 47 :: (v2 ++ [34])) in Hline
      by (rewrite <- !app_assoc; reflexivity).
    apply (@split_unique (Re.not_char 47) 47) in Hline; auto.
    + destruct Hline as [_ Hline].
      apply all_in_app in Hquote. destruct Hquote as [_ Hquote].
      inversion Hquote; subst.
      replace (g2 ++ [58] ++ ws ++ [34] ++ g3 ++ [34] ++ tail)
        with ((g2 ++ [58] ++ ws) ++ 34 :: (g3 ++ [34] ++ tail)) in Hline
        by (rewrite <- !app_assoc; reflexivity).
      apply no_second_quote in Hline; [|assumption].
      destruct g3; discriminate.
    + apply all_in_app; split; [exact Hslash|].
      repeat (apply Forall_cons; [reflexivity|]). exact Hv1.
Qed.

(** The topic line is read back by the sectioned pattern. *)
Lemma topic_line (t : pystr) :
  clean_value t ->
  pattern_with_section (render (TOPIC_KEY, t))
  = Some (lit "topic", lit "name", t).
Proof.
  intros (Hquote & Hline).
  change TOPIC_KEY with (ROOT ++ lit "topic/name"). rewrite render_exact.
  destruct (pattern_with_section
              (ROOT ++ lit "topic/name" ++ 58 :: 32 :: 34 :: t ++ [34]))
    as [[[g1 g2] g3]|] eqn:E.
  - pose proof (@pattern_with_section_inv _ _ _ _ E)
      as (ws & tail & Heq & _ & Hg1 & _ & _ & Hws & Hg3).
    apply app_inv_head in Heq.
    change (lit "topic/name" ++ 58 :: 32 :: 34 :: t ++ [34])
      with (lit "topic" ++ 47 :: (lit "name" ++ 58 :: 32 :: 34 :: t ++ [34]))
      in Heq.
    apply (@split_unique (Re.not_char 47) 47) in Heq; auto;
      [|repeat constructor].
    destruct Heq as [<- Heq].
    assert (Hc : count 34 (lit "name" ++ 58 :: 32 :: 34 :: t ++ [34])
                 = count 34 (g2 ++ [58] ++ ws ++ [34] ++ g3 ++ [34] ++ tail))
      by now rewrite Heq.
    assert (Hc58 : count 58 (g2 ++ [58] ++ ws) = S (count 58 g2)).
    { rewrite count_app. change ([58] ++ ws) with (58 :: ws).
      rewrite count_cons_same.
      assert (Hw : count 58 ws = 0%nat).
      { apply count_zero. unfold Re.all_in in *.
        eapply Forall_impl; [|exact Hws]. intros c Hc'.
        unfold Re.not_char. apply negb_true_iff, N.eqb_neq.
        intros ->. discriminate. }
      lia. }
    change (lit "name" ++ 58 :: 32 :: 34 :: t ++ [34])
      with ((lit "name" ++ [58; 32]) ++ 34 :: t ++ 34 :: []) in Hc, Heq.
    replace (g2 ++ [58] ++ ws ++ [34] ++ g3 ++ [34] ++ tail)
      with ((g2 ++ [58] ++ ws) ++ 34 :: (g3 ++ 34 :: tail)) in Hc, Heq
      by (rewrite <- !app_assoc; reflexivity).
    set (U := g2 ++ [58] ++ ws) in *.
    set (P := lit "name" ++ [58; 32]) in *.
    rewrite !count_app, !count_cons_same, !count_app, !count_cons_same in Hc.
    pose proof (proj2 (count_zero 34 t) Hquote) as Ht.
    assert (Hn : count 34 P = 0%nat) by reflexivity.
    change (count 34 []) with 0%nat in Hc.
    assert (Hu : count 34 U = 0%nat) by lia.
    apply count_zero in Hu.
    apply (@split_unique (Re.not_char 34) 34) in Heq; auto;
      [|repeat constructor].
    destruct Heq as [Hpre Hpost].
    change (t ++ [34]) with (t ++ 34 :: []) in Hpost.
    apply (@split_unique (Re.not_char 34) 34) in Hpost; auto.
    destruct Hpost as [<- _].
    assert (Hg2 : count 58 g2 = 0%nat).
    { rewrite <- Hpre in Hc58.
      change (count 58 P) with 1%nat in Hc58. lia. }
    apply count_zero in Hg2.
    subst U P.
    change (lit "name" ++ [58; 32]) with (lit "name" ++ 58 :: [32]) in Hpre.
    change (g2 ++ [58] ++ ws) with (g2 ++ 58 :: ws) in Hpre.
    apply (@split_unique (Re.not_char 58) 58) in Hpre; auto;
      [|repeat constructor].
    destruct Hpre as [<- _]. reflexivity.
  - exfalso. revert E.
    apply (@pattern_with_section_complete (lit "topic") (lit "name") [32] t []);
      auto using space_32; try discriminate; repeat constructor.
Qed.

End LineFacts.

(* ================================================================== *)
(** * The round trip of a clean context *)
(* ================================================================== *)

Module RoundTripFacts.
Import LogHelper Transport PyFacts Clean ParseFacts LineFacts.
Local Open Scope N_scope.

(** ** One line of the loop *)

Lemma parse_custom_line (acc : parsed) (k v : pystr) :
  clean_key k -> clean_value v ->
  parse_line acc (render (ROOT ++ k, v))
  = (fst acc, dict_set (snd acc) k (PyStr v)).
Proof.
  intros Hk Hv. unfold parse_line.
  rewrite render_strip, (sectioned_none Hk Hv), (direct_clean Hk Hv).
  assert (Ht : truthy (render (ROOT ++ k, v)) = true) by reflexivity.
  rewrite Ht. cbn [negb].
  destruct Hk as (_ & Hk & _). apply str_eqb_neq in Hk. now rewrite Hk.
Qed.

Lemma parse_topic_line (acc : parsed) (t : pystr) :
  clean_value t ->
  parse_line acc (render (TOPIC_KEY, t)) = (Some t, snd acc).
Proof.
  intros Ht. unfold parse_line.
  assert (Hs : strip (render (TOPIC_KEY, t)) = render (TOPIC_KEY, t)).
  { change TOPIC_KEY with (ROOT ++ lit "topic/name"). apply render_strip. }
  rewrite Hs, (topic_line Ht).
  assert (Htr : truthy (render (TOPIC_KEY, t)) = true) by reflexivity.
  rewrite Htr. reflexivity.
Qed.

(** ** Lines and text *)

Lemma split_lines_one (l : pystr) : one_line l -> split_lines l = [l].
Proof.
  unfold one_line, Re.all_in, Re.dot.
  induction 1 as [|c l Hc Hl IH]; [reflexivity|].
  cbn [split_lines]. apply negb_true_iff in Hc. rewrite Hc, IH. reflexivity.
Qed.

Lemma split_lines_app (l rest : pystr) :
  one_line l -> split_lines (l ++ 10 :: rest) = l :: split_lines rest.
Proof.
  unfold one_line, Re.all_in, Re.dot.
  induction 1 as [|c l Hc Hl IH].
  - reflexivity.
  - cbn [app split_lines]. apply negb_true_iff in Hc. rewrite Hc, IH.
    reflexivity.
Qed.

Lemma split_lines_join (lines : list pystr) :
  lines <> [] -> (forall l, In l lines -> one_line l) ->
  split_lines (join [10] lines) = lines.
Proof.
  induction lines as [|l lines IH]; [congruence|]. intros _ Hall.
  destruct lines as [|l2 lines].
  - cbn [join]. apply split_lines_one. apply Hall. left; reflexivity.
  - change (join [10] (l :: l2 :: lines))
      with (l ++ 10 :: join [10] (l2 :: lines)).
    rewrite split_lines_app by (apply Hall; left; reflexivity).
    rewrite IH; [reflexivity | discriminate|].
    intros l' Hin. apply Hall. right; exact Hin.
Qed.

Lemma render_one_line (k v : pystr) :
  one_line k -> one_line v -> one_line (render (k, v)).
Proof.
  unfold one_line, render; cbn [fst snd]. intros Hk Hv.
  apply all_in_app; split; [exact Hk|].
  apply all_in_app; split; [repeat constructor|].
  apply all_in_app; split; [repeat constructor|].
  apply all_in_app; split; [exact Hv | repeat constructor].
Qed.

(** ** The flattened map of a clean store *)

Lemma dict_set_fresh (V : Type) (d : dict V) (k : pystr) (v : V) :
  ~ In k (keys d) -> dict_set d k v = d ++ [(k, v)].
Proof.
  induction d as [|[k' v'] d IH]; cbn [dict_set keys map fst In app];
    intros H; [reflexivity|].
  destruct (str_eqb k' k) eqn:E.
  - apply str_eqb_eq in E. tauto.
  - rewrite IH by tauto. reflexivity.
Qed.

Lemma keys_app (V : Type) (d1 d2 : dict V) : keys (d1 ++ d2) = keys d1 ++ keys d2.
Proof. apply map_app. Qed.

Lemma NoDup_keys_filter (V : Type) (f : pystr * V -> bool) (d : dict V) :
  NoDup (keys d) -> NoDup (keys (filter f d)).
Proof.
  induction d as [|kv d IH]; cbn [filter keys map]; intros H; [constructor|].
  inversion H as [|? ? Hnotin Hnd]; subst.
  destruct (f kv); [|now apply IH].
  cbn [keys map]. constructor; [|now apply IH].
  intros Hin. apply Hnotin. unfold keys in *.
  apply in_map_iff in Hin. destruct Hin as (x & Hx & Hin).
  apply filter_In in Hin. destruct Hin as [Hin _].
  rewrite <- Hx. now apply in_map.
Qed.

Lemma flatten_fold_append (ci : dict pyval) (res : dict pystr) :
  NoDup (keys ci) ->
  (forall k v, In (k, v) ci -> is_none v = false ->
               ~ In (ROOT ++ k) (keys res)) ->
  fold_left flatten ci res = res ++ emitted ci.
Proof.
  unfold emitted.
  revert res; induction ci as [|[k0 v0] ci IH]; intros res Hnd Hfresh.
  - cbn. now rewrite app_nil_r.
  - inversion Hnd as [|? ? Hnotin Hnd']; subst.
    cbn [fold_left filter]. unfold flatten at 2. cbn [fst snd].
    destruct (is_none v0) eqn:E; cbn [negb].
    + apply IH; [exact Hnd'|].
      intros k v Hin. apply Hfresh. right; exact Hin.
    + rewrite dict_set_fresh
        by (apply (Hfresh k0 v0); [left; reflexivity | exact E]).
      rewrite IH; [cbn [map fst snd]; rewrite <- app_assoc; reflexivity
                  | exact Hnd' |].
      intros k v Hin Hv. rewrite keys_app. intros Hin'.
      apply in_app_or in Hin'. destruct Hin' as [Hin'|[Heq|[]]].
      * eapply Hfresh; [right; exact Hin | exact Hv | exact Hin'].
      * cbn [fst] in Heq. apply app_inv_head in Heq. subst k0.
        apply Hnotin. change k with (fst (k, v)). now apply in_map.
Qed.

Lemma clean_key_not_topic_path (k : pystr) :
  clean_key k -> ROOT ++ k <> TOPIC_KEY.
Proof.
  intros (_ & _ & Hslash & _) Heq.
  change TOPIC_KEY with (ROOT ++ lit "topic/name") in Heq.
  apply app_inv_head in Heq. subst k.
  unfold Re.all_in in Hslash. rewrite Forall_forall in Hslash.
  specialize (Hslash 47). cbv in Hslash.
  assert (false = true) by (apply Hslash; tauto). discriminate.
Qed.

Lemma to_list_clean (st : store) :
  wf_store st -> clean_store st ->
  to_list st
  = topic_entry (topic_info st)
    ++ match custom_info st with
       | Some ci => emitted ci
       | None => []
       end.
Proof.
  intros Hwf [_ Hclean]. unfold to_list, wf_store in *.
  assert (Hres : match topic_info st with
                 | Some t => dict_set [] TOPIC_KEY t
                 | None => []
                 end = topic_entry (topic_info st)).
  { destruct (topic_info st); reflexivity. }
  rewrite Hres.
  destruct (custom_info st) as [ci|]; [|now rewrite app_nil_r].
  apply flatten_fold_append; [exact Hwf|].
  intros k v Hin Hv Hkey.
  destruct (Hclean ci k v eq_refl Hin) as [Hk _].
  { now apply StoreFacts.is_none_false. }
  destruct (topic_info st); cbn in Hkey; [|exact Hkey].
  destruct Hkey as [Heq|[]]. symmetry in Heq.
  now apply clean_key_not_topic_path in Heq.
Qed.

(** ** The loop over the lines of a clean store *)

Lemma parse_emitted (entries : dict pyval) (acc : parsed) :
  (forall k v, In (k, v) entries -> clean_key k /\ clean_value (py_str v)) ->
  NoDup (keys entries) ->
  (forall k, In k (keys entries) -> ~ In k (keys (snd acc))) ->
  fold_left parse_line
    (map render (map (fun kv => (ROOT ++ fst kv, py_str (snd kv))) entries))
    acc
  = (fst acc,
     snd acc ++ map (fun kv => (fst kv, PyStr (py_str (snd kv)))) entries).
Proof.
  revert acc; induction entries as [|[k v] entries IH];
    intros acc Hclean Hnd Hfresh.
  - cbn. rewrite app_nil_r. now destruct acc.
  - inversion Hnd as [|? ? Hnotin Hnd']; subst.
    cbn [map fold_left fst snd].
    destruct (Hclean k v (or_introl eq_refl)) as [Hk Hv].
    rewrite (parse_custom_line acc Hk Hv).
    rewrite IH.
    + cbn [fst snd].
      rewrite dict_set_fresh by (apply Hfresh; left; reflexivity).
      rewrite <- app_assoc. reflexivity.
    + intros k' v' Hin. apply Hclean. right; exact Hin.
    + exact Hnd'.
    + intros k' Hin. cbn [snd].
      rewrite dict_set_fresh by (apply Hfresh; left; reflexivity).
      rewrite keys_app. intros Hin'. apply in_app_or in Hin'.
      destruct Hin' as [Hin'|[Heq|[]]].
      * eapply Hfresh; [right; exact Hin | exact Hin'].
      * cbn [fst] in Heq. subst k'. contradiction.
Qed.

Lemma emitted_clean (st : store) (ci : dict pyval) :
  clean_store st -> custom_info st = Some ci ->
  forall k v, In (k, v) (filter (fun kv => negb (is_none (snd kv))) ci) ->
              clean_key k /\ clean_value (py_str v).
Proof.
  intros [_ Hclean] Hci k v Hin. apply filter_In in Hin.
  destruct Hin as [Hin Hv]. cbn [snd] in Hv. apply negb_true_iff in Hv.
  apply (Hclean ci k v Hci Hin). now apply StoreFacts.is_none_false.
Qed.

Lemma parse_clean_store (st : store) :
  wf_store st -> clean_store st ->
  fold_left parse_line (map render (to_list st)) (None, [])
  = (topic_info st,
     match custom_info st with
     | Some ci => stringified ci
     | None => []
     end).
Proof.
  intros Hwf Hclean. rewrite (to_list_clean Hwf Hclean).
  rewrite map_app, fold_left_app.
  assert (Htopic : fold_left parse_line
                     (map render (topic_entry (topic_info st))) (None, [])
                   = (topic_info st, @nil (pystr * pyval))).
  { destruct (topic_info st) as [t|] eqn:Et; [|reflexivity].
    cbn [topic_entry map fold_left].
    rewrite parse_topic_line; [reflexivity|].
    destruct Hclean as [Ht _]. now apply Ht. }
  rewrite Htopic.
  destruct (custom_info st) as [ci|] eqn:Eci; [|reflexivity].
  unfold emitted. rewrite parse_emitted.
  - reflexivity.
  - now apply (emitted_clean Hclean).
  - apply NoDup_keys_filter. unfold wf_store in Hwf. now rewrite Eci in Hwf.
  - intros k _ [].
Qed.

Lemma to_list_one_line (st : store) :
  wf_store st -> clean_store st ->
  forall l, In l (map render (to_list st)) -> one_line l.
Proof.
  intros Hwf Hclean l Hin. rewrite (to_list_clean Hwf Hclean) in Hin.
  apply in_map_iff in Hin. destruct Hin as ([key v] & <- & Hin).
  apply in_app_or in Hin. destruct Hin as [Hin|Hin].
  - destruct (topic_info st) as [t|] eqn:Et; [|destruct Hin].
    destruct Hin as [Heq|[]]. injection Heq as <- <-.
    apply render_one_line; [repeat constructor|].
    destruct Hclean as [Ht _]. now apply Ht.
  - destruct (custom_info st) as [ci|] eqn:Eci; [|destruct Hin].
    unfold emitted in Hin. apply in_map_iff in Hin.
    destruct Hin as ([k pv] & Heq & Hin). cbn [fst snd] in Heq.
    injection Heq as <- <-.
    destruct (emitted_clean Hclean Eci _ _ Hin)
      as [(_ & _ & _ & _ & Hk) (_ & Hv)].
    apply render_one_line; [|exact Hv].
    change (one_line (ROOT ++ k)).
    apply all_in_app; split; [repeat constructor | exact Hk].
Qed.

(** The header of a clean store, decoded into any store, gives the topic
    and the stringified custom entries of the encoded store. *)
Lemma from_header_to_header (st tgt : store) (header : pystr) :
  wf_store st -> clean_store st ->
  to_header st = Ok header ->
  from_header tgt header = Ok (decoded_from st tgt).
Proof.
  intros Hwf Hclean Hh.
  destruct (to_list st) as [|e d] eqn:El.
  - unfold to_header in Hh. rewrite El in Hh. apply TransportFacts.Ok_inj in Hh. subst header.
    cbn. f_equal.
    pose proof (to_list_clean Hwf Hclean) as Hl. rewrite El in Hl.
    symmetry in Hl. apply app_eq_nil in Hl. destruct Hl as [Ht Hc].
    unfold decoded_from.
    destruct (topic_info st); [discriminate|].
    destruct (custom_info st) as [ci|]; [|now destruct tgt].
    unfold emitted in Hc. apply map_eq_nil in Hc.
    unfold stringified. rewrite Hc. now destruct tgt.
  - assert (Hne : to_list st <> []) by (rewrite El; discriminate).
    destruct (@HeaderFacts.header_transport st tgt header Hne Hh) as [_ Hfrom].
    rewrite Hfrom. f_equal. unfold install, json_str.
    rewrite split_lines_join.
    + rewrite (parse_clean_store Hwf Hclean). cbn [fst snd].
      unfold decoded_from.
      destruct (topic_info st) as [t|];
        destruct (custom_info st) as [ci|]; cbn [set_topic_info topic_info].
      * destruct (stringified ci); reflexivity.
      * reflexivity.
      * destruct (stringified ci); [now destruct tgt | reflexivity].
      * now destruct tgt.
    + rewrite El. discriminate.
    + now apply to_list_one_line.
Qed.

End RoundTripFacts.

(* ================================================================== *)
(** * More facts about dictionaries *)
(* ================================================================== *)

Module DictFacts.
Import PyFacts.

Section Dict.
Variable V : Type.
Implicit Types (d other : dict V) (k : pystr) (v : V).

Lemma dict_get_update other d k :
  NoDup (keys other) ->
  dict_get (dict_update d other) k
  = match dict_get other k with
    | Some v => Some v
    | None => dict_get d k
    end.
Proof.
  unfold dict_update.
  revert d; induction other as [|[k0 v0] other IH]; intros d Hnd;
    [reflexivity|].
  inversion Hnd as [|? ? Hnotin Hnd']; subst.
  cbn [fold_left fst snd dict_get].
  rewrite IH by exact Hnd'.
  destruct (str_eqb k0 k) eqn:E.
  - apply str_eqb_eq in E; subst k0.
    apply dict_get_None in Hnotin. rewrite Hnotin.
    apply dict_get_set_same.
  - apply str_eqb_neq in E.
    now rewrite dict_get_set_other by exact E.
Qed.

Lemma dict_set_In d k v k' v' :
  In (k', v') (dict_set d k v) -> (k', v') = (k, v) \/ In (k', v') d.
Proof.
  induction d as [|[k0 v0] d IH]; cbn [dict_set].
  - intros [H|[]]; left; now symmetry.
  - destruct (str_eqb k0 k) eqn:E.
    + apply str_eqb_eq in E; subst k0.
      intros [H|H]; [left; now symmetry | right; right; exact H].
    + intros [H|H]; [right; left; exact H|].
      destruct (IH H); [left | right; right]; assumption.
Qed.

Lemma existsb_keys d k :
  existsb (str_eqb k) (keys d) = dict_contains d k.
Proof.
  unfold dict_contains.
  induction d as [|[k0 v0] d IH]; cbn [keys map fst existsb dict_get];
    [reflexivity|].
  rewrite (str_eqb_sym k k0). destruct (str_eqb k0 k); [reflexivity|].
  exact IH.
Qed.

Lemma dict_set_keys_fresh d k v :
  dict_contains d k = false -> keys (dict_set d k v) = keys d ++ [k].
Proof.
  unfold dict_contains.
  induction d as [|[k0 v0] d IH]; cbn [dict_set dict_get keys map fst app];
    [reflexivity|].
  destruct (str_eqb k0 k); [discriminate|].
  intros H. cbn [map fst]. f_equal. now apply IH.
Qed.
End Dict.

End DictFacts.

(* ================================================================== *)
(** * The custom map: assignment and the log record's extra *)
(* ================================================================== *)

Module ContextFacts.
Import LogHelper LogExtra PyFacts DictFacts.

(** X1.  [set_custom_info] is an assignment into the custom map.  After
    it the key is bound to the value given, every other key is bound as
    before, and the topic is the same.  A key that was there keeps its
    place in the order of the keys; a new key goes to the end.  The keys
    stay unique. *)
Theorem set_custom_info_assigns (st : store) (k : pystr) (v : pyval) :
  let st' := set_custom_info st k v in
  custom_get st' k = Some v
  /\ (forall k', k' <> k -> custom_get st' k' = custom_get st k')
  /\ topic_info st' = topic_info st
  /\ custom_keys st'
     = (if existsb (str_eqb k) (custom_keys st) then custom_keys st
        else custom_keys st ++ [k])
  /\ (wf_store st -> wf_store st').
Proof.
  intros st'. subst st'.
  unfold custom_get, custom_keys, wf_store, set_custom_info;
    cbn [custom_info topic_info].
  split; [apply dict_get_set_same|].
  split.
  { intros k' Hne. rewrite dict_get_set_other by congruence.
    destruct (custom_info st); reflexivity. }
  split; [reflexivity|].
  split.
  - destruct (custom_info st) as [ci|]; [|reflexivity].
    rewrite existsb_keys.
    destruct (dict_contains ci k) eqn:E.
    + now apply PropagatorFacts.dict_set_keys.
    + now apply dict_set_keys_fresh.
  - intros Hwf. apply dict_set_NoDup.
    destruct (custom_info st); [exact Hwf | constructor].
Qed.

(** X2.  [_get_extra] gives the caller's [extra] the last word.  A key
    of [extra] is bound in the result to its value in [extra], the key
    [custom] included; any other key is unbound, except [custom], which is
    bound to the custom map when there is one.  With no [extra], or an
    empty one, the result has at most the [custom] entry. *)
Theorem get_extra_lookup (st : store) (extra : dict extra_val)
        (key : pystr) :
  NoDup (keys extra) ->
  dict_get (_get_extra st (Some extra)) key
  = match dict_get extra key with
    | Some v => Some v
    | None =>
        if str_eqb (lit "custom") key
        then option_map ExtraCustom (custom_info st)
        else None
    end
  /\ dict_get (_get_extra st None) key
     = (if str_eqb (lit "custom") key
        then option_map ExtraCustom (custom_info st)
        else None).
Proof.
  intros Hnd.
  assert (Hbase : forall k,
             dict_get (match custom_info st with
                       | Some custom =>
                           dict_set [] (lit "custom") (ExtraCustom custom)
                       | None => []
                       end) k
             = if str_eqb (lit "custom") k
               then option_map ExtraCustom (custom_info st) else None).
  { intros k. destruct (custom_info st) as [ci|];
      cbn [dict_set dict_get option_map];
      destruct (str_eqb (lit "custom") k); reflexivity. }
  split; [|apply Hbase].
  unfold _get_extra. destruct extra as [|e es].
  - cbn [dict_get]. apply Hbase.
  - rewrite dict_get_update by exact Hnd.
    destruct (dict_get (e :: es) key); [reflexivity | apply Hbase].
Qed.

Lemma get_extra_lookup_witness :
  dict_get (_get_extra Examples.ctx_a1
              (Some [(lit "custom", ExtraOther (PyInt 1))]))
           (lit "custom")
  = Some (ExtraOther (PyInt 1))
  /\ dict_get (_get_extra Examples.ctx_a1 None) (lit "custom")
     = Some (ExtraCustom [(lit "a", PyStr (lit "1"))]).
Proof.
  apply (@get_extra_lookup Examples.ctx_a1
           [(lit "custom", ExtraOther (PyInt 1))] (lit "custom")).
  repeat constructor. intros [].
Defined.

End ContextFacts.

(* ================================================================== *)
(** * The header as a string *)
(* ================================================================== *)

Module HeaderTextFacts.
Import LogHelper Transport PyFacts TransportFacts HeaderFacts.
Local Open Scope N_scope.

Lemma encode_char_scalar (c : N) :
  (scalar c = true -> exists b, Utf8.encode_char c = Ok b)
  /\ (scalar c = false -> Utf8.encode_char c = Raise UnicodeEncodeError).
Proof.
  unfold scalar, Utf8.encode_char, Utf8.is_surrogate.
  destruct (N.ltb_spec c 0x80); destruct (N.ltb_spec c 0x800);
    destruct (N.ltb_spec c 0xD800); destruct (N.ltb_spec 0xDFFF c);
    destruct (N.leb_spec 0xD800 c); destruct (N.leb_spec c 0xDFFF);
    destruct (N.ltb_spec c 0x10000); destruct (N.ltb_spec c 0x110000);
    cbn [andb orb]; try lia;
    (split; intros; [eauto | ]; try reflexivity; try discriminate).
Qed.

Lemma encode_scalar (s : pystr) :
  (forallb scalar s = true -> exists bs, Utf8.encode s = Ok bs)
  /\ (forallb scalar s = false -> Utf8.encode s = Raise UnicodeEncodeError).
Proof.
  induction s as [|c s [IHt IHf]]; cbn [forallb Utf8.encode].
  - split; [eauto | discriminate].
  - destruct (encode_char_scalar c) as [Ht Hf].
    destruct (scalar c); cbn [andb].
    + destruct (Ht eq_refl) as [b ->]. cbn [bind]. split.
      * intros H. destruct (IHt H) as [bs ->]. cbn [bind]. eauto.
      * intros H. now rewrite (IHf H).
    + rewrite (Hf eq_refl). cbn [bind]. split; [discriminate | reflexivity].
Qed.

Lemma In_join (c : N) (l : pystr) (ls : list pystr) :
  In l ls -> In c l -> In c (join [10] ls).
Proof.
  induction ls as [|l0 ls IH]; [intros []|].
  intros Hin Hc. destruct ls as [|l1 ls].
  - destruct Hin as [->|[]]. exact Hc.
  - change (join [10] (l0 :: l1 :: ls))
      with (l0 ++ [10] ++ join [10] (l1 :: ls)).
    apply in_or_app. destruct Hin as [->|Hin]; [left; exact Hc|].
    right. apply in_or_app. right. now apply IH.
Qed.

Lemma In_json_str (c : N) (k v : pystr) (d : dict pystr) :
  In (k, v) d -> In c k \/ In c v -> In c (json_str d).
Proof.
  intros Hin Hc. unfold json_str.
  apply (@In_join c (render (k, v))); [now apply in_map|].
  unfold render; cbn [fst snd]. destruct Hc as [Hc|Hc].
  - apply in_or_app; left; exact Hc.
  - apply in_or_app; right. apply in_or_app; right.
    apply in_or_app; right. apply in_or_app; left; exact Hc.
Qed.

Lemma forallb_false_In (f : N -> bool) (c : N) (s : pystr) :
  In c s -> f c = false -> forallb f s = false.
Proof.
  intros Hin Hc. destruct (forallb f s) eqn:E; [|reflexivity].
  rewrite forallb_forall in E. rewrite (E c Hin) in Hc. discriminate.
Qed.

(** X3.  What [to_header] returns is a padded base64url string: letters,
    digits, [-] and [_], then at most two [=], on a length that is a
    multiple of four.  It is the empty string exactly when [to_list] is
    empty. *)
Theorem to_header_shape (st : store) (header : pystr) :
  to_header st = Ok header ->
  (header = [] <-> to_list st = [])
  /\ exists body n k,
       header = body ++ repeat Base64.BASE64_PAD n
       /\ Base64.alphabet body /\ (n <= 2)%nat
       /\ List.length header = (4 * k)%nat.
Proof.
  unfold to_header. destruct (to_list st) as [|e d] eqn:El.
  - intros H; apply Ok_inj in H; subst header.
    split; [tauto|]. exists [], 0%nat, 0%nat.
    repeat split; auto. constructor.
  - destruct (Utf8.encode (json_str (e :: d))) as [bs|x] eqn:Ee;
      [|discriminate].
    cbn [bind]. intros H; apply Ok_inj in H; subst header.
    split.
    + split; [|discriminate]. intros Hnil. exfalso.
      pose proof (@encode_not_nil _ _ (@json_str_not_nil e d) Ee) as Hbs.
      destruct bs as [|b bs]; [congruence|].
      destruct (urlsafe_b64encode_head b bs) as (c & r & Hc & _).
      congruence.
    + destruct (CodecFacts.urlsafe_b64encode_shape bs)
        as (body & k & Hshape & Hal & Hlen).
      exists body, (Base64.pad_length (List.length bs)), k.
      repeat split; auto.
      * apply CodecFacts.pad_length_le.
      * rewrite Hshape, length_app, repeat_length. exact Hlen.
Qed.

Lemma to_header_shape_witness :
  (Examples.header_t1 = [] <-> to_list Examples.ctx_t1 = [])
  /\ exists body n k,
       Examples.header_t1 = body ++ repeat Base64.BASE64_PAD n
       /\ Base64.alphabet body /\ (n <= 2)%nat
       /\ List.length Examples.header_t1 = (4 * k)%nat.
Proof.
  apply (@to_header_shape Examples.ctx_t1 Examples.header_t1).
  vm_compute. reflexivity.
Defined.

(** X4.  [to_header] is not total.  It returns exactly when every
    character of the text it builds can be carried by UTF-8, and raises
    [UnicodeEncodeError] otherwise; a lone surrogate in the topic, in a
    custom key or in the text of a custom value is enough.  Neither
    [capture_context_header] nor [publish_message] catches the error:
    [capture_context_header] raises when [to_header] does, and so does
    [publish_message] when the tracer and the settings are configured;
    when one of them is not, [publish_message] raises [AttributeError]
    before it comes to the header. *)
Theorem to_header_raises (st : store) :
  ((exists header, to_header st = Ok header)
   <-> forallb scalar (json_str (to_list st)) = true)
  /\ (to_header st = Raise UnicodeEncodeError
      <-> forallb scalar (json_str (to_list st)) = false)
  /\ (forall c t, topic_info st = Some t -> topic_key_free st ->
                  In c t -> scalar c = false ->
                  to_header st = Raise UnicodeEncodeError)
  /\ (forall c ci k v, wf_store st -> custom_info st = Some ci ->
                       In (k, v) ci -> v <> PyNone ->
                       In c k \/ In c (py_str v) -> scalar c = false ->
                       to_header st = Raise UnicodeEncodeError)
  /\ (forall e, to_header st = Raise e ->
        ResultWrapper.capture_context_header st = Raise e
        /\ forall name inject cfg attributes,
             PubSub.publish_message name inject cfg st attributes
             = Raise (if PubSub.has_tracer cfg && PubSub.has_settings cfg
                      then e else AttributeError)).
Proof.
  assert (Hmain :
    (forallb scalar (json_str (to_list st)) = true ->
     exists header, to_header st = Ok header)
    /\ (forallb scalar (json_str (to_list st)) = false ->
        to_header st = Raise UnicodeEncodeError)).
  { unfold to_header. destruct (to_list st) as [|e d].
    - split; [eauto | discriminate].
    - destruct (encode_scalar (json_str (e :: d))) as [Ht Hf]. split.
      + intros H. destruct (Ht H) as [bs ->]. cbn [bind]. eauto.
      + intros H. now rewrite (Hf H). }
  destruct Hmain as [Ht Hf].
  assert (Hin : forall c k v, In (k, v) (to_list st) ->
                  In c k \/ In c v -> scalar c = false ->
                  to_header st = Raise UnicodeEncodeError).
  { intros c k v Hkv Hc Hs. apply Hf.
    apply (@forallb_false_In scalar c); [|exact Hs].
    now apply (@In_json_str c k v). }
  split; [|split; [|split; [|split]]].
  - split; [|exact Ht].
    intros [header Hh].
    destruct (forallb scalar (json_str (to_list st))); [reflexivity|].
    rewrite (Hf eq_refl) in Hh. discriminate.
  - split; [|exact Hf].
    intros Hr.
    destruct (forallb scalar (json_str (to_list st))); [|reflexivity].
    destruct (Ht eq_refl) as [header Hh]. rewrite Hh in Hr. discriminate.
  - intros c t Htopic Hfree Hc Hs.
    apply (Hin c TOPIC_KEY t); [|right; exact Hc | exact Hs].
    apply dict_get_In. unfold to_list, topic_key_free in *.
    rewrite Htopic.
    destruct (custom_info st) as [ci|].
    + rewrite StoreFacts.flatten_get_other.
      * cbn. reflexivity.
      * intros k v Hkv _ Heq. apply Hfree.
        change TOPIC_KEY with (ROOT ++ lit "topic/name") in Heq.
        apply app_inv_head in Heq. subst k.
        change (lit "topic/name") with (fst (lit "topic/name", v)).
        now apply in_map.
    + reflexivity.
  - intros c ci k v Hwf Hci Hkv Hv Hc Hs.
    apply (Hin c (ROOT ++ k) (py_str v)); [| |exact Hs].
    + now apply (@ParseFacts.to_list_In st ci).
    + destruct Hc as [Hc|Hc]; [left | right; exact Hc].
      apply in_or_app; right; exact Hc.
  - intros e He. split; [exact He|].
    intros name inject cfg attributes. unfold PubSub.publish_message.
    destruct (PubSub.has_tracer cfg); [|reflexivity].
    destruct (PubSub.has_settings cfg); [|reflexivity].
    cbn [negb andb]. now rewrite He.
Qed.

(** X5.  The two codecs lose nothing: when the context is not empty,
    the header [to_header] returns decodes (ASCII, base64url, UTF-8) to
    the very text that was encoded, and [from_header] then parses exactly
    that text, whatever store it is called in. *)
Theorem header_decodes_to_text (st : store) (header : pystr) :
  to_list st <> [] ->
  to_header st = Ok header ->
  decode_header header = Ok (json_str (to_list st))
  /\ (forall tgt,
        from_header tgt header = Ok (install tgt (json_str (to_list st)))).
Proof.
  intros Hne Hh. split.
  - apply (proj1 (@header_transport st empty_store header Hne Hh)).
  - intros tgt. apply (proj2 (@header_transport st tgt header Hne Hh)).
Qed.

Lemma header_decodes_to_text_witness :
  decode_header Examples.header_t1
  = Ok (json_str (to_list Examples.ctx_t1))
  /\ from_header empty_store Examples.header_t1
     = Ok (install empty_store (json_str (to_list Examples.ctx_t1))).
Proof.
  assert (Hne : to_list Examples.ctx_t1 <> []) by (vm_compute; discriminate).
  assert (Hh : to_header Examples.ctx_t1 = Ok Examples.header_t1)
    by (vm_compute; reflexivity).
  destruct (@header_decodes_to_text Examples.ctx_t1 Examples.header_t1 Hne Hh)
    as [H1 H2].
  split; [exact H1 | apply H2].
Defined.

End HeaderTextFacts.

(* ================================================================== *)
(** * What comes out of a header *)
(* ================================================================== *)

Module CarriedFacts.
Import LogHelper Transport PyFacts Clean Carried ParseFacts LineFacts
       RoundTripFacts.
Local Open Scope N_scope.

(** ** Keys with and without a slash *)

Lemma clean_no_slash (k : pystr) : clean_key k -> has_slash k = false.
Proof.
  intros (_ & _ & Hs & _). unfold has_slash.
  unfold Re.all_in, Re.not_char in Hs.
  induction Hs as [|c k Hc Hk IH]; [reflexivity|]. cbn [existsb].
  rewrite IH, orb_false_r. apply negb_true_iff in Hc.
  now rewrite N.eqb_sym.
Qed.

Lemma sectioned_has_slash (k : pystr) : sectioned_away k -> has_slash k = true.
Proof.
  intros (s & r & -> & _). unfold has_slash.
  rewrite existsb_app. cbn [app existsb]. rewrite N.eqb_refl.
  cbn [orb]. apply orb_true_r.
Qed.

Lemma sectioned_not_topic_path (k : pystr) :
  sectioned_away k -> ROOT ++ k <> TOPIC_KEY.
Proof.
  intros (s & r & -> & _ & Hs & Ht & _) Heq.
  change TOPIC_KEY with (ROOT ++ lit "topic" ++ [47] ++ lit "name") in Heq.
  apply app_inv_head in Heq.
  apply first_segment_unique in Heq;
    [contradiction | exact Hs | repeat constructor].
Qed.

(** ** One line with a sectioned key *)

Lemma parse_sectioned_line (acc : parsed) (k v : pystr) :
  sectioned_away k -> parse_line acc (render (ROOT ++ k, v)) = acc.
Proof.
  intros (s & r & -> & Hs & Hcs & Htopic & Hr & _ & Hcr).
  assert (Hmatch : exists g2 g3,
             pattern_with_section (render (ROOT ++ s ++ [47] ++ r, v))
             = Some (s, g2, g3)).
  { destruct (render_shape (s ++ [47] ++ r) v) as (v1 & tail & Heq & Hv1).
    rewrite Heq.
    destruct (pattern_with_section
                (ROOT ++ (s ++ [47] ++ r) ++ [58] ++ [32] ++ [34] ++ v1
                      ++ [34] ++ tail))
      as [[[g1 g2] g3]|] eqn:E.
    - pose proof (pattern_with_section_inv _ E)
        as (ws & tail' & Hline & _ & Hg1 & _).
      apply app_inv_head in Hline. rewrite <- !app_assoc in Hline.
      apply first_segment_unique in Hline; auto. subst g1. eauto.
    - exfalso. revert E. rewrite <- !app_assoc.
      apply pattern_with_section_complete; auto.
      repeat constructor. }
  destruct Hmatch as (g2 & g3 & Hm).
  unfold parse_line. rewrite render_strip, Hm.
  assert (Ht : truthy (render (ROOT ++ s ++ [47] ++ r, v)) = true)
    by reflexivity.
  rewrite Ht. cbn [negb].
  apply str_eqb_neq in Htopic. now rewrite Htopic.
Qed.

(** ** The flattened map and the loop over its lines *)

Lemma readable_entry (st : store) (ci : dict pyval) :
  readable_store st -> custom_info st = Some ci ->
  forall k v, In (k, v) (filter (fun kv => negb (is_none (snd kv))) ci) ->
              (clean_key k /\ clean_value (py_str v))
              \/ (sectioned_away k /\ one_line (py_str v)).
Proof.
  intros [_ Hread] Hci k v Hin. apply filter_In in Hin.
  destruct Hin as [Hin Hv]. cbn [snd] in Hv. apply negb_true_iff in Hv.
  apply (Hread ci k v Hci Hin). now apply StoreFacts.is_none_false.
Qed.

Lemma to_list_readable (st : store) :
  wf_store st -> readable_store st ->
  to_list st
  = topic_entry (topic_info st)
    ++ match custom_info st with
       | Some ci => emitted ci
       | None => []
       end.
Proof.
  intros Hwf [_ Hread]. unfold to_list, wf_store in *.
  assert (Hres : match topic_info st with
                 | Some t => dict_set [] TOPIC_KEY t
                 | None => []
                 end = topic_entry (topic_info st)).
  { destruct (topic_info st); reflexivity. }
  rewrite Hres.
  destruct (custom_info st) as [ci|]; [|now rewrite app_nil_r].
  apply flatten_fold_append; [exact Hwf|].
  intros k v Hin Hv Hkey.
  assert (Hne : ROOT ++ k <> TOPIC_KEY).
  { destruct (Hread ci k v eq_refl Hin) as [[Hk _]|[Hk _]].
    - now apply StoreFacts.is_none_false.
    - now apply clean_key_not_topic_path.
    - now apply sectioned_not_topic_path. }
  destruct (topic_info st); cbn in Hkey; [|exact Hkey].
  destruct Hkey as [Heq|[]]. now symmetry in Heq.
Qed.

Lemma parse_readable (entries : dict pyval) (acc : parsed) :
  (forall k v, In (k, v) entries ->
               (clean_key k /\ clean_value (py_str v)) \/ sectioned_away k) ->
  NoDup (keys entries) ->
  (forall k, In k (keys entries) -> ~ In k (keys (snd acc))) ->
  fold_left parse_line
    (map render (map (fun kv => (ROOT ++ fst kv, py_str (snd kv))) entries))
    acc
  = (fst acc,
     snd acc ++ map (fun kv => (fst kv, PyStr (py_str (snd kv))))
                    (filter (fun kv => negb (has_slash (fst kv))) entries)).
Proof.
  revert acc; induction entries as [|[k v] entries IH];
    intros acc Hall Hnd Hfresh.
  - cbn. rewrite app_nil_r. now destruct acc.
  - inversion Hnd as [|? ? Hnotin Hnd']; subst.
    cbn [map fold_left filter fst snd].
    destruct (Hall k v (or_introl eq_refl)) as [[Hk Hv]|Hk].
    + rewrite (parse_custom_line acc Hk Hv).
      rewrite (clean_no_slash Hk). cbn [negb map fst snd].
      rewrite IH.
      * cbn [fst snd].
        rewrite dict_set_fresh by (apply Hfresh; left; reflexivity).
        rewrite <- app_assoc. reflexivity.
      * intros k' v' Hin. apply Hall. right; exact Hin.
      * exact Hnd'.
      * intros k' Hin. cbn [snd].
        rewrite dict_set_fresh by (apply Hfresh; left; reflexivity).
        rewrite keys_app. intros Hin'. apply in_app_or in Hin'.
        destruct Hin' as [Hin'|[Heq|[]]].
        -- eapply Hfresh; [right; exact Hin | exact Hin'].
        -- cbn [fst] in Heq. subst k'. contradiction.
    + rewrite (parse_sectioned_line acc (py_str v) Hk).
      rewrite (sectioned_has_slash Hk). cbn [negb].
      apply IH.
      * intros k' v' Hin. apply Hall. right; exact Hin.
      * exact Hnd'.
      * intros k' Hin. apply Hfresh. right; exact Hin.
Qed.

Lemma filter_twice (A : Type) (f g : A -> bool) (l : list A) :
  filter g (filter f l) = filter (fun x => f x && g x) l.
Proof.
  induction l as [|a l IH]; [reflexivity|]. cbn [filter].
  destruct (f a); cbn [andb filter]; [|exact IH].
  destruct (g a); now rewrite IH.
Qed.

Lemma carried_filter (ci : dict pyval) :
  carried ci
  = map (fun kv => (fst kv, PyStr (py_str (snd kv))))
        (filter (fun kv => negb (has_slash (fst kv)))
                (filter (fun kv => negb (is_none (snd kv))) ci)).
Proof. unfold carried. now rewrite filter_twice. Qed.

Lemma parse_readable_store (st : store) :
  wf_store st -> readable_store st ->
  fold_left parse_line (map render (to_list st)) (None, [])
  = (topic_info st,
     match custom_info st with
     | Some ci => carried ci
     | None => []
     end).
Proof.
  intros Hwf Hread. rewrite (to_list_readable Hwf Hread).
  rewrite map_app, fold_left_app.
  assert (Htopic : fold_left parse_line
                     (map render (topic_entry (topic_info st))) (None, [])
                   = (topic_info st, @nil (pystr * pyval))).
  { destruct (topic_info st) as [t|] eqn:Et; [|reflexivity].
    cbn [topic_entry map fold_left].
    rewrite parse_topic_line; [reflexivity|].
    destruct Hread as [Ht _]. now apply Ht. }
  rewrite Htopic.
  destruct (custom_info st) as [ci|] eqn:Eci; [|reflexivity].
  unfold emitted. rewrite parse_readable.
  - cbn [fst snd app]. now rewrite carried_filter.
  - intros k v Hin.
    destruct (readable_entry Hread Eci _ _ Hin) as [H|[H _]]; auto.
  - apply NoDup_keys_filter. unfold wf_store in Hwf. now rewrite Eci in Hwf.
  - intros k _ [].
Qed.

Lemma sectioned_one_line (k : pystr) : sectioned_away k -> one_line k.
Proof.
  intros (s & r & -> & _ & _ & _ & _ & Hs & Hr). unfold one_line.
  apply all_in_app; split; [exact Hs|].
  apply all_in_app; split; [repeat constructor | exact Hr].
Qed.

Lemma to_list_lines_readable (st : store) :
  wf_store st -> readable_store st ->
  forall l, In l (map render (to_list st)) -> one_line l.
Proof.
  intros Hwf Hread l Hin. rewrite (to_list_readable Hwf Hread) in Hin.
  apply in_map_iff in Hin. destruct Hin as ([key v] & <- & Hin).
  apply in_app_or in Hin. destruct Hin as [Hin|Hin].
  - destruct (topic_info st) as [t|] eqn:Et; [|destruct Hin].
    destruct Hin as [Heq|[]]. injection Heq as <- <-.
    apply render_one_line; [repeat constructor|].
    destruct Hread as [Ht _]. now apply Ht.
  - destruct (custom_info st) as [ci|] eqn:Eci; [|destruct Hin].
    unfold emitted in Hin. apply in_map_iff in Hin.
    destruct Hin as ([k pv] & Heq & Hin). cbn [fst snd] in Heq.
    injection Heq as <- <-.
    assert (Hk : one_line k /\ one_line (py_str pv)).
    { destruct (readable_entry Hread Eci _ _ Hin)
        as [[(_ & _ & _ & _ & Hk) (_ & Hv)]|[Hk Hv]]; [auto|].
      split; [now apply sectioned_one_line | exact Hv]. }
    destruct Hk as [Hk Hv].
    apply render_one_line; [|exact Hv].
    change (one_line (ROOT ++ k)).
    apply all_in_app; split; [repeat constructor | exact Hk].
Qed.

Lemma received_of_empty (st tgt : store) :
  wf_store st -> readable_store st -> to_list st = [] ->
  received st tgt = tgt.
Proof.
  intros Hwf Hread El.
  pose proof (to_list_readable Hwf Hread) as Hl. rewrite El in Hl.
  symmetry in Hl. apply app_eq_nil in Hl. destruct Hl as [Ht Hc].
  unfold received.
  destruct (topic_info st); [discriminate|].
  destruct (custom_info st) as [ci|]; [|now destruct tgt].
  unfold emitted in Hc. apply map_eq_nil in Hc.
  rewrite carried_filter, Hc. now destruct tgt.
Qed.

Lemma from_header_received (st tgt : store) (header : pystr) :
  wf_store st -> readable_store st ->
  to_header st = Ok header ->
  from_header tgt header = Ok (received st tgt).
Proof.
  intros Hwf Hread Hh.
  destruct (to_list st) as [|e d] eqn:El.
  - rewrite (received_of_empty tgt Hwf Hread El).
    unfold to_header in Hh. rewrite El in Hh.
    apply TransportFacts.Ok_inj in Hh. now subst header.
  - assert (Hne : to_list st <> []) by (rewrite El; discriminate).
    destruct (@HeaderFacts.header_transport st tgt header Hne Hh)
      as [_ Hfrom].
    rewrite Hfrom. f_equal. unfold install, json_str.
    rewrite split_lines_join.
    + rewrite (parse_readable_store Hwf Hread). cbn [fst snd].
      unfold received.
      destruct (topic_info st) as [t|];
        destruct (custom_info st) as [ci|]; cbn [set_topic_info topic_info].
      * destruct (carried ci); reflexivity.
      * reflexivity.
      * destruct (carried ci); [now destruct tgt | reflexivity].
      * now destruct tgt.
    + rewrite El. discriminate.
    + now apply to_list_lines_readable.
Qed.



End CarriedFacts.

(* ================================================================== *)
(** * A clean context and its header *)
(* ================================================================== *)

Module StableFacts.
Import LogHelper Clean PyFacts RoundTripFacts.
Local Open Scope N_scope.

Lemma emitted_stringified (ci : dict pyval) :
  emitted (stringified ci) = emitted ci.
Proof.
  unfold emitted, stringified.
  induction ci as [|[k v] ci IH]; [reflexivity|].
  cbn [filter snd]. destruct (is_none v) eqn:E; cbn [negb]; [exact IH|].
  cbn [map filter fst snd is_none negb py_str]. now rewrite IH.
Qed.

Lemma stringified_strings (ci : dict pyval) :
  Forall (fun kv => exists s, snd kv = PyStr s) ci -> stringified ci = ci.
Proof.
  unfold stringified.
  induction 1 as [|[k v] ci [s Hs] Hall IH]; [reflexivity|].
  cbn [snd] in Hs. subst v.
  cbn [filter map fst snd is_none negb py_str]. now rewrite IH.
Qed.

Lemma stringified_In (ci : dict pyval) (k : pystr) (v : pyval) :
  In (k, v) (stringified ci) ->
  exists v0, In (k, v0) ci /\ v0 <> PyNone /\ v = PyStr (py_str v0).
Proof.
  unfold stringified. intros Hin. apply in_map_iff in Hin.
  destruct Hin as ([k0 v0] & Heq & Hin). cbn [fst snd] in Heq.
  injection Heq as <- <-. apply filter_In in Hin. destruct Hin as [Hin Hv].
  cbn [snd] in Hv. apply negb_true_iff in Hv.
  exists v0. repeat split; auto. now apply StoreFacts.is_none_false.
Qed.

Lemma stringified_NoDup (ci : dict pyval) :
  NoDup (keys ci) -> NoDup (keys (stringified ci)).
Proof.
  intros H. unfold stringified, keys. rewrite map_map. cbn [fst].
  now apply (@NoDup_keys_filter pyval).
Qed.

Lemma decoded_custom (st : store) (d : dict pyval) :
  custom_info (decoded_from st empty_store) = Some d ->
  exists ci, custom_info st = Some ci /\ d = stringified ci.
Proof.
  unfold decoded_from; cbn [custom_info empty_store].
  destruct (custom_info st) as [ci|]; [|discriminate].
  destruct (stringified ci) eqn:E; [discriminate|].
  intros [= <-]. eauto.
Qed.

Lemma decoded_wf (st : store) :
  wf_store st -> wf_store (decoded_from st empty_store).
Proof.
  intros Hwf. unfold wf_store.
  destruct (custom_info (decoded_from st empty_store)) as [d|] eqn:E;
    [|exact I].
  apply decoded_custom in E. destruct E as (ci & Hci & ->).
  apply stringified_NoDup. unfold wf_store in Hwf. now rewrite Hci in Hwf.
Qed.

Lemma decoded_clean (st : store) :
  clean_store st -> clean_store (decoded_from st empty_store).
Proof.
  intros [Ht Hc]. split.
  - intros t. unfold decoded_from; cbn [topic_info empty_store].
    destruct (topic_info st) as [t0|]; [|discriminate].
    intros [= <-]. now apply Ht.
  - intros d k v Hd Hin _.
    apply decoded_custom in Hd. destruct Hd as (ci & Hci & ->).
    apply stringified_In in Hin. destruct Hin as (v0 & Hin & Hv0 & ->).
    cbn [py_str]. now apply (Hc ci).
Qed.

Lemma decoded_to_list (st : store) :
  wf_store st -> clean_store st ->
  to_list (decoded_from st empty_store) = to_list st.
Proof.
  intros Hwf Hclean.
  rewrite (@to_list_clean _ (@decoded_wf st Hwf) (@decoded_clean st Hclean)).
  rewrite (@to_list_clean st Hwf Hclean).
  unfold decoded_from; cbn [topic_info custom_info empty_store].
  f_equal; [destruct (topic_info st); reflexivity|].
  destruct (custom_info st) as [ci|]; [|reflexivity].
  rewrite <- (emitted_stringified ci).
  destruct (stringified ci); reflexivity.
Qed.

(** X7.  A clean context goes through the header and back.  For a
    context with unique keys in which the topic and every custom entry
    that has a value are clean, decoding the header in a fresh store gives
    a context with the same flattened map, hence the same header: encoding
    again changes nothing.  The decoded context is the very context that
    was encoded when, in addition, the custom map is absent or has at
    least one entry and holds strings only. *)
Theorem clean_round_trip (st : store) (header : pystr) :
  wf_store st -> clean_store st ->
  to_header st = Ok header ->
  exists st',
    from_header empty_store header = Ok st'
    /\ to_list st' = to_list st
    /\ to_header st' = Ok header
    /\ ((forall ci, custom_info st = Some ci ->
           ci <> [] /\ Forall (fun kv => exists s, snd kv = PyStr s) ci) ->
        st' = st).
Proof.
  intros Hwf Hclean Hh. exists (decoded_from st empty_store).
  split; [now apply from_header_to_header|].
  pose proof (@decoded_to_list st Hwf Hclean) as Hl.
  split; [exact Hl|]. split.
  - unfold to_header in *. rewrite Hl. exact Hh.
  - intros Hstr. unfold decoded_from; cbn [topic_info custom_info empty_store].
    destruct st as [topic custom]; cbn [topic_info custom_info] in *.
    f_equal; [destruct topic; reflexivity|].
    destruct custom as [ci|]; [|reflexivity].
    destruct (Hstr ci eq_refl) as [Hne Hall].
    rewrite (@stringified_strings ci Hall).
    destruct ci; [congruence | reflexivity].
Qed.

Lemma clean_round_trip_witness :
  exists st',
    from_header empty_store Examples.header_t1 = Ok st'
    /\ to_list st' = to_list Examples.ctx_t1
    /\ to_header st' = Ok Examples.header_t1
    /\ ((forall ci, custom_info Examples.ctx_t1 = Some ci ->
           ci <> [] /\ Forall (fun kv => exists s, snd kv = PyStr s) ci) ->
        st' = Examples.ctx_t1).
Proof.
  apply (@clean_round_trip Examples.ctx_t1 Examples.header_t1).
  - cbv. repeat constructor; cbv; intuition discriminate.
  - split.
    + intros t [= <-]. split; repeat constructor.
    + intros ci k v [= <-] Hin _.
      destruct Hin as [[= <- <-]|[[= <- <-]|[]]];
        (split; [repeat split; try discriminate; repeat constructor
                | split; repeat constructor]).
  - vm_compute. reflexivity.
Defined.

End StableFacts.

(* ================================================================== *)
(** * [add_to_context] and the header helpers *)
(* ================================================================== *)

Module SessionFacts.
Import LogHelper Clean Carried Session ResultWrapper PyFacts DictFacts
       CarriedFacts.
Local Open Scope N_scope.

(** ** The text of an integer *)

Lemma uint_digits (d : Decimal.uint) :
  Forall (fun c => 48 <= c <= 57) (lit (NilEmpty.string_of_uint d)).
Proof.
  induction d; cbn; constructor; try lia; try exact IHd.
Qed.

Lemma int_chars (z : Z) :
  Forall (fun c => 48 <= c <= 57 \/ c = 45) (py_str (PyInt z)).
Proof.
  assert (Hu : forall d, Forall (fun c => 48 <= c <= 57 \/ c = 45)
                           (lit (NilZero.string_of_uint d))).
  { intros d.
    assert (H : Forall (fun c => 48 <= c <= 57) (lit (NilZero.string_of_uint d))).
    { destruct d; try apply (uint_digits (_ _)).
      cbn. repeat constructor; lia. }
    eapply Forall_impl; [|exact H]. intros c Hc; left; exact Hc. }
  cbn [py_str]. destruct (Z.to_int z) as [d|d]; cbn [NilZero.string_of_int].
  - apply Hu.
  - change (lit (String "-" (NilZero.string_of_uint d)))
      with (45 :: lit (NilZero.string_of_uint d)).
    constructor; [right; reflexivity | apply Hu].
Qed.

Lemma int_one_line (z : Z) : one_line (py_str (PyInt z)).
Proof.
  unfold one_line, Re.all_in, Re.dot.
  eapply Forall_impl; [|apply int_chars]. cbv beta. intros c Hc.
  apply negb_true_iff, N.eqb_neq. lia.
Qed.

(** ** Assigning to a key that is sectioned away *)

Lemma carried_set_slash (ci : dict pyval) (k : pystr) (v : pyval) :
  has_slash k = true -> carried (dict_set ci k v) = carried ci.
Proof.
  intros Hk. unfold carried.
  induction ci as [|[k0 v0] ci IH]; cbn [dict_set filter map fst snd].
  - rewrite Hk, andb_false_r. reflexivity.
  - destruct (str_eqb k0 k) eqn:E.
    + apply str_eqb_eq in E; subst k0. cbn [filter fst snd].
      rewrite Hk, !andb_false_r. reflexivity.
    + cbn [filter fst snd].
      destruct (negb (is_none v0) && negb (has_slash k0));
        cbn [map]; now rewrite IH.
Qed.

Lemma set_slash_received (st tgt : store) (k : pystr) (v : pyval) :
  has_slash k = true ->
  received (set_custom_info st k v) tgt = received st tgt.
Proof.
  intros Hk. unfold received, set_custom_info;
    cbn [topic_info custom_info].
  rewrite (@carried_set_slash _ k v Hk).
  destruct (custom_info st); reflexivity.
Qed.

Lemma set_wf (st : store) (k : pystr) (v : pyval) :
  wf_store st -> wf_store (set_custom_info st k v).
Proof.
  unfold wf_store, set_custom_info; cbn [custom_info]. intros Hwf.
  apply dict_set_NoDup. destruct (custom_info st); [exact Hwf | constructor].
Qed.

Lemma set_sectioned_readable (st : store) (k : pystr) (v : pyval) :
  readable_store st -> sectioned_away k ->
  (v <> PyNone -> one_line (py_str v)) ->
  readable_store (set_custom_info st k v).
Proof.
  intros [Ht Hc] Hk Hv. split; [exact Ht|].
  intros ci k' v' Hci Hin Hv'.
  unfold set_custom_info in Hci; cbn [custom_info] in Hci.
  injection Hci as <-.
  apply dict_set_In in Hin. destruct Hin as [Heq|Hin].
  - injection Heq as -> ->. right. auto.
  - destruct (custom_info st) as [ci0|]; [|destruct Hin].
    now apply (Hc ci0).
Qed.

Lemma keeps_set (st0 st : store) (k : pystr) (v : pyval) :
  keeps st0 st -> sectioned_away k ->
  (v <> PyNone -> one_line (py_str v)) ->
  keeps st0 (set_custom_info st k v).
Proof.
  intros (Hwf & Hread & Hrec) Hk Hv. split; [|split].
  - now apply set_wf.
  - now apply set_sectioned_readable.
  - intros tgt. rewrite set_slash_received; [apply Hrec|].
    now apply sectioned_has_slash.
Qed.

(** ** The keys and values of [add_to_context] *)

Lemma session_key_sectioned (r : pystr) :
  r <> [] -> one_line r -> sectioned_away (lit "ourritual" ++ [47] ++ r).
Proof.
  intros Hr Hl. exists (lit "ourritual"), r.
  repeat split; auto; try discriminate; repeat constructor.
Qed.

Lemma member_key_sectioned (pos : nat) (field : pystr) :
  one_line field -> sectioned_away (member_key pos field).
Proof.
  intros Hf.
  change (member_key pos field)
    with (lit "ourritual" ++ [47]
          ++ (lit "members/" ++ py_str (PyInt (Z.of_nat pos)) ++ [47] ++ field)).
  apply session_key_sectioned; [discriminate|].
  unfold one_line.
  apply LineFacts.all_in_app; split; [repeat constructor|].
  apply LineFacts.all_in_app; split; [apply int_one_line|].
  apply LineFacts.all_in_app; split; [repeat constructor | exact Hf].
Qed.

Lemma of_int_one_line (o : option Z) :
  of_int o <> PyNone -> one_line (py_str (of_int o)).
Proof.
  destruct o; [intros _; apply int_one_line|].
  intros H; exfalso; apply H; reflexivity.
Qed.

Lemma of_str_one_line (o : option pystr) :
  one_line_opt o -> of_str o <> PyNone -> one_line (py_str (of_str o)).
Proof.
  destruct o; [intros H _; exact H|].
  intros _ H; exfalso; apply H; reflexivity.
Qed.

Lemma add_members_keeps (st0 : store) (members : list MemberInformation) :
  Forall (fun m => one_line_opt (member_email m)) members ->
  forall pos st, keeps st0 st -> keeps st0 (add_members pos members st).
Proof.
  induction 1 as [|m members Hm Hall IH]; intros pos st Hst; [exact Hst|].
  cbn [add_members]. apply IH.
  apply keeps_set;
    [|apply member_key_sectioned; repeat constructor
     |now apply of_str_one_line].
  apply keeps_set;
    [exact Hst | apply member_key_sectioned; repeat constructor
     |apply of_int_one_line].
Qed.

Lemma add_to_context_keeps (self : SessionInformation) (st : store) :
  wf_store st -> readable_store st -> one_line_session self ->
  keeps st (add_to_context self st).
Proof.
  intros Hwf Hread (Hid & Hmail & Hzoom & Hmembers).
  unfold add_to_context. apply add_members_keeps; [exact Hmembers|].
  apply keeps_set;
    [|apply (@session_key_sectioned (lit "session/zoom_meeting_id"));
      [discriminate | repeat constructor]
     |now apply of_str_one_line].
  apply keeps_set;
    [|apply (@session_key_sectioned (lit "session/expert/email"));
      [discriminate | repeat constructor]
     |now apply of_str_one_line].
  apply keeps_set;
    [|apply (@session_key_sectioned (lit "session/expert/id"));
      [discriminate | repeat constructor]
     |apply of_int_one_line].
  apply keeps_set;
    [|apply (@session_key_sectioned (lit "session/id"));
      [discriminate | repeat constructor]
     |now apply of_str_one_line].
  split; [exact Hwf | split; [exact Hread | reflexivity]].
Qed.

Lemma restore_is_from_header (st : store) (header : pystr) :
  restore_context_from_header st header = from_header st header.
Proof. destruct header; reflexivity. Qed.

(** X8.  Nothing that [SessionInformation.add_to_context] writes goes
    through a header.  Start from any readable context with unique keys,
    let a session whose string fields have no line feed add itself to it,
    capture the header and restore it in any store: the store comes out as
    if the header had been captured before [add_to_context], with none of
    the session and member keys.  From an empty context the restore
    changes nothing. *)
Theorem add_to_context_not_carried
        (self : SessionInformation) (st tgt : store) (header : pystr) :
  wf_store st -> readable_store st -> one_line_session self ->
  capture_context_header (add_to_context self st) = Ok header ->
  restore_context_from_header tgt header = Ok (received st tgt)
  /\ from_header tgt header = Ok (received st tgt)
  /\ (to_list st = [] -> restore_context_from_header tgt header = Ok tgt).
Proof.
  intros Hwf Hread Hself Hh.
  destruct (@add_to_context_keeps self st Hwf Hread Hself) as (Hwf' & Hread' & Hrec).
  assert (Hfrom : from_header tgt header = Ok (received st tgt)).
  { rewrite <- Hrec. now apply from_header_received. }
  rewrite restore_is_from_header.
  split; [exact Hfrom|]. split; [exact Hfrom|].
  intros El. rewrite Hfrom. f_equal. now apply received_of_empty.
Qed.

Lemma add_to_context_not_carried_witness :
  exists header,
    capture_context_header
      (add_to_context DeliveryExamples.session_7 Examples.ctx_t1) = Ok header
    /\ restore_context_from_header Examples.ctx_a1 header
       = Ok (received Examples.ctx_t1 Examples.ctx_a1).
Proof.
  assert (Hwf : wf_store Examples.ctx_t1).
  { cbv. repeat constructor; cbv; intuition discriminate. }
  assert (Hread : readable_store Examples.ctx_t1).
  { split.
    - intros t [= <-]. split; repeat constructor.
    - intros ci k v [= <-] Hin _.
      destruct Hin as [[= <- <-]|[[= <- <-]|[]]]; left;
        (split; [repeat split; try discriminate; repeat constructor
                | split; repeat constructor]). }
  assert (Hs : one_line_session DeliveryExamples.session_7).
  { repeat split; repeat constructor. }
  assert (Hh : exists h,
             capture_context_header
               (add_to_context DeliveryExamples.session_7 Examples.ctx_t1)
             = Ok h)
    by (vm_compute; eexists; reflexivity).
  destruct Hh as [h Hh]. exists h. split; [exact Hh|].
  exact (proj1 (@add_to_context_not_carried DeliveryExamples.session_7
                  Examples.ctx_t1 Examples.ctx_a1 h Hwf Hread Hs Hh)).
Defined.

End SessionFacts.

(* ================================================================== *)
(** * Delivery: Temporal headers and Pub/Sub attributes *)
(* ================================================================== *)

Module DeliveryFacts.
Import LogHelper Clean Carried PipelineUtils ContextPropagator PyFacts
       DictFacts CarriedFacts.
Local Open Scope N_scope.

(** ** The flattened map *)

Lemma flatten_NoDup (ci : dict pyval) (res : dict pystr) :
  NoDup (keys res) -> NoDup (keys (fold_left flatten ci res)).
Proof.
  revert res; induction ci as [|[k v] ci IH]; intros res H; [exact H|].
  cbn [fold_left]. apply IH. unfold flatten; cbn [fst snd].
  destruct (is_none v); [exact H | now apply dict_set_NoDup].
Qed.

Lemma to_list_NoDup (st : store) : NoDup (keys (to_list st)).
Proof.
  unfold to_list.
  assert (H : NoDup (keys (match topic_info st with
                           | Some t => dict_set [] TOPIC_KEY t
                           | None => @nil (pystr * pystr)
                           end))).
  { destruct (topic_info st); [|constructor].
    apply dict_set_NoDup. constructor. }
  destruct (custom_info st); [now apply flatten_NoDup | exact H].
Qed.

Lemma to_list_topic (st : store) :
  topic_key_free st -> dict_get (to_list st) TOPIC_KEY = topic_info st.
Proof.
  unfold topic_key_free, to_list. intros Hfree.
  assert (H : dict_get (match topic_info st with
                        | Some t => dict_set [] TOPIC_KEY t
                        | None => []
                        end) TOPIC_KEY = topic_info st).
  { destruct (topic_info st); reflexivity. }
  destruct (custom_info st) as [ci|]; [|exact H].
  rewrite StoreFacts.flatten_get_other; [exact H|].
  intros k v Hkv _ Heq. apply Hfree.
  change TOPIC_KEY with (ROOT ++ lit "topic/name") in Heq.
  apply app_inv_head in Heq. subst k.
  change (lit "topic/name") with (fst (lit "topic/name", v)).
  now apply in_map.
Qed.

Lemma strip_prefix_same (p k : pystr) : strip_prefix p (p ++ k) = Some k.
Proof.
  induction p as [|x p IH]; cbn [app strip_prefix]; [now destruct k|].
  now rewrite N.eqb_refl.
Qed.

Lemma installable_custom (k : pystr) :
  k <> lit "topic/name" -> k <> lit "test" -> installable (ROOT ++ k) = true.
Proof.
  intros Ht Hs. unfold installable, startswith.
  rewrite strip_prefix_same.
  assert (H1 : str_eqb (ROOT ++ k) TOPIC_KEY = false).
  { apply str_eqb_neq. change TOPIC_KEY with (ROOT ++ lit "topic/name").
    intros H. now apply app_inv_head in H. }
  assert (H2 : str_eqb (ROOT ++ k) TEST_KEY = false).
  { apply str_eqb_neq. change TEST_KEY with (ROOT ++ lit "test").
    intros H. now apply app_inv_head in H. }
  now rewrite H1, H2.
Qed.

(** ** Merging the snapshot into outgoing headers *)

Section Merge.
Variable Payload : Type.
Variable to_payloads : dict pystr -> result Payload.

Lemma get_context_headers_NoDup (st : store) :
  NoDup (keys (_get_context_headers to_payloads st)).
Proof.
  unfold _get_context_headers.
  destruct (to_list st); [constructor|].
  destruct (to_payloads _); repeat constructor. intros [].
Qed.

Lemma merge_get (st : store) (existing : option (dict Payload))
      (k : pystr) :
  dict_get (_merge_headers to_payloads st existing) k
  = match dict_get (_get_context_headers to_payloads st) k with
    | Some p => Some p
    | None => dict_get (match existing with Some e => e | None => [] end) k
    end.
Proof.
  unfold _merge_headers.
  destruct existing as [[|kv ex]|].
  - cbn [dict_get]. now destruct (dict_get _ k).
  - apply dict_get_update. apply get_context_headers_NoDup.
  - cbn [dict_get]. now destruct (dict_get _ k).
Qed.

(** X9.  The merge of the context into outgoing headers, for any
    headers, none and empty ones included.  Every key but the context key
    keeps its binding.  The context key is bound to the fresh snapshot when
    the context flattens to a map that is not empty and the converter
    encodes it; otherwise it keeps the binding it had, if any.  The client
    interceptor merges in the same way, and [start_workflow] hands the
    merged headers, with the rest of the input untouched, to the next
    interceptor. *)
Theorem merge_headers_lookup (st : store)
        (existing : option (dict Payload)) :
  let merged := _merge_headers to_payloads st existing in
  let old := match existing with Some e => e | None => [] end in
  ContextClientOutboundInterceptor._merge_headers to_payloads st existing
  = merged
  /\ (forall k, k <> CONTEXT_HEADER_KEY ->
                dict_get merged k = dict_get old k)
  /\ dict_get merged CONTEXT_HEADER_KEY
     = match to_list st with
       | [] => dict_get old CONTEXT_HEADER_KEY
       | d =>
           match to_payloads d with
           | Ok p => Some p
           | Raise _ => dict_get old CONTEXT_HEADER_KEY
           end
       end
  /\ (forall (Rest Handle : Type)
             (next : StartInput Payload Rest -> Handle)
             (input : StartInput Payload Rest),
         headers input = existing ->
         ContextClientOutboundInterceptor.start_workflow to_payloads next
           st input
         = next {| headers := Some merged; rest := rest input |}).
Proof.
  intros merged old. subst merged old.
  split; [reflexivity|]. split; [|split].
  - intros k Hk. rewrite merge_get. unfold _get_context_headers.
    destruct (to_list st); [reflexivity|].
    destruct (to_payloads _); [|reflexivity].
    cbn [dict_get]. apply not_eq_sym in Hk. apply str_eqb_neq in Hk.
    now rewrite Hk.
  - rewrite merge_get. unfold _get_context_headers.
    destruct (to_list st); [reflexivity|].
    destruct (to_payloads _); reflexivity.
  - intros Rest Handle next input Hin.
    unfold ContextClientOutboundInterceptor.start_workflow, replace.
    now rewrite Hin.
Qed.
End Merge.

(** ** From the outbound to the inbound interceptor *)

Lemma keys_Permutation (V : Type) (d d' : dict V) :
  Permutation d d' -> NoDup (keys d) -> NoDup (keys d').
Proof.
  intros Hp Hnd. apply (Permutation_NoDup (l := keys d)); [|exact Hnd].
  unfold keys. now apply Permutation_map.
Qed.

Section Temporal.
Variable Payload : Type.
Variable to_payloads : dict pystr -> result Payload.
Variable from_payloads : Payload -> result (option (dict pystr)).
Variable payload_truthy : Payload -> bool.

Lemma restore_merged (restore : store -> dict pystr -> store)
      (st tgt : store) (existing : option (dict Payload)) (p : Payload)
      (d : dict pystr) :
  to_list st <> [] -> to_payloads (to_list st) = Ok p ->
  payload_truthy p = true -> from_payloads p = Ok (Some d) ->
  Permutation (to_list st) d ->
  restore_from_headers from_payloads payload_truthy restore tgt
    (Some (_merge_headers to_payloads st existing))
  = restore tgt d.
Proof.
  intros Hne Hp Htruthy Hfrom Hperm.
  assert (Hget : dict_get (_merge_headers to_payloads st existing)
                          CONTEXT_HEADER_KEY = Some p).
  { rewrite merge_get. unfold _get_context_headers.
    destruct (to_list st) as [|e l]; [congruence|].
    rewrite Hp. reflexivity. }
  unfold restore_from_headers.
  destruct (_merge_headers to_payloads st existing) as [|kv more];
    [discriminate|].
  rewrite Hget, Htruthy, Hfrom.
  destruct d as [|e d]; [|reflexivity].
  apply Permutation_sym, Permutation_nil in Hperm. congruence.
Qed.

(** X10.  Through Temporal the context arrives whole.  Let the context
    have unique keys and no custom key [topic/name], let it flatten to a
    map that is not empty, and let the converter give back a dictionary
    with the entries it encoded, in whatever order (the JSON converter
    sorts the keys).  After the outbound merge and the inbound restore, in
    an activity and in a workflow alike, the receiver has the sender's
    topic when the sender had one, and every custom entry of the sender
    that has a value, keys with slashes included, as a string; only the key
    [test] is not taken.  What the sender does not provide is left as the
    receiver had it: the restore adds to the custom map, it does not
    replace it. *)
Theorem temporal_round_trip (st tgt : store)
        (existing : option (dict Payload)) (p : Payload)
        (decoded : dict pystr) :
  wf_store st -> topic_key_free st ->
  to_list st <> [] -> to_payloads (to_list st) = Ok p ->
  payload_truthy p = true -> from_payloads p = Ok (Some decoded) ->
  Permutation (to_list st) decoded ->
  let hs := Some (_merge_headers to_payloads st existing) in
  let got := execute_activity_restore from_payloads payload_truthy tgt hs in
  execute_workflow_restore from_payloads payload_truthy tgt hs = got
  /\ topic_info got
     = match topic_info st with
       | Some t => Some t
       | None => topic_info tgt
       end
  /\ (forall ci k v, custom_info st = Some ci -> In (k, v) ci ->
                     v <> PyNone -> k <> lit "test" ->
                     custom_get got k = Some (PyStr (py_str v)))
  /\ (forall k,
         k = lit "test"
         \/ (forall ci v, custom_info st = Some ci -> In (k, v) ci ->
                          v = PyNone) ->
         custom_get got k = custom_get tgt k).
Proof.
  intros Hwf Hfree Hne Hp Htruthy Hfrom Hperm hs got.
  assert (Hgot : got = fold_left restore_entry decoded tgt).
  { subst got hs. unfold execute_activity_restore.
    now rewrite (@restore_merged
                   ContextActivityInboundInterceptor._restore_context_from_dict
                   st tgt existing p decoded Hne Hp Htruthy Hfrom Hperm). }
  split.
  { subst got hs.
    unfold execute_workflow_restore, execute_activity_restore.
    rewrite !(@restore_merged _ st tgt existing p decoded
                Hne Hp Htruthy Hfrom Hperm).
    reflexivity. }
  rewrite Hgot. clear Hgot got hs.
  pose proof (to_list_NoDup st) as Hnd0.
  pose proof (keys_Permutation Hperm Hnd0) as Hnd.
  pose proof (@to_list_topic st Hfree) as Htopic.
  assert (Hin_iff : forall k v, In (k, v) decoded <-> In (k, v) (to_list st)).
  { intros k v. split; apply Permutation_in;
      [apply Permutation_sym|]; exact Hperm. }
  split; [|split].
  - destruct (topic_info st) as [t|].
    + apply PropagatorFacts.restore_topic_in; [exact Hnd|].
      apply Hin_iff. now apply dict_get_In.
    + apply PropagatorFacts.restore_topic_other.
      intros Hin. apply dict_get_None in Htopic. apply Htopic.
      unfold keys in *. apply in_map_iff in Hin.
      destruct Hin as ([k v] & Hk & Hin). cbn [fst] in Hk. subst k.
      apply Hin_iff in Hin.
      change TOPIC_KEY with (fst (TOPIC_KEY, v)). now apply in_map.
  - intros ci k v Hci Hin Hv Htest.
    assert (Hk : k <> lit "topic/name").
    { intros ->. unfold topic_key_free in Hfree. rewrite Hci in Hfree.
      apply Hfree. change (lit "topic/name") with (fst (lit "topic/name", v)).
      now apply in_map. }
    pose proof (@ParseFacts.to_list_In st ci k v Hwf Hci Hin Hv) as Hentry.
    apply Hin_iff in Hentry.
    pose proof (@PropagatorFacts.restore_custom_get_in decoded tgt
                  (ROOT ++ k) (py_str v) Hnd Hentry
                  (@installable_custom k Hk Htest)) as H.
    exact H.
  - intros k Hk.
    apply PropagatorFacts.restore_custom_get_other.
    intros k' v' Hin Hinst Hskip.
    pose proof (@PropagatorFacts.installable_path k' Hinst) as Hpath.
    rewrite Hskip in Hpath. subst k'.
    apply Hin_iff in Hin.
    apply (@In_dict_get _ _ _ _ Hnd0) in Hin.
    unfold to_list in Hin.
    destruct (custom_info st) as [ci|] eqn:Hci.
    + apply StoreFacts.flatten_get_inv in Hin.
      destruct Hin as [Hin|(k0 & v0 & Hin0 & Hv0 & Heq & _)].
      * destruct (topic_info st); [|discriminate].
        cbn [dict_set dict_get] in Hin.
        destruct (str_eqb TOPIC_KEY (ROOT ++ k)) eqn:E; [|discriminate].
        apply str_eqb_eq in E. rewrite <- E in Hinst. discriminate.
      * apply app_inv_head in Heq. subst k0.
        destruct Hk as [->|Hk]; [discriminate|].
        rewrite (Hk ci v0 eq_refl Hin0) in Hv0. discriminate.
    + destruct (topic_info st); [|discriminate].
      cbn [dict_set dict_get] in Hin.
      destruct (str_eqb TOPIC_KEY (ROOT ++ k)) eqn:E; [|discriminate].
      apply str_eqb_eq in E. rewrite <- E in Hinst. discriminate.
Qed.
End Temporal.

(** The session keys, which no header carries, arrive through Temporal,
    here with a converter that gives the entries back in another order. *)
Lemma temporal_round_trip_witness :
  custom_get
    (execute_activity_restore DeliveryExamples.rev_from_payloads
       DeliveryExamples.dict_truthy empty_store
       (Some (_merge_headers DeliveryExamples.id_to_payloads
                Examples.ctx_session None)))
    (lit "ourritual/session/id")
  = Some (PyStr (lit "7")).
Proof.
  assert (Hwf : wf_store Examples.ctx_session).
  { cbv. repeat constructor; cbv; intuition discriminate. }
  assert (Hfree : topic_key_free Examples.ctx_session).
  { cbv. intuition discriminate. }
  assert (Hne : to_list Examples.ctx_session <> [])
    by (vm_compute; discriminate).
  pose proof (@temporal_round_trip (dict pystr)
                DeliveryExamples.id_to_payloads
                DeliveryExamples.rev_from_payloads
                DeliveryExamples.dict_truthy
                Examples.ctx_session empty_store None
                (to_list Examples.ctx_session)
                (rev (to_list Examples.ctx_session))
                Hwf Hfree Hne eq_refl eq_refl eq_refl
                (Permutation_rev (to_list Examples.ctx_session)))
    as (_ & _ & H & _).
  apply (H _ (lit "ourritual/session/id") (PyInt 7) eq_refl).
  - left; reflexivity.
  - discriminate.
  - cbv; discriminate.
Defined.

(** ** From [publish_message] to the wrapped callback *)

Section PublishConsume.
Variable OURRITUAL_CONTEXT_HEADER : pystr.
Variable inject : dict pystr -> dict pystr.
Variable A : Type.
Variable tracer : bool.
Variable callback_func : handler A.

End PublishConsume.


End DeliveryFacts.

(* ================================================================== *)
(** * Characters of a header that do not count *)
(* ================================================================== *)

Module NoiseFacts.
Import LogHelper Carried PyFacts.
Local Open Scope N_scope.

Lemma translate_pad (c : N) :
  (c =? Base64.BASE64_PAD) = false ->
  (Base64.urlsafe_translate c =? Base64.BASE64_PAD) = false.
Proof.
  unfold Base64.urlsafe_translate, Base64.BASE64_PAD. intros H.
  destruct (N.eqb_spec c 45); [reflexivity|].
  destruct (N.eqb_spec c 95); [reflexivity | exact H].
Qed.

Lemma a2b_base64_significant (data : bytes) :
  forall quad_pos leftchar pads out,
    Base64.a2b_base64 (map Base64.urlsafe_translate (significant data))
                      quad_pos leftchar pads out
    = Base64.a2b_base64 (map Base64.urlsafe_translate data)
                        quad_pos leftchar pads out.
Proof.
  unfold significant.
  induction data as [|c data IH]; intros quad_pos leftchar pads out;
    [reflexivity|].
  cbn [filter]. destruct (ignored c) eqn:E; cbn [negb map].
  - unfold ignored in E. apply andb_true_iff in E. destruct E as [E Ht].
    apply andb_true_iff in E. destruct E as [_ Hp].
    apply negb_true_iff in Hp. apply translate_pad in Hp.
    cbn [Base64.a2b_base64]. rewrite Hp.
    destruct (Base64.table_a2b (Base64.urlsafe_translate c));
      [discriminate | apply IH].
  - cbn [Base64.a2b_base64].
    destruct (Base64.urlsafe_translate c =? Base64.BASE64_PAD).
    + destruct (2 <=? quad_pos); [|apply IH].
      destruct (4 <=? quad_pos + (pads + 1)); [reflexivity | apply IH].
    + destruct (Base64.table_a2b (Base64.urlsafe_translate c));
        [|apply IH].
      destruct (quad_pos =? 0); [apply IH|].
      destruct (quad_pos =? 1); [apply IH|].
      destruct (quad_pos =? 2); apply IH.
Qed.

Lemma encode_ascii_same (s : pystr) (b : bytes) :
  encode_ascii s = Ok b -> b = s /\ Forall (fun c => c < 128) s.
Proof.
  revert b; induction s as [|c s IH]; intros b; cbn [encode_ascii].
  - intros H; apply TransportFacts.Ok_inj in H. subst b. split; constructor.
  - destruct (N.ltb_spec c 128) as [Hc|Hc]; [|discriminate].
    destruct (encode_ascii s) as [r|e]; [|discriminate]. cbn [bind].
    intros H; apply TransportFacts.Ok_inj in H. subst b.
    destruct (IH r eq_refl) as [-> Hall]. split; [reflexivity|].
    constructor; assumption.
Qed.

Lemma encode_ascii_significant (s : pystr) :
  encode_ascii (significant s)
  = match encode_ascii s with
    | Ok b => Ok (significant b)
    | Raise e => Raise e
    end.
Proof.
  unfold significant.
  induction s as [|c s IH]; [reflexivity|].
  cbn [filter encode_ascii]. destruct (ignored c) eqn:E; cbn [negb].
  - assert (Hc : (c <? 128) = true).
    { unfold ignored in E. apply andb_true_iff in E. destruct E as [E _].
      apply andb_true_iff in E. tauto. }
    rewrite Hc, IH.
    destruct (encode_ascii s) as [r|e]; cbn [bind filter]; [|reflexivity].
    now rewrite E.
  - cbn [encode_ascii]. destruct (c <? 128); [|reflexivity].
    rewrite IH.
    destruct (encode_ascii s) as [r|e]; cbn [bind filter]; [|reflexivity].
    now rewrite E.
Qed.

Lemma decode_header_significant (header : pystr) :
  decode_header (significant header) = decode_header header.
Proof.
  unfold decode_header. rewrite encode_ascii_significant.
  destruct (encode_ascii header) as [b|e]; cbn [bind]; [|reflexivity].
  unfold Base64.urlsafe_b64decode. now rewrite a2b_base64_significant.
Qed.

(** ** White space *)

Lemma ascii_space_ignored (c : N) :
  c < 128 -> isspace c = true -> ignored c = true.
Proof.
  intros Hlt Hs.
  assert (Hall : forallb (fun n => implb (isspace n) (ignored n))
                         (map N.of_nat (seq 0 128)) = true)
    by (vm_compute; reflexivity).
  rewrite forallb_forall in Hall.
  specialize (Hall c). rewrite Hs in Hall. apply Hall.
  rewrite <- (N2Nat.id c). apply in_map. apply in_seq. lia.
Qed.

Lemma lstrip_spaces (s : pystr) :
  Forall (fun c => isspace c = true) s -> lstrip s = [].
Proof.
  induction 1 as [|c s Hc Hs IH]; [reflexivity|].
  cbn [lstrip]. now rewrite Hc.
Qed.

Lemma strip_spaces (s : pystr) :
  Forall (fun c => isspace c = true) s -> strip s = [].
Proof.
  intros H. unfold strip, rstrip. now rewrite (lstrip_spaces H).
Qed.

Lemma significant_spaces (s : pystr) :
  Forall (fun c => isspace c = true) s ->
  Forall (fun c => isspace c = true) (significant s).
Proof.
  unfold significant. intros H. rewrite Forall_forall in *.
  intros c Hin. apply filter_In in Hin. apply H. tauto.
Qed.

Lemma blank_spaces (s : pystr) :
  blank s = true <-> Forall (fun c => isspace c = true) s.
Proof.
  unfold blank. split.
  - intros H. apply HeaderFacts.strip_nil.
    destruct s as [|c s]; [reflexivity|]. cbn [truthy negb orb] in H.
    destruct (strip (c :: s)); [reflexivity | discriminate].
  - intros H. rewrite (strip_spaces H). cbn. apply orb_true_r.
Qed.

Lemma spaces_decode (s : pystr) :
  Forall (fun c => isspace c = true) s ->
  decode_header s = Ok [] \/ exists e, decode_header s = Raise e.
Proof.
  intros Hs. rewrite <- decode_header_significant.
  unfold decode_header.
  destruct (encode_ascii (significant s)) as [b|e] eqn:Ee;
    [|right; eexists; reflexivity].
  left. apply encode_ascii_same in Ee. destruct Ee as [-> Hascii].
  assert (Hnil : significant (significant s) = []).
  { pose proof (significant_spaces Hs) as Hs'.
    unfold significant at 1.
    induction (significant s) as [|c r IH]; [reflexivity|].
    inversion Hs'; inversion Hascii; subst. cbn [filter].
    rewrite ascii_space_ignored by assumption. cbn [negb]. now apply IH. }
  cbn [bind]. unfold Base64.urlsafe_b64decode.
  rewrite <- a2b_base64_significant, Hnil. reflexivity.
Qed.

Lemma from_header_unfold (st : store) (header : pystr) :
  from_header st header
  = if blank header then Ok st
    else match decode_header header with
         | Raise _ => Ok st
         | Ok decoded_str => Ok (install st decoded_str)
         end.
Proof. reflexivity. Qed.

(** X12.  [from_header] reads a header for its base64 characters and
    its [=] only.  ASCII characters outside the alphabet, white space and
    line breaks among them, do not count wherever they stand: the header
    and the header without them leave the same store. *)
Theorem from_header_skips_noise (st : store) (header : pystr) :
  from_header st header = from_header st (significant header).
Proof.
  rewrite !from_header_unfold, decode_header_significant.
  destruct (blank header) eqn:Eb; destruct (blank (significant header)) eqn:Es;
    try reflexivity.
  - apply blank_spaces in Eb. apply significant_spaces in Eb.
    apply blank_spaces in Eb. congruence.
  - apply blank_spaces in Es.
    destruct (spaces_decode Es) as [H|[e H]];
      rewrite decode_header_significant in H; rewrite H; reflexivity.
Qed.

(** X13.  [from_header] decodes the header without looking at the
    store, then lays the result over the store field by field: the topic
    is replaced when the header has one, the custom map is replaced as a
    whole when the header gives at least one custom entry, and a field the
    header does not give is left as it was.  Decoding the same header a
    second time changes nothing. *)
Theorem from_header_overlay (st : store) (header : pystr) :
  exists d,
    from_header empty_store header = Ok d
    /\ from_header st header = Ok (overlay d st)
    /\ from_header (overlay d st) header = Ok (overlay d st)
    /\ custom_info d <> Some [].
Proof.
  assert (Hid : overlay empty_store st = st) by (now destruct st).
  destruct (blank header) eqn:Eb.
  { exists empty_store. rewrite Hid, !from_header_unfold, Eb.
    repeat split. discriminate. }
  destruct (decode_header header) as [s|e] eqn:Ed.
  - exists (install empty_store s). rewrite !from_header_unfold, Eb, Ed.
    unfold install, overlay, set_topic_info.
    destruct (fst (fold_left parse_line (split_lines s) (None, [])));
      destruct (snd (fold_left parse_line (split_lines s) (None, [])));
      cbn [topic_info custom_info empty_store];
      repeat split; try discriminate; now destruct st.
  - exists empty_store. rewrite Hid, !from_header_unfold, Eb, Ed.
    repeat split. discriminate.
Qed.

End NoiseFacts.

(* ================================================================== *)
(** * A double quote in a value *)
(* ================================================================== *)

Module QuoteFacts.
Import LogHelper Clean PyFacts ParseFacts LineFacts RoundTripFacts.
Local Open Scope N_scope.

Lemma direct_truncates (k v1 rest : pystr) :
  clean_key k -> Re.all_in (Re.not_char 34) v1 ->
  pattern_direct (render (ROOT ++ k, v1 ++ 34 :: rest)) = Some (k, v1).
Proof.
  intros (Hk & _ & _ & Hcolon & _) Hquote.
  rewrite render_exact.
  assert (Hshape : ROOT ++ k ++ 58 :: 32 :: 34 :: (v1 ++ 34 :: rest) ++ [34]
                   = ROOT ++ k ++ [58] ++ [32] ++ [34] ++ v1 ++ [34]
                          ++ (rest ++ [34])).
  { rewrite <- !app_assoc. reflexivity. }
  rewrite Hshape.
  destruct (pattern_direct
              (ROOT ++ k ++ [58] ++ [32] ++ [34] ++ v1 ++ [34]
                    ++ (rest ++ [34])))
    as [[g g2]|] eqn:E.
  - pose proof (@pattern_direct_inv _ _ _ E)
      as (ws & tail & Hline & _ & Hg & Hws & Hg2).
    apply app_inv_head in Hline.
    apply (@split_unique (Re.not_char 58) 58) in Hline; auto.
    destruct Hline as [<- Hline].
    apply (@split_unique Re.space 34) in Hline; auto using space_32.
    destruct Hline as [_ Hline].
    apply (@split_unique (Re.not_char 34) 34) in Hline; auto.
    destruct Hline as [<- _]. reflexivity.
  - exfalso. revert E.
    apply (@pattern_direct_complete k [32] v1 (rest ++ [34]));
      auto using space_32.
Qed.

Lemma sectioned_none_no_slash (k v : pystr) :
  Re.all_in (Re.not_char 47) k -> Re.all_in (Re.not_char 47) v ->
  pattern_with_section (render (ROOT ++ k, v)) = None.
Proof.
  intros Hk Hv. rewrite render_exact.
  destruct (pattern_with_section (ROOT ++ k ++ 58 :: 32 :: 34 :: v ++ [34]))
    as [[[g1 g2] g3]|] eqn:E; [|reflexivity].
  exfalso.
  pose proof (@pattern_with_section_inv _ _ _ _ E)
    as (ws & tail & Hline & _ & Hg1 & _).
  apply app_inv_head in Hline.
  assert (Hall : Re.all_in (Re.not_char 47) (k ++ 58 :: 32 :: 34 :: v ++ [34])).
  { apply all_in_app; split; [exact Hk|].
    repeat (apply Forall_cons; [reflexivity|]).
    apply all_in_app; split; [exact Hv | repeat constructor]. }
  rewrite Hline in Hall. apply all_in_app in Hall. destruct Hall as [_ Hall].
  inversion Hall; subst. discriminate.
Qed.

Lemma parse_truncated_line (acc : parsed) (k v1 rest : pystr) :
  clean_key k -> Re.all_in (Re.not_char 34) v1 ->
  Re.all_in (Re.not_char 47) (v1 ++ 34 :: rest) ->
  parse_line acc (render (ROOT ++ k, v1 ++ 34 :: rest))
  = (fst acc, dict_set (snd acc) k (PyStr v1)).
Proof.
  intros Hk Hv1 Hslash. unfold parse_line.
  match goal with
  | |- context [strip ?x] =>
      replace (strip x) with x by (symmetry; apply render_strip)
  end.
  match goal with
  | |- context [pattern_with_section ?x] =>
      replace (pattern_with_section x) with (@None (pystr * pystr * pystr))
        by (symmetry; apply sectioned_none_no_slash;
            [apply Hk | exact Hslash])
  end.
  match goal with
  | |- context [pattern_direct ?x] =>
      replace (pattern_direct x) with (Some (k, v1))
        by (symmetry; exact (@direct_truncates k v1 rest Hk Hv1))
  end.
  match goal with
  | |- context [truthy ?x] =>
      replace (truthy x) with true by reflexivity
  end.
  cbn [negb].
  destruct Hk as (_ & Hk & _). apply str_eqb_neq in Hk. now rewrite Hk.
Qed.

(** X14.  A double quote cuts a value short.  Let a context hold one
    custom entry with a clean key and a one-line value without slash that
    has a double quote in it.  The header is built, nothing is escaped, and
    [from_header] gives the entry back with the value cut before its first
    double quote. *)
Theorem quote_cuts_value (k v1 rest : pystr) (tgt : store)
        (header : pystr) :
  clean_key k -> clean_value v1 -> one_line rest ->
  Re.all_in (Re.not_char 47) (v1 ++ 34 :: rest) ->
  to_header (set_custom_info empty_store k (PyStr (v1 ++ 34 :: rest)))
  = Ok header ->
  from_header tgt header
  = Ok {| topic_info := topic_info tgt;
          custom_info := Some [(k, PyStr v1)] |}.
Proof.
  intros Hk [Hv1 Hl1] Hrest Hslash Hh.
  set (st := set_custom_info empty_store k (PyStr (v1 ++ 34 :: rest))) in *.
  assert (Hl : to_list st = [(ROOT ++ k, v1 ++ 34 :: rest)]) by reflexivity.
  assert (Hne : to_list st <> []) by (rewrite Hl; discriminate).
  destruct (@HeaderFacts.header_transport st tgt header Hne Hh) as [_ Hfrom].
  rewrite Hfrom, Hl. f_equal. unfold install, json_str.
  cbn [map join].
  rewrite split_lines_one.
  - cbn [fold_left].
    rewrite (@parse_truncated_line (None, []) k v1 rest Hk Hv1 Hslash).
    reflexivity.
  - apply render_one_line.
    + change (one_line (ROOT ++ k)).
      apply all_in_app; split; [repeat constructor | apply Hk].
    + unfold one_line. apply all_in_app; split; [exact Hl1|].
      constructor; [reflexivity | exact Hrest].
Qed.

Lemma quote_cuts_value_witness :
  exists header,
    to_header (set_custom_info empty_store (lit "a")
                 (PyStr (lit "x" ++ 34 :: lit "y"))) = Ok header
    /\ from_header empty_store header
       = Ok {| topic_info := None;
               custom_info := Some [(lit "a", PyStr (lit "x"))] |}.
Proof.
  assert (Hk : clean_key (lit "a")).
  { repeat split; try discriminate; repeat constructor. }
  assert (Hv : clean_value (lit "x")) by (split; repeat constructor).
  assert (Hr : one_line (lit "y")) by (repeat constructor).
  assert (Hs : Re.all_in (Re.not_char 47) (lit "x" ++ 34 :: lit "y"))
    by (repeat constructor).
  assert (Hh : exists h,
             to_header (set_custom_info empty_store (lit "a")
                          (PyStr (lit "x" ++ 34 :: lit "y"))) = Ok h)
    by (vm_compute; eexists; reflexivity).
  destruct Hh as [h Hh]. exists h. split; [exact Hh|].
  exact (@quote_cuts_value (lit "a") (lit "x") (lit "y") empty_store h
           Hk Hv Hr Hs Hh).
Defined.

End QuoteFacts.

(* ================================================================== *)
(** * What [to_list] lists and what [from_header] can leave *)
(* ================================================================== *)

Module DecodedFacts.
Import LogHelper Clean Carried PyFacts DictFacts ParseFacts LineFacts
       RoundTripFacts.
Local Open Scope N_scope.

(** X15.  The order of [to_list].  For a context with unique keys and
    no custom key [topic/name], [to_list] is the topic entry, when there is
    a topic, followed by one entry for each custom entry that has a value,
    in the order of the custom map, the key prefixed and the value as
    text. *)
Theorem to_list_in_order (st : store) :
  wf_store st -> topic_key_free st ->
  to_list st
  = topic_entry (topic_info st)
    ++ match custom_info st with
       | Some ci => emitted ci
       | None => []
       end.
Proof.
  intros Hwf Hfree. unfold to_list, wf_store, topic_key_free in *.
  assert (Hres : match topic_info st with
                 | Some t => dict_set [] TOPIC_KEY t
                 | None => []
                 end = topic_entry (topic_info st)).
  { destruct (topic_info st); reflexivity. }
  rewrite Hres.
  destruct (custom_info st) as [ci|]; [|now rewrite app_nil_r].
  apply flatten_fold_append; [exact Hwf|].
  intros k v Hin Hv Hkey.
  destruct (topic_info st); cbn [topic_entry keys map fst In] in Hkey;
    [|exact Hkey].
  destruct Hkey as [Heq|[]].
  change TOPIC_KEY with (ROOT ++ lit "topic/name") in Heq.
  apply app_inv_head in Heq. subst k. apply Hfree.
  change (lit "topic/name") with (fst (lit "topic/name", v)).
  now apply in_map.
Qed.

Lemma to_list_in_order_witness :
  to_list Examples.ctx_t1
  = [(TOPIC_KEY, lit "t1"); (ROOT ++ lit "a", lit "1");
     (ROOT ++ lit "b", lit "2")].
Proof.
  apply (@to_list_in_order Examples.ctx_t1).
  - cbv. repeat constructor; cbv; intuition discriminate.
  - cbv. intuition discriminate.
Defined.

(** ** The loop of [from_header] on any text *)

Lemma dict_set_Forall (V : Type) (P : pystr * V -> Prop)
      (d : dict V) (k : pystr) (v : V) :
  Forall P d -> P (k, v) -> Forall P (dict_set d k v).
Proof.
  intros Hd Hkv. rewrite Forall_forall in *. intros [k' v'] Hin.
  apply dict_set_In in Hin. destruct Hin as [->|Hin]; auto.
Qed.

Lemma parse_line_collected (acc : parsed) (line0 : pystr) :
  one_line line0 -> collected acc -> collected (parse_line acc line0).
Proof.
  intros Hline Hacc. pose proof Hacc as (Ht & Hnd & Hall).
  unfold parse_line.
  apply (strip_all_in (cls := Re.dot)) in Hline.
  destruct (negb (truthy (strip line0))); [exact Hacc|].
  destruct (pattern_with_section (strip line0)) as [[[section key_path] value]|]
    eqn:Es.
  - destruct (str_eqb section (lit "topic")); [|exact Hacc].
    destruct (str_eqb key_path (lit "name")); [|exact Hacc].
    split; [|split; assumption].
    cbn [fst]. intros t [= <-].
    apply pattern_with_section_inv in Es.
    destruct Es as (ws & tail & Heq & _ & _ & _ & _ & _ & Hv).
    split; [exact Hv|].
    rewrite Heq in Hline. unfold one_line.
    do 7 (apply all_in_app in Hline; destruct Hline as [_ Hline]).
    apply all_in_app in Hline. exact (proj1 Hline).
  - destruct (pattern_direct (strip line0)) as [[key value]|] eqn:Ed;
      [|exact Hacc].
    destruct (str_eqb key (lit "topic")) eqn:Ek; cbn [negb];
      [exact Hacc|].
    split; [exact Ht|]. cbn [snd fst].
    split; [now apply dict_set_NoDup|].
    apply dict_set_Forall; [exact Hall|].
    apply pattern_direct_inv in Ed.
    destruct Ed as (ws & tail & Heq & Hne & Hcolon & _ & Hv).
    rewrite Heq in Hline.
    apply all_in_app in Hline; destruct Hline as [_ Hline].
    apply all_in_app in Hline; destruct Hline as [Hkey Hline].
    repeat split; cbn [fst snd]; auto.
    + now apply str_eqb_neq.
    + exists value. repeat split; auto. unfold one_line.
      do 3 (apply all_in_app in Hline; destruct Hline as [_ Hline]).
      apply all_in_app in Hline. exact (proj1 Hline).
Qed.

Lemma parse_lines_collected (lines : list pystr) (acc : parsed) :
  (forall l, In l lines -> one_line l) -> collected acc ->
  collected (fold_left parse_line lines acc).
Proof.
  revert acc; induction lines as [|l lines IH]; intros acc Hl Hacc;
    cbn [fold_left]; [exact Hacc|].
  apply IH.
  - intros l' Hin. apply Hl. right; exact Hin.
  - apply parse_line_collected; [apply Hl; left; reflexivity | exact Hacc].
Qed.

(** X16.  What [from_header] can leave in a store, whatever the header.
    The topic is the one the store had, or a string with no double quote
    and no line feed.  The custom map is the one the store had, or a map
    that is not empty, has unique keys, and binds keys that are not empty,
    are not [topic] and have no colon or line feed to strings with no
    double quote and no line feed: a value never comes back as a number, a
    boolean or [None].  Unique keys are kept. *)
Theorem from_header_leaves (tgt st' : store) (header : pystr) :
  from_header tgt header = Ok st' ->
  (topic_info st' = topic_info tgt
   \/ exists t, topic_info st' = Some t /\ clean_value t)
  /\ (custom_info st' = custom_info tgt
      \/ exists d, custom_info st' = Some d /\ d <> []
                   /\ NoDup (keys d) /\ Forall decoded_entry d)
  /\ (wf_store tgt -> wf_store st').
Proof.
  unfold from_header.
  destruct (negb (truthy header) || negb (truthy (strip header)));
    [intros [= <-]; auto|].
  destruct (decode_header header) as [s|e]; [|intros [= <-]; auto].
  intros [= <-]. unfold install.
  assert (Hc : collected (fold_left parse_line (split_lines s) (None, []))).
  { apply parse_lines_collected; [apply split_lines_one_line|].
    split; [intros t; discriminate|]. split; constructor. }
  destruct (fold_left parse_line (split_lines s) (None, []))
    as [topic_data custom_data].
  destruct Hc as (Ht & Hnd & Hall). cbn [fst snd] in *.
  set (st1 := match topic_data with
              | Some t => set_topic_info tgt (Some t)
              | None => tgt
              end).
  assert (Htopic : topic_info st1 = topic_info tgt
                   \/ exists t, topic_info st1 = Some t /\ clean_value t).
  { subst st1. destruct topic_data as [t|]; [right | left; reflexivity].
    exists t. split; [reflexivity | now apply Ht]. }
  assert (Hcustom : custom_info st1 = custom_info tgt)
    by (subst st1; now destruct topic_data).
  destruct custom_data as [|e custom_data].
  - split; [exact Htopic|]. split; [left; exact Hcustom|].
    unfold wf_store. now rewrite Hcustom.
  - cbn [topic_info custom_info].
    split; [exact Htopic|].
    split; [|intros _; exact Hnd].
    right. exists (e :: custom_data). repeat split; auto. discriminate.
Qed.

Lemma from_header_leaves_witness :
  (topic_info Examples.ctx_t1 = topic_info Examples.ctx_a1
   \/ exists t, topic_info Examples.ctx_t1 = Some t /\ clean_value t)
  /\ (custom_info Examples.ctx_t1 = custom_info Examples.ctx_a1
      \/ exists d, custom_info Examples.ctx_t1 = Some d /\ d <> []
                   /\ NoDup (keys d) /\ Forall decoded_entry d)
  /\ (wf_store Examples.ctx_a1 -> wf_store Examples.ctx_t1).
Proof.
  apply (@from_header_leaves Examples.ctx_a1 Examples.ctx_t1
           Examples.header_t1).
  vm_compute. reflexivity.
Defined.

End DecodedFacts.

(* ================================================================== *)
(** * Custom keys with a section *)
(* ================================================================== *)

Module SlashFacts.
Import LogHelper Clean Carried PyFacts ParseFacts LineFacts RoundTripFacts.
Local Open Scope N_scope.

(** ** The lines of a text, entry by entry *)

Lemma split_lines_not_nil (s : pystr) : split_lines s <> [].
Proof.
  induction s as [|c s IH]; cbn [split_lines]; [discriminate|].
  destruct (c =? 10); [discriminate|].
  destruct (split_lines s); discriminate.
Qed.

Lemma split_lines_cut (x y : pystr) :
  split_lines (x ++ 10 :: y) = split_lines x ++ split_lines y.
Proof.
  induction x as [|c x IH]; [reflexivity|].
  cbn [app split_lines]. rewrite IH.
  destruct (c =? 10); [reflexivity|].
  pose proof (split_lines_not_nil x) as Hx.
  destruct (split_lines x) as [|l ls]; [congruence | reflexivity].
Qed.

Lemma fold_json_str (d : dict pystr) (acc : parsed) :
  fold_left parse_line (split_lines (json_str d)) acc
  = fold_left parse_line (List.concat (map (fun e => split_lines (render e)) d))
              acc.
Proof.
  unfold json_str.
  revert acc; induction d as [|e d IH]; intros acc; [reflexivity|].
  destruct d as [|e2 d].
  - cbn [map join List.concat]. now rewrite app_nil_r.
  - change (join [10] (map render (e :: e2 :: d)))
      with (render e ++ 10 :: join [10] (map render (e2 :: d))).
    rewrite split_lines_cut, fold_left_app, IH.
    change (map (fun e0 => split_lines (render e0)) (e :: e2 :: d))
      with (split_lines (render e)
            :: map (fun e0 => split_lines (render e0)) (e2 :: d)).
    cbn [List.concat]. now rewrite fold_left_app.
Qed.

Lemma dropped_line (d1 d2 : dict pystr) (e : pystr * pystr) (acc : parsed) :
  one_line (render e) -> (forall a, parse_line a (render e) = a) ->
  fold_left parse_line (split_lines (json_str (d1 ++ e :: d2))) acc
  = fold_left parse_line (split_lines (json_str (d1 ++ d2))) acc.
Proof.
  intros Hline Hdrop. rewrite !fold_json_str, !map_app, !concat_app.
  cbn [map List.concat]. rewrite !fold_left_app.
  rewrite (split_lines_one Hline). cbn [fold_left]. now rewrite Hdrop.
Qed.

Lemma install_lines (tgt : store) (s1 s2 : pystr) :
  fold_left parse_line (split_lines s1) (None, [])
  = fold_left parse_line (split_lines s2) (None, []) ->
  install tgt s1 = install tgt s2.
Proof. unfold install. now intros ->. Qed.

(** ** The section and the rest of a key *)

Lemma spaces_then_quote (ws r a b : pystr) :
  Re.all_in Re.space ws ->
  r ++ 58 :: a = ws ++ 34 :: b -> exists x, r = ws ++ 34 :: x.
Proof.
  intros Hws. revert r. induction Hws as [|w ws Hw Hws IH]; intros r Heq.
  - destruct r as [|c r]; [discriminate|].
    injection Heq as -> _. now exists r.
  - destruct r as [|c r].
    + injection Heq as <- _. discriminate.
    + injection Heq as -> Heq. destruct (IH r Heq) as [x ->]. now exists x.
Qed.

Lemma name_rest (r a ws b : pystr) :
  Re.all_in Re.space ws ->
  r ++ 58 :: a = lit "name" ++ 58 :: ws ++ 34 :: b ->
  r = lit "name"
  \/ exists x, r = lit "name:" ++ ws ++ [34] ++ x.
Proof.
  intros Hws.
  change (lit "name" ++ 58 :: ws ++ 34 :: b)
    with (110 :: 97 :: 109 :: 101 :: 58 :: ws ++ 34 :: b).
  change (lit "name") with [110; 97; 109; 101].
  change (lit "name:") with [110; 97; 109; 101; 58].
  destruct r as [|c0 [|c1 [|c2 [|c3 [|c4 r]]]]]; cbn [app]; intros H;
    try discriminate.
  - injection H as -> -> -> -> _. now left.
  - injection H as -> -> -> -> -> H. right.
    destruct (@spaces_then_quote ws r a b Hws H) as [x ->]. now exists x.
Qed.

Section Stop.
Variable R : Type.

Lemma star_greedy_stop cls (m rest : pystr) (d : char)
      (k : pystr -> pystr -> option R) (x : R) :
  Re.all_in cls m -> cls d = false -> k m (d :: rest) = Some x ->
  Re.star_greedy cls (m ++ d :: rest) k = Some x.
Proof.
  intros Hm Hd. revert k. induction Hm as [|c m Hc Hm IH]; intros k Hk.
  - cbn [app Re.star_greedy]. now rewrite Hd.
  - cbn [app]. rewrite star_greedy_cons, Hc.
    now rewrite (IH (fun m rest => k (c :: m) rest) Hk).
Qed.

Lemma plus_greedy_stop cls (m rest : pystr) (d : char)
      (k : pystr -> pystr -> option R) (x : R) :
  m <> [] -> Re.all_in cls m -> cls d = false -> k m (d :: rest) = Some x ->
  Re.plus_greedy cls (m ++ d :: rest) k = Some x.
Proof.
  intros Hne Hm Hd Hk. destruct m as [|c m]; [congruence|].
  inversion Hm as [|? ? Hc Hm']; subst.
  cbn [app Re.plus_greedy]. rewrite Hc.
  now apply star_greedy_stop.
Qed.
End Stop.

(** The lazy group takes [name] as soon as what follows the colon is
    white space, a double quote, and a second double quote later on. *)
Lemma topic_name_line (ws g3 tail : pystr) :
  Re.all_in Re.space ws -> Re.all_in (Re.not_char 34) g3 ->
  pattern_with_section
    (ROOT ++ lit "topic" ++ 47 :: lit "name" ++ 58 :: ws ++ 34 :: g3
          ++ 34 :: tail)
  = Some (lit "topic", lit "name", g3).
Proof.
  intros Hws Hg3. unfold pattern_with_section. rewrite literal_app.
  apply plus_greedy_stop; [discriminate | repeat constructor | reflexivity|].
  change (lit "name" ++ 58 :: ws ++ 34 :: g3 ++ 34 :: tail)
    with (110 :: 97 :: 109 :: 101 :: 58 :: ws ++ 34 :: g3 ++ 34 :: tail).
  cbn [Re.literal N.eqb Pos.eqb Re.plus_lazy Re.star_lazy Re.dot negb].
  rewrite (@star_greedy_stop _ Re.space ws (g3 ++ 34 :: tail) 34 _
             (lit "topic", lit "name", g3) Hws eq_refl); [reflexivity|].
  cbn [Re.literal N.eqb Pos.eqb].
  apply star_greedy_stop; [exact Hg3 | reflexivity | reflexivity].
Qed.

Lemma topic_path_line (r v : pystr) :
  topic_path (lit "topic") r ->
  exists t, pattern_with_section (render (ROOT ++ lit "topic" ++ [47] ++ r, v))
            = Some (lit "topic", lit "name", t).
Proof.
  intros [_ [->|(ws & x & Hws & ->)]].
  - destruct (render_shape (lit "topic" ++ [47] ++ lit "name") v)
      as (v1 & tail & Heq & Hv1).
    exists v1. rewrite Heq.
    exact (@topic_name_line [32] v1 tail space_32 Hv1).
  - rewrite render_exact.
    destruct (first_outside (Re.not_char 34) x)
      as [Hx|(x1 & c & x2 & -> & Hx1 & Hc)].
    + destruct (render_shape (lit "topic" ++ [47] ++ lit "name") v)
        as (v1 & tail & Heq & Hv1).
      exists (x ++ [58; 32]).
      replace (ROOT ++ (lit "topic" ++ [47] ++ lit "name:" ++ ws ++ [34] ++ x)
                    ++ 58 :: 32 :: 34 :: v ++ [34])
        with (ROOT ++ lit "topic" ++ 47 :: lit "name" ++ 58 :: ws
                   ++ 34 :: (x ++ [58; 32]) ++ 34 :: (v ++ [34]))
        by (rewrite <- !app_assoc; reflexivity).
      apply topic_name_line; [exact Hws|].
      apply all_in_app; split; [exact Hx | repeat constructor].
    + unfold Re.not_char in Hc. apply negb_false_iff, N.eqb_eq in Hc. subst c.
      exists x1.
      replace (ROOT ++ (lit "topic" ++ [47] ++ lit "name:" ++ ws ++ [34]
                            ++ x1 ++ 34 :: x2)
                    ++ 58 :: 32 :: 34 :: v ++ [34])
        with (ROOT ++ lit "topic" ++ 47 :: lit "name" ++ 58 :: ws
                   ++ 34 :: x1 ++ 34 :: (x2 ++ 58 :: 32 :: 34 :: v ++ [34]))
        by (rewrite <- !app_assoc; reflexivity).
      now apply topic_name_line.
Qed.

Lemma sectioned_line (s r v : pystr) :
  s <> [] -> Re.all_in (Re.not_char 47) s -> r <> [] -> one_line r ->
  exists g2 g3,
    pattern_with_section (render (ROOT ++ s ++ [47] ++ r, v))
    = Some (s, g2, g3)
    /\ (g2 = lit "name" ->
        r = lit "name"
        \/ exists ws x, Re.all_in Re.space ws
                        /\ r = lit "name:" ++ ws ++ [34] ++ x).
Proof.
  intros Hs Hcs Hr Hcr.
  destruct (render_shape (s ++ [47] ++ r) v) as (v1 & tail & Heq & Hv1).
  rewrite Heq.
  destruct (pattern_with_section
              (ROOT ++ (s ++ [47] ++ r) ++ [58] ++ [32] ++ [34] ++ v1
                    ++ [34] ++ tail))
    as [[[g1 g2] g3]|] eqn:E.
  - pose proof (pattern_with_section_inv _ E)
      as (ws & tail' & Hline & _ & Hg1 & _ & _ & Hws & _).
    apply app_inv_head in Hline. rewrite <- !app_assoc in Hline.
    cbn [app] in Hline.
    apply (@split_unique (Re.not_char 47) 47) in Hline; auto.
    destruct Hline as [<- Hrest].
    exists g2, g3. split; [reflexivity|].
    intros ->. destruct (@name_rest r _ ws _ Hws Hrest) as [H|[x H]];
      [now left | right; now exists ws, x].
  - exfalso. revert E. rewrite <- !app_assoc.
    apply pattern_with_section_complete; auto.
    repeat constructor.
Qed.

Lemma parse_dropped (s r v : pystr) (acc : parsed) :
  s <> [] -> Re.all_in (Re.not_char 47) s -> r <> [] -> one_line r ->
  ~ topic_path s r ->
  parse_line acc (render (ROOT ++ s ++ [47] ++ r, v)) = acc.
Proof.
  intros Hs Hcs Hr Hcr Hnot.
  destruct (@sectioned_line s r v Hs Hcs Hr Hcr) as (g2 & g3 & Hm & Hname).
  unfold parse_line. rewrite render_strip, Hm.
  assert (Ht : truthy (render (ROOT ++ s ++ [47] ++ r, v)) = true)
    by reflexivity.
  rewrite Ht. cbn [negb].
  destruct (str_eqb s (lit "topic")) eqn:Es; [|reflexivity].
  destruct (str_eqb g2 (lit "name")) eqn:Eg; [|reflexivity].
  apply str_eqb_eq in Es, Eg. exfalso. apply Hnot. split; auto.
Qed.

Lemma parse_topic_path (s r v : pystr) :
  topic_path s r ->
  exists t, forall acc : parsed,
    parse_line acc (render (ROOT ++ s ++ [47] ++ r, v)) = (Some t, snd acc).
Proof.
  intros Hp. pose proof Hp as [-> _].
  destruct (@topic_path_line r v Hp) as [t Hm]. exists t. intros acc.
  unfold parse_line. rewrite render_strip, Hm.
  assert (Ht : truthy (render (ROOT ++ lit "topic" ++ [47] ++ r, v)) = true)
    by reflexivity.
  rewrite Ht. reflexivity.
Qed.

(** C9, as the code has it.  Take a custom entry whose key is [s/r] with
    a first segment [s] that is not empty and has no slash and a rest [r]
    that is not empty, key and value text on one line, the value not
    [None].  [to_list], hence [to_header], has an entry for it, and the
    rendered line matches the sectioned pattern with section [s].  Unless
    [s/r] is read as the path of the topic ([s] is [topic] and [r] is
    [name], or [name:] followed by white space, if any, and a double
    quote), the loop of [from_header] records nothing for the line,
    neither topic nor custom key, and [from_header], called with the
    header of the context in any store, leaves the store it would leave if
    the line of the entry were not in the text.  When [s/r] is read as the
    path of the topic, the line sets the topic.  And whatever header is
    decoded, [from_header] never adds to the custom map a key of that form
    (a segment, a slash and something after it): such a key is in the
    result only when the custom map was left as it was. *)
Theorem sectioned_keys_are_dropped
        (st : store) (ci : dict pyval) (s r : pystr) (val : pyval) :
  wf_store st -> custom_info st = Some ci ->
  In (s ++ [47] ++ r, val) ci -> val <> PyNone ->
  s <> [] -> Re.all_in (Re.not_char 47) s -> r <> [] ->
  one_line s -> one_line r -> one_line (py_str val) ->
  let entry := (ROOT ++ s ++ [47] ++ r, py_str val) in
  In entry (to_list st)
  /\ (exists g2 g3, pattern_with_section (render entry) = Some (s, g2, g3))
  /\ (exists d1 d2, to_list st = d1 ++ entry :: d2)
  /\ (~ topic_path s r ->
      (forall acc, parse_line acc (render entry) = acc)
      /\ (forall tgt header d1 d2,
             to_header st = Ok header -> to_list st = d1 ++ entry :: d2 ->
             from_header tgt header
             = Ok (install tgt (json_str (d1 ++ d2)))))
  /\ (topic_path s r ->
      exists t, forall acc : parsed,
        parse_line acc (render entry) = (Some t, snd acc))
  /\ (forall tgt header st' g,
         from_header tgt header = Ok st' ->
         In g (custom_keys st') -> sectioned_key g ->
         In g (custom_keys tgt)).
Proof.
  intros Hwf Hci Hin Hval Hs Hcs Hr Hls Hlr Hlv entry.
  assert (Hentry : In entry (to_list st)).
  { subst entry. eapply to_list_In; eauto. }
  assert (Hline : one_line (render entry)).
  { subst entry. apply render_one_line; [|exact Hlv].
    change (one_line (ROOT ++ s ++ [47] ++ r)).
    apply all_in_app; split; [repeat constructor|].
    apply all_in_app; split; [exact Hls|].
    apply all_in_app; split; [repeat constructor | exact Hlr]. }
  split; [exact Hentry|]. split.
  { destruct (@sectioned_line s r (py_str val) Hs Hcs Hr Hlr)
      as (g2 & g3 & Hm & _).
    exists g2, g3. exact Hm. }
  split; [now apply in_split|]. split; [|split].
  - intros Hnot.
    assert (Hdrop : forall acc, parse_line acc (render entry) = acc).
    { intros acc. subst entry. now apply parse_dropped. }
    split; [exact Hdrop|].
    intros tgt header d1 d2 Hh Hsplit.
    assert (Hne : to_list st <> []).
    { rewrite Hsplit. destruct d1; discriminate. }
    destruct (@HeaderFacts.header_transport st tgt header Hne Hh)
      as [_ Hfrom].
    rewrite Hfrom, Hsplit. f_equal. apply install_lines.
    exact (@dropped_line d1 d2 entry (None, []) Hline Hdrop).
  - intros Hp. subst entry. now apply parse_topic_path.
  - intros tgt header st' g Hfrom Hg Hsec.
    destruct (@from_header_keys tgt st' header g Hfrom Hg) as [H|H];
      [exact H | contradiction].
Qed.

(** The session key that [SessionInformation.add_to_context] writes: its
    line is dropped, and the header of the context decodes as the text
    without that line does. *)
Lemma sectioned_keys_are_dropped_witness :
  parse_line (None, [])
    (render (lit "ourritual/ourritual/session/id", lit "7")) = (None, [])
  /\ exists header,
       to_header Examples.ctx_session = Ok header
       /\ from_header Examples.ctx_a1 header
          = Ok (install Examples.ctx_a1
                  (json_str [(lit "ourritual/ourritual/session/expert/email",
                              lit "e@x.org")])).
Proof.
  assert (Hwf : wf_store Examples.ctx_session).
  { cbv. repeat constructor; cbv; intuition discriminate. }
  assert (Hin : In (lit "ourritual" ++ [47] ++ lit "session/id", PyInt 7)
                   [(lit "ourritual/session/id", PyInt 7);
                    (lit "ourritual/session/expert/email",
                     PyStr (lit "e@x.org"))])
    by (left; reflexivity).
  assert (Hcs : Re.all_in (Re.not_char 47) (lit "ourritual"))
    by (repeat constructor).
  assert (Hnot : ~ topic_path (lit "ourritual") (lit "session/id")).
  { intros [H _]. discriminate. }
  assert (Hls : one_line (lit "ourritual")) by (repeat constructor).
  assert (Hlr : one_line (lit "session/id")) by (repeat constructor).
  assert (Hlv : one_line (py_str (PyInt 7))) by (repeat constructor).
  pose proof (@sectioned_keys_are_dropped Examples.ctx_session _
                (lit "ourritual") (lit "session/id") (PyInt 7) Hwf eq_refl
                Hin ltac:(discriminate) ltac:(discriminate) Hcs
                ltac:(discriminate) Hls Hlr Hlv)
    as (_ & _ & _ & Hdrop & _).
  destruct (Hdrop Hnot) as [Hparse Hhdr].
  split; [apply Hparse|].
  assert (Hh : exists h, to_header Examples.ctx_session = Ok h)
    by (vm_compute; eexists; reflexivity).
  destruct Hh as [h Hh]. exists h. split; [exact Hh|].
  apply (Hhdr Examples.ctx_a1 h []
           [(lit "ourritual/ourritual/session/expert/email", lit "e@x.org")]
           Hh).
  reflexivity.
Defined.

End SlashFacts.

(* ================================================================== *)
(** * Units and their context variables *)
(* ================================================================== *)

Module UnitFacts.
Import LogHelper Units PyFacts.

(** ** Assignment into a list *)

Lemma assign_length (A : Type) (n : nat) (x : A) (l : list A) :
  List.length (assign n x l) = List.length l.
Proof.
  revert n; induction l as [|y l IH]; intros [|n]; cbn [assign List.length];
    auto.
Qed.

Lemma nth_assign_same (A : Type) (n : nat) (x d : A) (l : list A) :
  (n < List.length l)%nat -> nth n (assign n x l) d = x.
Proof.
  revert n; induction l as [|y l IH]; intros [|n]; cbn [assign List.length nth];
    intros H; try lia; auto. apply IH. lia.
Qed.

Lemma nth_assign_other (A : Type) (n m : nat) (x d : A) (l : list A) :
  n <> m -> nth m (assign n x l) d = nth m l d.
Proof.
  revert n m; induction l as [|y l IH]; intros [|n] [|m] H;
    cbn [assign nth]; auto; try congruence.
Qed.

Lemma Forall_assign (A : Type) (P : A -> Prop) (n : nat) (x : A)
      (l : list A) :
  Forall P l -> P x -> Forall P (assign n x l).
Proof.
  intros Hl Hx. revert n; induction Hl as [|y l Hy Hl IH]; intros [|n];
    cbn [assign]; constructor; auto.
Qed.

(** ** The primitive steps *)

Lemma context_of_bind_custom (w : world) (u u' : nat) (a : addr) :
  context_of (bind_custom w u a) u'
  = if Nat.eqb u u' && Nat.ltb u (List.length (contexts w))
    then {| topic_var := topic_var (context_of w u); custom_var := Some a |}
    else context_of w u'.
Proof.
  unfold context_of, bind_custom; cbn [contexts].
  destruct (Nat.eqb_spec u u') as [<-|Hne]; cbn [andb].
  - destruct (Nat.ltb_spec u (List.length (contexts w))) as [Hlt|Hge].
    + now apply nth_assign_same.
    + rewrite !nth_overflow; rewrite ?assign_length; auto.
  - now apply nth_assign_other.
Qed.

Lemma context_of_bind_topic (w : world) (u u' : nat) (t : option pystr) :
  context_of (bind_topic w u t) u'
  = if Nat.eqb u u' && Nat.ltb u (List.length (contexts w))
    then {| topic_var := t; custom_var := custom_var (context_of w u) |}
    else context_of w u'.
Proof.
  unfold context_of, bind_topic; cbn [contexts].
  destruct (Nat.eqb_spec u u') as [<-|Hne]; cbn [andb].
  - destruct (Nat.ltb_spec u (List.length (contexts w))) as [Hlt|Hge].
    + now apply nth_assign_same.
    + rewrite !nth_overflow; rewrite ?assign_length; auto.
  - now apply nth_assign_other.
Qed.

Lemma deref_store_item (w : world) (a a' : addr) (k : pystr) (v : pyval) :
  (a < List.length (heap w))%nat ->
  deref (store_item w a k v) a'
  = if Nat.eqb a a' then dict_set (deref w a) k v else deref w a'.
Proof.
  intros Hlt. unfold deref, store_item; cbn [heap].
  destruct (Nat.eqb_spec a a') as [<-|Hne].
  - now apply nth_assign_same.
  - now apply nth_assign_other.
Qed.

Lemma deref_alloc (w : world) (d : dict pyval) (a' : addr) :
  deref (fst (alloc w d)) a'
  = if Nat.eqb a' (List.length (heap w)) then d else deref w a'.
Proof.
  unfold deref, alloc; cbn [fst heap].
  destruct (Nat.eqb_spec a' (List.length (heap w))) as [->|Hne].
  - rewrite app_nth2 by lia. now rewrite Nat.sub_diag.
  - destruct (Nat.lt_ge_cases a' (List.length (heap w))) as [Hlt|Hge].
    + now apply app_nth1.
    + rewrite !nth_overflow; auto; rewrite ?length_app; cbn [List.length];
        lia.
Qed.

Lemma wf_world_grow (w : world) (h : list (dict pyval)) :
  wf_world w -> (List.length (heap w) <= List.length h)%nat ->
  wf_world {| heap := h; contexts := contexts w |}.
Proof.
  unfold wf_world; cbn [heap contexts]. intros Hwf Hle.
  eapply Forall_impl; [|exact Hwf]. cbv beta. intros b Hb.
  destruct (custom_var b); [lia | exact I].
Qed.

Lemma wf_context_of (w : world) (u : nat) (a : addr) :
  wf_world w -> custom_var (context_of w u) = Some a ->
  (a < List.length (heap w))%nat.
Proof.
  unfold wf_world, context_of. intros Hwf Hc.
  destruct (Nat.lt_ge_cases u (List.length (contexts w))) as [Hlt|Hge].
  - rewrite Forall_forall in Hwf.
    specialize (Hwf _ (nth_In (contexts w) unbound Hlt)).
    now rewrite Hc in Hwf.
  - rewrite nth_overflow in Hc by exact Hge. discriminate.
Qed.

Lemma wf_bind_custom (w : world) (u : nat) (a : addr) :
  wf_world w -> (a < List.length (heap w))%nat ->
  wf_world (bind_custom w u a).
Proof.
  unfold wf_world, bind_custom; cbn [heap contexts]. intros Hwf Ha.
  apply Forall_assign; [exact Hwf | exact Ha].
Qed.

Lemma wf_bind_topic (w : world) (u : nat) (t : option pystr) :
  wf_world w -> wf_world (bind_topic w u t).
Proof.
  unfold wf_world, bind_topic; cbn [heap contexts]. intros Hwf.
  apply Forall_assign; [exact Hwf|]. cbn [custom_var].
  destruct (custom_var (context_of w u)) as [a|] eqn:E; [|exact I].
  now apply (@wf_context_of w u a).
Qed.

Lemma wf_store_item (w : world) (a : addr) (k : pystr) (v : pyval) :
  wf_world w -> wf_world (store_item w a k v).
Proof.
  intros Hwf. apply wf_world_grow; [exact Hwf|].
  rewrite assign_length. lia.
Qed.

Lemma wf_alloc (w : world) (d : dict pyval) :
  wf_world w -> wf_world (fst (alloc w d)).
Proof.
  intros Hwf. apply wf_world_grow; [exact Hwf|].
  rewrite length_app. lia.
Qed.

(** ** One operation, seen from the unit that runs it and from another *)

Lemma view_bind_custom (w : world) (u u' : nat) (a : addr) :
  view (bind_custom w u a) u'
  = if Nat.eqb u u' && Nat.ltb u (List.length (contexts w))
    then {| topic_info := topic_info (view w u);
            custom_info := Some (deref w a) |}
    else view w u'.
Proof.
  unfold view. rewrite context_of_bind_custom.
  destruct (Nat.eqb u u' && Nat.ltb u (List.length (contexts w)));
    reflexivity.
Qed.

Lemma view_bind_topic (w : world) (u u' : nat) (t : option pystr) :
  view (bind_topic w u t) u'
  = if Nat.eqb u u' && Nat.ltb u (List.length (contexts w))
    then LogHelper.set_topic_info (view w u) t
    else view w u'.
Proof.
  unfold view. rewrite context_of_bind_topic.
  destruct (Nat.eqb u u' && Nat.ltb u (List.length (contexts w)));
    reflexivity.
Qed.

Lemma view_heap_ext (w w1 : world) (u : nat) :
  contexts w1 = contexts w ->
  (forall a, custom_var (context_of w u) = Some a -> deref w1 a = deref w a) ->
  view w1 u = view w u.
Proof.
  intros Hc Hd. unfold view, context_of in *. rewrite Hc.
  destruct (custom_var (nth u (contexts w) unbound)) as [a|] eqn:E;
    [|reflexivity].
  now rewrite (Hd a eq_refl).
Qed.

Lemma in_range (u n : nat) : (u < n)%nat -> Nat.ltb u n = true.
Proof. apply Nat.ltb_lt. Qed.

Lemma set_custom_info_own (w : world) (u : nat) (k : pystr) (v : pyval) :
  wf_world w -> (u < List.length (contexts w))%nat ->
  view (Units.set_custom_info w u k v) u
  = LogHelper.set_custom_info (view w u) k v.
Proof.
  intros Hwf Hu. unfold Units.set_custom_info, LogHelper.set_custom_info.
  unfold view at 2 3. cbn [topic_info custom_info].
  destruct (custom_var (context_of w u)) as [a|] eqn:E.
  - rewrite view_bind_custom. cbn [store_item contexts].
    rewrite Nat.eqb_refl, (in_range Hu). cbn [andb].
    rewrite deref_store_item by now apply (@wf_context_of w u a).
    rewrite Nat.eqb_refl. unfold view, context_of; cbn [store_item contexts topic_info].
    reflexivity.
  - cbn [alloc]. rewrite view_bind_custom. cbn [store_item contexts].
    rewrite Nat.eqb_refl, (in_range Hu). cbn [andb].
    rewrite deref_store_item by (cbn [heap]; rewrite length_app; cbn; lia).
    rewrite Nat.eqb_refl.
    change {| heap := heap w ++ [[]]; contexts := contexts w |}
      with (fst (alloc w [])).
    rewrite deref_alloc, Nat.eqb_refl.
    unfold view, context_of; cbn [store_item alloc fst contexts topic_info].
    reflexivity.
Qed.

Lemma set_custom_info_other (w : world) (u u' : nat) (k : pystr)
      (v : pyval) :
  wf_world w -> u <> u' -> separate w u u' ->
  view (Units.set_custom_info w u k v) u' = view w u'.
Proof.
  intros Hwf Hne Hsep. unfold Units.set_custom_info.
  apply Nat.eqb_neq in Hne.
  destruct (custom_var (context_of w u)) as [a|] eqn:E.
  - rewrite view_bind_custom, Hne. cbn [andb].
    apply view_heap_ext; [reflexivity|].
    intros a' Ha'. rewrite deref_store_item
      by now apply (@wf_context_of w u a).
    destruct (Nat.eqb_spec a a') as [<-|_]; [|reflexivity].
    exfalso. exact (Hsep a E Ha').
  - cbn [alloc]. rewrite view_bind_custom, Hne. cbn [andb].
    apply view_heap_ext; [reflexivity|].
    intros a' Ha'.
    pose proof (@wf_context_of w u' a' Hwf Ha') as Hlt.
    rewrite deref_store_item by (cbn [heap]; rewrite length_app; cbn; lia).
    destruct (Nat.eqb_spec (List.length (heap w)) a') as [<-|_]; [lia|].
    change {| heap := heap w ++ [[]]; contexts := contexts w |}
      with (fst (alloc w [])).
    rewrite deref_alloc.
    destruct (Nat.eqb_spec a' (List.length (heap w))); [lia | reflexivity].
Qed.

Lemma install_own (w : world) (u : nat) (s : pystr) :
  (u < List.length (contexts w))%nat ->
  view (Units.install w u s) u = LogHelper.install (view w u) s.
Proof.
  intros Hu. unfold Units.install, LogHelper.install.
  destruct (fold_left parse_line (split_lines s) (None, []))
    as [topic_data custom_data]. cbn [fst snd].
  set (w1 := match topic_data with
             | Some t => Units.set_topic_info w u (Some t)
             | None => w
             end).
  assert (Hlen : List.length (contexts w1) = List.length (contexts w)).
  { subst w1. destruct topic_data; [|reflexivity].
    unfold Units.set_topic_info, bind_topic; cbn [contexts].
    apply assign_length. }
  assert (Hv1 : view w1 u
                = match topic_data with
                  | Some t => LogHelper.set_topic_info (view w u) (Some t)
                  | None => view w u
                  end).
  { subst w1. destruct topic_data; [|reflexivity].
    unfold Units.set_topic_info. rewrite view_bind_topic.
    now rewrite Nat.eqb_refl, (in_range Hu). }
  destruct custom_data as [|e custom_data]; [exact Hv1|].
  cbn [alloc]. rewrite view_bind_custom. cbn [contexts].
  rewrite Nat.eqb_refl, Hlen, (in_range Hu). cbn [andb].
  change {| heap := heap w1 ++ [e :: custom_data]; contexts := contexts w1 |}
    with (fst (alloc w1 (e :: custom_data))).
  rewrite deref_alloc, Nat.eqb_refl.
  assert (Ht : topic_info (view (fst (alloc w1 (e :: custom_data))) u)
               = topic_info (view w1 u)) by reflexivity.
  rewrite Ht, Hv1. reflexivity.
Qed.

Lemma install_other (w : world) (u u' : nat) (s : pystr) :
  wf_world w -> u <> u' ->
  view (Units.install w u s) u' = view w u'.
Proof.
  intros Hwf Hne. unfold Units.install.
  destruct (fold_left parse_line (split_lines s) (None, []))
    as [topic_data custom_data]. cbn [fst snd].
  set (w1 := match topic_data with
             | Some t => Units.set_topic_info w u (Some t)
             | None => w
             end).
  pose proof Hne as Hneb. apply Nat.eqb_neq in Hneb.
  assert (Hv1 : view w1 u' = view w u').
  { subst w1. destruct topic_data; [|reflexivity].
    unfold Units.set_topic_info. rewrite view_bind_topic, Hneb.
    reflexivity. }
  assert (Hwf1 : wf_world w1).
  { subst w1. destruct topic_data; [|exact Hwf].
    now apply wf_bind_topic. }
  destruct custom_data as [|e custom_data]; [exact Hv1|].
  cbn [alloc]. rewrite view_bind_custom, Hneb. cbn [andb].
  rewrite <- Hv1. apply view_heap_ext; [reflexivity|].
  intros a Ha.
  pose proof (@wf_context_of w1 u' a Hwf1 Ha) as Hlt.
  change {| heap := heap w1 ++ [e :: custom_data]; contexts := contexts w1 |}
    with (fst (alloc w1 (e :: custom_data))).
  rewrite deref_alloc.
  destruct (Nat.eqb_spec a (List.length (heap w1))); [lia | reflexivity].
Qed.

(** ** One operation of a unit *)

Lemma separate_sym (w : world) (u u' : nat) :
  separate w u u' -> separate w u' u.
Proof. intros H a Ha Hb. exact (H a Hb Ha). Qed.

Lemma install_length (w : world) (u : nat) (s : pystr) :
  List.length (contexts (Units.install w u s)) = List.length (contexts w).
Proof.
  unfold Units.install.
  destruct (fold_left parse_line (split_lines s) (None, []))
    as [topic_data custom_data]. cbn [fst snd].
  assert (H : List.length
                (contexts match topic_data with
                          | Some t => Units.set_topic_info w u (Some t)
                          | None => w
                          end) = List.length (contexts w)).
  { destruct topic_data; [|reflexivity]. apply assign_length. }
  destruct custom_data; [exact H|].
  cbn [alloc bind_custom contexts]. now rewrite assign_length.
Qed.

Lemma run_op_length (w w' : world) (u : nat) (o : op) :
  run_op w u o = Ok w' ->
  List.length (contexts w') = List.length (contexts w).
Proof.
  destruct o as [topic|key value|header]; cbn [run_op].
  - intros [= <-]. apply assign_length.
  - intros [= <-]. unfold Units.set_custom_info.
    destruct (custom_var (context_of w u));
      cbn [alloc bind_custom store_item contexts]; apply assign_length.
  - unfold Units.from_header.
    destruct (negb (truthy header) || negb (truthy (strip header)));
      [now intros [= <-]|].
    destruct (decode_header header); intros [= <-]; [|reflexivity].
    apply install_length.
Qed.

Lemma install_wf (w : world) (u : nat) (s : pystr) :
  wf_world w -> wf_world (Units.install w u s).
Proof.
  intros Hwf. unfold Units.install.
  destruct (fold_left parse_line (split_lines s) (None, []))
    as [topic_data custom_data]. cbn [fst snd].
  set (w1 := match topic_data with
             | Some t => Units.set_topic_info w u (Some t)
             | None => w
             end).
  assert (Hwf1 : wf_world w1).
  { subst w1. destruct topic_data; [|exact Hwf]. now apply wf_bind_topic. }
  destruct custom_data as [|e custom_data]; [exact Hwf1|].
  cbn [alloc]. apply wf_bind_custom.
  - now apply (@wf_alloc w1 (e :: custom_data)).
  - cbn [heap]. rewrite length_app. cbn [List.length]. lia.
Qed.

Lemma run_op_wf (w w' : world) (u : nat) (o : op) :
  wf_world w -> run_op w u o = Ok w' -> wf_world w'.
Proof.
  intros Hwf. destruct o as [topic|key value|header]; cbn [run_op].
  - intros [= <-]. now apply wf_bind_topic.
  - intros [= <-]. unfold Units.set_custom_info.
    destruct (custom_var (context_of w u)) as [a|] eqn:E.
    + apply wf_bind_custom; [now apply wf_store_item|].
      cbn [store_item heap]. rewrite assign_length.
      now apply (@wf_context_of w u a).
    + cbn [alloc]. apply wf_bind_custom.
      * apply wf_store_item. now apply (@wf_alloc w []).
      * cbn [store_item heap]. rewrite assign_length, length_app.
        cbn [List.length]. lia.
  - unfold Units.from_header.
    destruct (negb (truthy header) || negb (truthy (strip header)));
      [now intros [= <-]|].
    destruct (decode_header header); intros [= <-]; [|exact Hwf].
    now apply install_wf.
Qed.

Lemma run_op_own (w w' : world) (u : nat) (o : op) :
  wf_world w -> (u < List.length (contexts w))%nat ->
  run_op w u o = Ok w' ->
  LogHelper.run_op (view w u) o = Ok (view w' u).
Proof.
  intros Hwf Hu. destruct o as [topic|key value|header];
    cbn [run_op LogHelper.run_op].
  - intros [= <-]. unfold Units.set_topic_info. rewrite view_bind_topic.
    now rewrite Nat.eqb_refl, (in_range Hu).
  - intros [= <-]. now rewrite set_custom_info_own.
  - unfold Units.from_header, LogHelper.from_header.
    destruct (negb (truthy header) || negb (truthy (strip header)));
      [now intros [= <-]|].
    destruct (decode_header header); intros [= <-]; [|reflexivity].
    now rewrite install_own.
Qed.

Lemma run_op_other (w w' : world) (u u' : nat) (o : op) :
  wf_world w -> u <> u' -> separate w u u' ->
  run_op w u o = Ok w' -> view w' u' = view w u'.
Proof.
  intros Hwf Hne Hsep. destruct o as [topic|key value|header];
    cbn [run_op].
  - intros [= <-]. unfold Units.set_topic_info. rewrite view_bind_topic.
    apply Nat.eqb_neq in Hne. now rewrite Hne.
  - intros [= <-]. now apply set_custom_info_other.
  - unfold Units.from_header.
    destruct (negb (truthy header) || negb (truthy (strip header)));
      [now intros [= <-]|].
    destruct (decode_header header); intros [= <-]; [|reflexivity].
    now apply install_other.
Qed.

(** The reference a unit holds after an operation of its own is the one
    it held or a new one. *)
Lemma install_custom_var (w : world) (u : nat) (s : pystr) (a : addr) :
  custom_var (context_of (Units.install w u s) u) = Some a ->
  custom_var (context_of w u) = Some a
  \/ (List.length (heap w) <= a)%nat.
Proof.
  unfold Units.install.
  destruct (fold_left parse_line (split_lines s) (None, []))
    as [topic_data custom_data]. cbn [fst snd].
  set (w1 := match topic_data with
             | Some t => Units.set_topic_info w u (Some t)
             | None => w
             end).
  assert (H1 : custom_var (context_of w1 u) = custom_var (context_of w u)
               /\ heap w1 = heap w).
  { subst w1. destruct topic_data; [|split; reflexivity].
    unfold Units.set_topic_info. rewrite context_of_bind_topic.
    split; [|reflexivity].
    destruct (Nat.eqb u u && Nat.ltb u (List.length (contexts w)));
      reflexivity. }
  destruct H1 as [Hc Hh].
  destruct custom_data as [|e custom_data].
  - intros H. left. now rewrite <- Hc.
  - cbn [alloc]. rewrite context_of_bind_custom. cbn [contexts].
    destruct (Nat.eqb u u && Nat.ltb u (List.length (contexts w1)));
      cbn [custom_var].
    + intros [= <-]. right. rewrite Hh. lia.
    + intros H. left. rewrite <- Hc. exact H.
Qed.

Lemma run_op_custom_var (w w' : world) (u : nat) (o : op) (a : addr) :
  run_op w u o = Ok w' ->
  custom_var (context_of w' u) = Some a ->
  custom_var (context_of w u) = Some a
  \/ (List.length (heap w) <= a)%nat.
Proof.
  destruct o as [topic|key value|header]; cbn [run_op].
  - intros [= <-]. unfold Units.set_topic_info.
    rewrite context_of_bind_topic.
    destruct (Nat.eqb u u && Nat.ltb u (List.length (contexts w)));
      cbn [custom_var]; auto.
  - intros [= <-]. unfold Units.set_custom_info.
    destruct (custom_var (context_of w u)) as [a0|] eqn:E.
    + rewrite context_of_bind_custom. cbn [store_item contexts].
      destruct (Nat.eqb u u && Nat.ltb u (List.length (contexts w)));
        cbn [custom_var].
      * intros [= <-]. now left.
      * intros H. left.
        change (custom_var (context_of w u) = Some a) in H.
        now rewrite <- H.
    + cbn [alloc]. rewrite context_of_bind_custom. cbn [store_item contexts].
      destruct (Nat.eqb u u && Nat.ltb u (List.length (contexts w)));
        cbn [custom_var].
      * intros [= <-]. right. lia.
      * intros H. change (custom_var (context_of w u) = Some a) in H.
        rewrite E in H. discriminate.
  - unfold Units.from_header.
    destruct (negb (truthy header) || negb (truthy (strip header)));
      [intros [= <-]; auto|].
    destruct (decode_header header); intros [= <-]; auto.
    apply install_custom_var.
Qed.

Lemma install_context_other (w : world) (u u' : nat) (s : pystr) :
  u <> u' -> context_of (Units.install w u s) u' = context_of w u'.
Proof.
  intros Hne. apply Nat.eqb_neq in Hne. unfold Units.install.
  destruct (fold_left parse_line (split_lines s) (None, []))
    as [topic_data custom_data]. cbn [fst snd].
  assert (H1 : context_of match topic_data with
                          | Some t => Units.set_topic_info w u (Some t)
                          | None => w
                          end u' = context_of w u').
  { destruct topic_data; [|reflexivity].
    unfold Units.set_topic_info. rewrite context_of_bind_topic.
    now rewrite Hne. }
  destruct custom_data; [exact H1|].
  cbn [alloc]. rewrite context_of_bind_custom, Hne. cbn [andb].
  exact H1.
Qed.

Lemma run_op_context_other (w w' : world) (u u' : nat) (o : op) :
  u <> u' -> run_op w u o = Ok w' -> context_of w' u' = context_of w u'.
Proof.
  intros Hne. pose proof Hne as Hneb. apply Nat.eqb_neq in Hneb.
  destruct o as [topic|key value|header]; cbn [run_op].
  - intros [= <-]. unfold Units.set_topic_info.
    rewrite context_of_bind_topic. now rewrite Hneb.
  - intros [= <-]. unfold Units.set_custom_info.
    destruct (custom_var (context_of w u)); cbn [alloc];
      rewrite context_of_bind_custom, Hneb; reflexivity.
  - unfold Units.from_header.
    destruct (negb (truthy header) || negb (truthy (strip header)));
      [now intros [= <-]|].
    destruct (decode_header header); intros [= <-]; [|reflexivity].
    now apply install_context_other.
Qed.

Lemma run_op_separate (w w' : world) (u u' : nat) (o : op) :
  wf_world w -> u <> u' -> separate w u u' ->
  run_op w u o = Ok w' -> separate w' u u'.
Proof.
  intros Hwf Hne Hsep Hrun a Ha Hb.
  rewrite (@run_op_context_other w w' u u' o Hne Hrun) in Hb.
  destruct (@run_op_custom_var w w' u o a Hrun Ha) as [Hold|Hnew].
  - exact (Hsep a Hold Hb).
  - pose proof (@wf_context_of w u' a Hwf Hb). lia.
Qed.

(** X17.  Units that do not refer to the same dict object run alone.
    Let two units of a well-formed interpreter state hold no reference to
    the same dict, and let them run [set_topic_info], [set_custom_info] and
    [from_header] in any interleaving.  Then what each unit reads at the
    end is what its own operations, run alone on a store of its own,
    give from what it read at the start: no unit sees an entry of the
    other, and on one unit the change in place of [set_custom_info] and an
    update of a value are the same. *)
Theorem separate_units_run_alone
        (w w' : world) (u1 u2 : nat) (schedule : list (nat * op)) :
  wf_world w ->
  (u1 < List.length (contexts w))%nat ->
  (u2 < List.length (contexts w))%nat ->
  u1 <> u2 -> separate w u1 u2 ->
  Forall (fun step => fst step = u1 \/ fst step = u2) schedule ->
  run w schedule = Ok w' ->
  run_ops (view w u1) (ops_of u1 schedule) = Ok (view w' u1)
  /\ run_ops (view w u2) (ops_of u2 schedule) = Ok (view w' u2)
  /\ separate w' u1 u2.
Proof.
  intros Hwf H1 H2 Hne Hsep Hall. revert w Hwf H1 H2 Hsep.
  induction Hall as [|[u o] schedule Hu Hall IH];
    intros w Hwf H1 H2 Hsep Hrun.
  - cbn [run] in Hrun. injection Hrun as <-. repeat split; auto.
  - cbn [run] in Hrun.
    destruct (run_op w u o) as [wm|e] eqn:Eo; [|discriminate].
    cbn [bind] in Hrun. cbn [fst] in Hu.
    pose proof (@run_op_length w wm u o Eo) as Hlen.
    pose proof (@run_op_wf w wm u o Hwf Eo) as Hwfm.
    assert (Hsepm : separate wm u1 u2).
    { destruct Hu as [->| ->].
      - exact (@run_op_separate w wm u1 u2 o Hwf Hne Hsep Eo).
      - apply separate_sym.
        exact (@run_op_separate w wm u2 u1 o Hwf (not_eq_sym Hne)
                 (@separate_sym w u1 u2 Hsep) Eo). }
    destruct (IH wm Hwfm ltac:(lia) ltac:(lia) Hsepm Hrun)
      as (I1 & I2 & I3).
    split; [|split; [|exact I3]].
    + unfold ops_of in *. cbn [filter fst].
      destruct Hu as [->| ->].
      * rewrite Nat.eqb_refl. cbn [map snd run_ops].
        rewrite (@run_op_own w wm u1 o Hwf H1 Eo). cbn [bind]. exact I1.
      * apply Nat.eqb_neq in Hne. rewrite Nat.eqb_sym, Hne.
        apply Nat.eqb_neq in Hne.
        rewrite <- (@run_op_other w wm u2 u1 o Hwf (not_eq_sym Hne)
                     (@separate_sym w u1 u2 Hsep) Eo).
        exact I1.
    + unfold ops_of in *. cbn [filter fst].
      destruct Hu as [->| ->].
      * apply Nat.eqb_neq in Hne. rewrite Hne. apply Nat.eqb_neq in Hne.
        rewrite <- (@run_op_other w wm u1 u2 o Hwf Hne Hsep Eo). exact I2.
      * rewrite Nat.eqb_refl. cbn [map snd run_ops].
        rewrite (@run_op_own w wm u2 o Hwf H2 Eo). cbn [bind]. exact I2.
Qed.

(** Two tasks started from a unit that has no custom map. *)
Lemma separate_units_run_alone_witness :
  run_ops (view two_fresh_tasks 1) (ops_of 1 fresh_schedule)
  = Ok (view after_fresh 1)
  /\ run_ops (view two_fresh_tasks 2) (ops_of 2 fresh_schedule)
     = Ok (view after_fresh 2)
  /\ separate after_fresh 1 2.
Proof.
  apply (@separate_units_run_alone two_fresh_tasks after_fresh 1 2
           fresh_schedule).
  - unfold wf_world. vm_compute. repeat constructor.
  - cbn. lia.
  - cbn. lia.
  - discriminate.
  - intros a Ha. discriminate Ha.
  - repeat apply Forall_cons; try apply Forall_nil; cbn; auto.
  - reflexivity.
Defined.

(** X18.  Units that refer to the same dict object share it.  When
    two units hold a reference to the same dict, as a unit and the tasks
    started from it do once it has a custom map, an entry that one of
    them sets is read by the other.  A topic set by one is not read by
    the other, and neither is a header that one decodes: those bind values
    of their own. *)
Theorem shared_map_is_shared
        (w : world) (u u' : nat) (a : addr) (k : pystr) (v : pyval) :
  wf_world w -> (u < List.length (contexts w))%nat -> u <> u' ->
  custom_var (context_of w u) = Some a ->
  custom_var (context_of w u') = Some a ->
  custom_get (view (Units.set_custom_info w u k v) u') k = Some v
  /\ (forall t, view (Units.set_topic_info w u t) u' = view w u')
  /\ (forall header w', Units.from_header w u header = Ok w' ->
                         view w' u' = view w u')
  /\ (forall parent,
         context_of (spawn w parent) (List.length (contexts w))
         = context_of w parent).
Proof.
  intros Hwf Hu Hne Hc Hc'.
  pose proof Hne as Hneb. apply Nat.eqb_neq in Hneb.
  split; [|split; [|split]].
  - unfold Units.set_custom_info. rewrite Hc.
    rewrite view_bind_custom, Hneb. cbn [andb].
    unfold custom_get, view.
    change (context_of (store_item w a k v) u') with (context_of w u').
    rewrite Hc'. cbn [custom_info].
    rewrite deref_store_item by now apply (@wf_context_of w u a).
    rewrite Nat.eqb_refl. apply dict_get_set_same.
  - intros t. unfold Units.set_topic_info. rewrite view_bind_topic.
    now rewrite Hneb.
  - intros header w'. unfold Units.from_header.
    destruct (negb (truthy header) || negb (truthy (strip header)));
      [now intros [= <-]|].
    destruct (decode_header header); intros [= <-]; [|reflexivity].
    now apply install_other.
  - intros parent. unfold context_of, spawn; cbn [contexts].
    rewrite app_nth2 by lia. now rewrite Nat.sub_diag.
Qed.

Lemma shared_map_is_shared_witness :
  custom_get (view after_task1 2) (lit "a") = Some (PyStr (lit "1")).
Proof.
  assert (Hwf : wf_world two_tasks)
    by (unfold wf_world; vm_compute; repeat constructor).
  exact (proj1 (@shared_map_is_shared two_tasks 1 2 0 (lit "a")
                  (PyStr (lit "1")) Hwf ltac:(cbn; lia)
                  ltac:(discriminate) eq_refl eq_refl)).
Defined.

(** C2.  The code where the claim fails.  A unit sets a custom entry
    and then starts two tasks; each task begins with a copy of the
    context, so both refer to the dict the first unit made.
    [set_custom_info] in task 1 changes that dict in place, and the
    flattened map of task 2, which has set nothing yet, has the entry of
    task 1; when task 2 then sets an entry of its own, the flattened map
    of task 1 has it.  Started from a unit with no custom map, the same
    two tasks do not see each other. *)
Lemma inherited_map_leaks :
  Units.to_list two_tasks 2 = [(ROOT ++ lit "service", lit "x")]
  /\ custom_var (context_of two_tasks 1)
     = custom_var (context_of two_tasks 2)
  /\ Units.to_list after_task1 2
     = [(ROOT ++ lit "service", lit "x"); (ROOT ++ lit "a", lit "1")]
  /\ In (lit "ourritual/a", lit "1") (Units.to_list after_task1 2)
  /\ Units.to_list after_both 1
     = [(ROOT ++ lit "service", lit "x"); (ROOT ++ lit "a", lit "1");
        (ROOT ++ lit "b", lit "2")]
  /\ In (lit "ourritual/b", lit "2") (Units.to_list after_both 1)
  /\ Units.to_list after_both 2 = Units.to_list after_both 1
  /\ Units.to_list after_fresh 1
     = [(TOPIC_KEY, lit "t1"); (ROOT ++ lit "a", lit "1")]
  /\ Units.to_list after_fresh 2 = [(ROOT ++ lit "b", lit "2")].
Proof.
  repeat split; try (vm_compute; reflexivity).
  - right; left; reflexivity.
  - right; right; left; reflexivity.
Qed.

End UnitFacts.
